(** * The card game 31: deck, scoring, the computer player's decisions and
      the turn handlers, embedded from the JavaScript sources.

    Conventions of the embedding.
    - JavaScript numbers that occur here are integers; they are modelled
      by [Z], with [jsnum] adding the two infinities that [Math.max()] and
      the literal [Infinity] can produce.
    - A JavaScript object used as a map from suit symbols to values keeps
      its keys in insertion order ([Object.entries], [Object.keys],
      [Object.values]); it is modelled by an association list [Obj].
    - [Array.prototype.sort] is stable; for the comparators of this
      program (differences of integer keys, possibly lexicographic) every
      stable sort gives the same array, so it is modelled by a stable
      insertion sort [js_sort].
    - A read that would produce [undefined] and then be dereferenced (a
      [TypeError] in JavaScript) is modelled by [None] in [option]. *)

From Stdlib Require Import ZArith List Bool Lia Arith Permutation Sorted.
Import ListNotations.
Local Open Scope Z_scope.

(* ------------------------------------------------------------------ *)
(** ** JavaScript helpers *)

Module Js.

(** Numbers with the infinities. *)
Inductive jsnum : Type :=
| NegInfinity
| Num (z : Z)
| Infinity.

(** [a < b] *)
Definition lt (a b : jsnum) : bool :=
  match a, b with
  | NegInfinity, NegInfinity => false
  | NegInfinity, _ => true
  | Num _, NegInfinity => false
  | Num x, Num y => x <? y
  | Num _, Infinity => true
  | Infinity, _ => false
  end.

(** [a >= b] *)
Definition ge (a b : jsnum) : bool :=
  match a, b with
  | _, NegInfinity => true
  | NegInfinity, _ => false
  | Num x, Num y => y <=? x
  | Num _, Infinity => false
  | Infinity, _ => true
  end.

(** [a === b] on numbers *)
Definition eq (a b : jsnum) : bool :=
  match a, b with
  | NegInfinity, NegInfinity => true
  | Num x, Num y => x =? y
  | Infinity, Infinity => true
  | _, _ => false
  end.

(** [a + k] for a finite [k] *)
Definition plus (a : jsnum) (k : Z) : jsnum :=
  match a with
  | Num x => Num (x + k)
  | other => other
  end.

Definition max2 (a b : jsnum) : jsnum := if lt a b then b else a.

(** [Math.max(...l)]; [Math.max()] is [-Infinity]. *)
Definition Math_max (l : list Z) : jsnum :=
  fold_left (fun acc x => max2 acc (Num x)) l NegInfinity.

Section Sort.
Context {A : Type}.
(** The comparator: a negative result puts [a] first. *)
Variable cmp : A -> A -> Z.

Fixpoint insert (x : A) (l : list A) : list A :=
  match l with
  | [] => [x]
  | y :: l' => if 0 <? cmp x y then y :: insert x l' else x :: l
  end.

(** [l.sort(cmp)] *)
Definition js_sort (l : list A) : list A := fold_right insert [] l.
End Sort.

Section Array.
Context {A : Type}.

(** [l.forEach((x, i) => ...)] / [l.map((x, i) => ...)]: the
    elements paired with their indices. *)
Fixpoint indexed_from (i : nat) (l : list A) : list (A * nat) :=
  match l with
  | [] => []
  | x :: l' => (x, i) :: indexed_from (S i) l'
  end.

Definition indexed (l : list A) : list (A * nat) := indexed_from 0 l.

(** [l.pop()]: the last element (or [undefined]) and the rest. *)
Definition pop (l : list A) : option A * list A :=
  match rev l with
  | [] => (None, [])
  | x :: r => (Some x, rev r)
  end.

(** [l.push(x)] *)
Definition push (l : list A) (x : A) : list A := l ++ [x].

(** [l.splice(i, 1)] as a statement: the array without position [i]. *)
Definition splice1 (i : nat) (l : list A) : list A :=
  firstn i l ++ skipn (S i) l.

(** [l[i] = x] for an index in range. *)
Fixpoint set_nth (i : nat) (x : A) (l : list A) : list A :=
  match l, i with
  | [], _ => []
  | _ :: l', O => x :: l'
  | y :: l', S i' => y :: set_nth i' x l'
  end.
End Array.

End Js.

Import Js.

(* ------------------------------------------------------------------ *)
(** ** cardTypes/index.js and cardSwapping/index.js *)

(** The four strings of [suits]. *)
Inductive Suit : Type := hearts | diamonds | flowers | spades.

(** The symbols returned by [getSuitSymbol]: the heart, diamond, club
    and spade glyphs.  They are the keys of the per-suit objects. *)
Inductive Symbol : Type := sym_heart | sym_diamond | sym_club | sym_spade.

(** The thirteen strings of [ranks]. *)
Inductive Rank : Type :=
| rA | r2 | r3 | r4 | r5 | r6 | r7 | r8 | r9 | r10 | rJ | rQ | rK.

Definition suits : list Suit := [hearts; diamonds; flowers; spades].
Definition ranks : list Rank :=
  [rA; r2; r3; r4; r5; r6; r7; r8; r9; r10; rJ; rQ; rK].

(** [function Card(suitSymbol, suit, rank, id)]; [visible] is the
    property the deal sets on the cards of player 1 ([undefined], hence
    not [=== true], on every other card). *)
Record Card : Type := new_Card {
  suitSymbol : Symbol;
  suit : Suit;
  rank : Rank;
  id : nat;
  visible : bool
}.

Definition getSuitSymbol (s : Suit) : Symbol :=
  match s with
  | hearts => sym_heart
  | diamonds => sym_diamond
  | flowers => sym_club
  | spades => sym_spade
  end.

Definition rankOrder (r : Rank) : Z :=
  match r with
  | rA => 11
  | r2 => 2 | r3 => 3 | r4 => 4 | r5 => 5
  | r6 => 6 | r7 => 7 | r8 => 8 | r9 => 9
  | r10 => 10 | rJ => 10 | rQ => 10 | rK => 10
  end.

Definition Symbol_eqb (a b : Symbol) : bool :=
  match a, b with
  | sym_heart, sym_heart | sym_diamond, sym_diamond
  | sym_club, sym_club | sym_spade, sym_spade => true
  | _, _ => false
  end.

(** ** Objects keyed by suit symbol, keys in insertion order *)

Definition Obj (V : Type) : Type := list (Symbol * V).

Section Objects.
Context {V : Type}.

(** [o[k]] *)
Fixpoint obj_get (k : Symbol) (o : Obj V) : option V :=
  match o with
  | [] => None
  | (k', v) :: o' => if Symbol_eqb k k' then Some v else obj_get k o'
  end.

(** [o[k] = v]: an existing key keeps its place, a new key goes last. *)
Fixpoint obj_set (k : Symbol) (v : V) (o : Obj V) : Obj V :=
  match o with
  | [] => [(k, v)]
  | (k', v') :: o' =>
      if Symbol_eqb k k' then (k', v) :: o' else (k', v') :: obj_set k v o'
  end.

Definition Object_entries (o : Obj V) : list (Symbol * V) := o.
Definition Object_keys (o : Obj V) : list Symbol := map fst o.
Definition Object_values (o : Obj V) : list V := map snd o.
End Objects.

(* ------------------------------------------------------------------ *)
(** ** game/Deck.js *)

(** The array built by the constructor before the shuffle:
    [suits.flatMap(suit => ranks.map((rank, index) => new Card(...)))
       .slice(0, 52)]. *)
Definition build (suits : list Suit) (ranks : list Rank) : list Card :=
  firstn 52
    (flat_map
       (fun suit =>
          let suitSymbol := getSuitSymbol suit in
          map (fun ri => new_Card suitSymbol suit (fst ri) (snd ri) false)
              (indexed ranks))
       suits).

(** One iteration of the loop of [shuffle]: swap positions [i] and [j]. *)
Definition swap (i j : nat) (cards : list Card) : list Card :=
  match nth_error cards i, nth_error cards j with
  | Some ci, Some cj => set_nth j ci (set_nth i cj cards)
  | _, _ => cards
  end.

(** [shuffle()]: [for (i = length - 1; i > 0; i--)] with
    [j = Math.floor(Math.random() * (i + 1))].  The random source is the
    function [random], which gives for each [i] a number whose remainder
    modulo [i + 1] is the index drawn. *)
Fixpoint shuffle_from (random : nat -> nat) (i : nat) (cards : list Card)
  : list Card :=
  match i with
  | O => cards
  | S i' => shuffle_from random i' (swap i (random i mod (i + 1)) cards)
  end.

Definition shuffle (random : nat -> nat) (cards : list Card) : list Card :=
  shuffle_from random (length cards - 1) cards.

(** [new Deck(suits, ranks)]: the value of [this.cards]. *)
Definition new_Deck (random : nat -> nat) (suits : list Suit)
  (ranks : list Rank) : list Card :=
  shuffle random (build suits ranks).

(** What a JavaScript call produces: a returned value or a thrown error.
    [EmptyDeckError] is the error the specification names. *)
Inductive Error : Type := EmptyDeckError | IllegalActionError.

Inductive Completion (A : Type) : Type :=
| Returned (value : A)
| Thrown (e : Error).
Arguments Returned {A} value.
Arguments Thrown {A} e.

(** [drawCard() { const card = this.cards.pop(); return card; }]:
    the completion of the call ([None] is [undefined]) and the array
    [this.cards] after it. *)
Definition drawCard (cards : list Card)
  : Completion (option Card) * list Card :=
  let (card, cards') := pop cards in
  (Returned card, cards').

(* ------------------------------------------------------------------ *)
(** ** The game state (cardTypes/index.js, extended by GameController) *)

(** [function Player(name) { this.name = name; this.hand = []; }];
    the name plays no part in the rules and is left out. *)
Record Player : Type := new_Player { hand : list Card }.

(** [function GameState()], with the turn flags the constructor of
    [GameController] adds.  [players_0] and [players_1] are [players[0]]
    and [players[1]].  The field [deck] of the source stays the empty
    array and is never read: the deck in play is the [Deck] object. *)
Record GameState : Type := new_GameState {
  discardPile : list Card;
  players_0 : Player;
  players_1 : Player;
  currentPlayerIndex : nat;
  player1HasDrawn : bool;
  player1HasDiscarded : bool;
  player2HasDrawn : bool;
  player2HasDiscarded : bool
}.

(* ------------------------------------------------------------------ *)
(** ** ai/AIPlayer.js *)

(** [!x] for a number-or-undefined [x]. *)
Definition falsy (x : option Z) : bool :=
  match x with
  | None => true
  | Some z => z =? 0
  end.

(** The callback of the reduction in [calculatePointsBySuit]. *)
Definition addPoints (acc : Obj Z) (card : Card) : Obj Z :=
  let suitSymbol := getSuitSymbol (suit card) in
  let rankValue := rankOrder (rank card) in
  let acc :=
    if falsy (obj_get suitSymbol acc) then obj_set suitSymbol 0 acc else acc in
  match obj_get suitSymbol acc with
  | Some points => obj_set suitSymbol (points + rankValue) acc
  | None => acc
  end.

(** [calculatePointsBySuit(hand)]: [hand.reduce(..., {})] *)
Definition calculatePointsBySuit (hand : list Card) : Obj Z :=
  fold_left addPoints hand [].

(** The value of [suitGroups[suitSymbol]]. *)
Record Group : Type := new_Group {
  cards : list Card;
  totalValue : Z;
  indices : list nat
}.

(** The callback of the [hand.forEach((card, index) => ...)] that fills
    [suitGroups]. *)
Definition addToGroup (suitGroups : Obj Group) (item : Card * nat)
  : Obj Group :=
  let card := fst item in
  let index := snd item in
  let suitSymbol := getSuitSymbol (suit card) in
  let suitGroups :=
    match obj_get suitSymbol suitGroups with
    | None => obj_set suitSymbol (new_Group [] 0 []) suitGroups
    | Some _ => suitGroups
    end in
  match obj_get suitSymbol suitGroups with
  | Some g =>
      obj_set suitSymbol
        (new_Group (push (cards g) card)
                   (totalValue g + rankOrder (rank card))
                   (push (indices g) index))
        suitGroups
  | None => suitGroups
  end.

(** The value of [suitGroups] after the [forEach]. *)
Definition groupBySuit (hand : list Card) : Obj Group :=
  fold_left addToGroup (indexed hand) [].

(** Comparator of [suitValues]: card count descending, then total value
    descending. *)
Definition bySizeThenValue (a b : Symbol * Group) : Z :=
  if negb (length (cards (snd a)) =? length (cards (snd b)))%nat
  then Z.of_nat (length (cards (snd b))) - Z.of_nat (length (cards (snd a)))
  else totalValue (snd b) - totalValue (snd a).

(** The nested [forEach] of step 2: the running pair
    [(lowestValue, lowestIndex)], [None] for an index read out of range;
    the whole is [None] when [suitGroups[suit]] is missing. *)
Definition lowestOfSuits (suitGroups : Obj Group) (otherSuits : list Symbol)
  : option (jsnum * option Z) :=
  fold_left
    (fun state suit =>
       match state, obj_get suit suitGroups with
       | Some st, Some g =>
           Some (fold_left
                   (fun st item =>
                      let value := rankOrder (rank (fst item)) in
                      if Js.lt (Num value) (fst st)
                      then (Num value,
                            option_map Z.of_nat
                              (nth_error (indices g) (snd item)))
                      else st)
                   (indexed (cards g)) st)
       | _, _ => None
       end)
    otherSuits (Some (Infinity, Some (-1))).

(** The [for] loop of step 3 over [weakSuitCards[1..]]: the running pair
    [(lowestValueIndex, lowestValue)]. *)
Definition lowestOfSuit (first : Card) (rest : list Card) : nat * Z :=
  fold_left
    (fun st item =>
       let cardValue := rankOrder (rank (fst item)) in
       if cardValue <? snd st then (snd item, cardValue) else st)
    (indexed_from 1 rest) (0%nat, rankOrder (rank first)).

(** A step of [selectCardToDiscard] either returns or falls through. *)
Inductive Flow : Type :=
| Return (result : option Z)
| FallThrough.

(** Step 1: a suit with three or more cards is kept. *)
Definition keepStrongSuit (hand : list Card) (suitGroups : Obj Group) : Flow :=
  let strongSuits :=
    filter (fun e => (3 <=? length (cards (snd e)))%nat)
           (Object_entries suitGroups) in
  if (0 <? length strongSuits)%nat then
    match js_sort (fun a b => totalValue (snd b) - totalValue (snd a))
                  strongSuits with
    | [] => Return None
    | (strongestSuit, _) :: _ =>
        let cardsInWeakSuits :=
          filter (fun item =>
                    negb (Symbol_eqb (getSuitSymbol (suit (fst item)))
                                     strongestSuit))
                 (indexed hand) in
        if (0 <? length cardsInWeakSuits)%nat then
          match js_sort (fun a b => rankOrder (rank (fst a))
                                    - rankOrder (rank (fst b)))
                        cardsInWeakSuits with
          | [] => Return None
          | item :: _ => Return (Some (Z.of_nat (snd item)))
          end
        else FallThrough
    end
  else FallThrough.

(** Step 2: two suits of similar value are both kept. *)
Definition keepTwoSuits (suitGroups : Obj Group)
  (suitValues : list (Symbol * Group)) : Flow :=
  if (2 <=? length suitValues)%nat then
    match suitValues with
    | (bestSuit, _) :: (secondBestSuit, _) :: _ =>
        match obj_get bestSuit suitGroups,
              obj_get secondBestSuit suitGroups with
        | Some best, Some second =>
            let valueDifference := totalValue best - totalValue second in
            if (valueDifference <=? 5)
               && (2 <=? length (cards second))%nat then
              let otherSuits :=
                filter (fun suit => negb (Symbol_eqb suit bestSuit)
                                    && negb (Symbol_eqb suit secondBestSuit))
                       (Object_keys suitGroups) in
              if (0 <? length otherSuits)%nat then
                match lowestOfSuits suitGroups otherSuits with
                | None => Return None
                | Some (_, lowestIndex) =>
                    match lowestIndex with
                    | Some (-1) => FallThrough
                    | other => Return other
                    end
                end
              else FallThrough
            else FallThrough
        | _, _ => Return None
        end
    | _ => Return None
    end
  else FallThrough.

(** Step 3: the lowest card of the weakest suit. *)
Definition discardFromWeakest (suitGroups : Obj Group)
  (suitValues : list (Symbol * Group)) : option Z :=
  match nth_error suitValues (length suitValues - 1) with
  | None => None
  | Some (weakestSuit, _) =>
      match obj_get weakestSuit suitGroups with
      | None => None
      | Some g =>
          let weakSuitCards := cards g in
          let weakSuitIndices := indices g in
          match weakSuitCards with
          | [] => None
          | first :: rest =>
              let lowestValueIndex := fst (lowestOfSuit first rest) in
              option_map Z.of_nat (nth_error weakSuitIndices lowestValueIndex)
          end
      end
  end.

(** [selectCardToDiscard(hand)] *)
Definition selectCardToDiscard (hand : list Card) : option Z :=
  if (length hand =? 0)%nat then Some (-1) else
  let suitGroups := groupBySuit hand in
  match keepStrongSuit hand suitGroups with
  | Return result => result
  | FallThrough =>
      let suitValues := js_sort bySizeThenValue (Object_entries suitGroups) in
      match keepTwoSuits suitGroups suitValues with
      | Return result => result
      | FallThrough => discardFromWeakest suitGroups suitValues
      end
  end.

(** [shouldKnock()], with [this.player2Index] at its default 1.  The
    [if]/[else] on the visible cards either returns (left) or leaves the
    value of [player1EstimatedMaxPoints] (right). *)
Definition shouldKnock (gameState : GameState) : bool :=
  let player2 := players_1 gameState in
  let hand2 := hand player2 in
  if negb (length hand2 =? 3)%nat then false else
  let pointsBySuit := calculatePointsBySuit hand2 in
  let player2MaxPoints := Math_max (Object_values pointsBySuit) in
  if Js.eq player2MaxPoints (Num 31) then true else
  if Js.ge player2MaxPoints (Num 25) then true else
  let player1 := players_0 gameState in
  let player1VisibleCards := filter visible (hand player1) in
  let estimate : bool + jsnum :=
    if (0 <? length player1VisibleCards)%nat then
      let player1PointsBySuit := calculatePointsBySuit player1VisibleCards in
      let player1EstimatedMaxPoints :=
        Math_max (Object_values player1PointsBySuit) in
      if Z.of_nat (length (hand player1)) - 1
         <=? Z.of_nat (length player1VisibleCards)
      then inl (Js.ge player2MaxPoints (Js.plus player1EstimatedMaxPoints 1))
      else inr player1EstimatedMaxPoints
    else if (3 <? length (discardPile gameState))%nat then inr (Num 21)
    else inr (Num 19) in
  match estimate with
  | inl decision => decision
  | inr player1EstimatedMaxPoints =>
      let totalTurns := length (discardPile gameState) in
      if (totalTurns <? 3)%nat then Js.ge player2MaxPoints (Num 26)
      else if (totalTurns <? 6)%nat then
        Js.ge player2MaxPoints (Js.plus player1EstimatedMaxPoints 2)
      else Js.ge player2MaxPoints (Js.plus player1EstimatedMaxPoints 1)
  end.

(* ------------------------------------------------------------------ *)
(** ** game/PointsCalculator.js *)

(** [getSortedCards(cards)] *)
Definition getSortedCards (l : list Card) : list Card :=
  js_sort (fun a b => rankOrder (rank a) - rankOrder (rank b)) l.

(** The two numbers the calculator keeps; the constructor sets both to 0. *)
Record PointsCalculator : Type := new_PointsCalculator_with {
  player1points : jsnum;
  player2points : jsnum
}.

Definition new_PointsCalculator : PointsCalculator :=
  new_PointsCalculator_with (Num 0) (Num 0).

(** The reduction both update methods run on the sorted hand, followed by
    [Object.entries(pointsBySuit).flat().filter(item => typeof item ===
    "number")], which keeps the values. *)
Definition pointsOfSortedHand (sortedHand : list Card) : list Z :=
  Object_values (calculatePointsBySuit sortedHand).

(** [updateTotalPoints()], on the cards shown in the hand container of
    player 1: an empty hand returns before [player1points] is touched. *)
Definition updateTotalPoints (pc : PointsCalculator) (player1Hand : list Card)
  : PointsCalculator :=
  if (length player1Hand =? 0)%nat then pc else
  let sortedHand := getSortedCards player1Hand in
  let points := pointsOfSortedHand sortedHand in
  new_PointsCalculator_with (Math_max points) (player2points pc).


(** The best-suit score of a hand as the calculator reports it: the value
    of [player1points] after [updateTotalPoints] on a calculator fresh
    from its constructor. *)
Definition bestScore (hand : list Card) : jsnum :=
  player1points (updateTotalPoints new_PointsCalculator hand).

(** The same quantity as [shouldKnock] computes it for a hand it has
    checked to hold three cards. *)
Definition maxPoints (hand : list Card) : jsnum :=
  Math_max (Object_values (calculatePointsBySuit hand)).

(* ------------------------------------------------------------------ *)
(** ** game/Game.js, game/GameController.js, ai/Player2Controller.js

    What the handlers read and write.  A display container is modelled
    by what the handlers use of it: the deck container by the number of
    its children, the discard-pile container and the two hand containers
    by the cards their sprites carry ([sprite.card]), in child order.
    Each handler is one transition: the state once its animation has run
    to its last tick. *)

(** The [interactive] property of the four buttons of a round. *)
Record Buttons : Type := new_Buttons {
  drawCardActionButton : bool;
  drawFromPileButton : bool;
  knockButton : bool;
  endTurnButton : bool
}.

Record World : Type := new_World {
  gameState : GameState;
  deck : list Card;                   (* this.deck.cards *)
  isDealingCards : bool;              (* Game *)
  isAnimating : bool;                 (* Game *)
  deckContainer : nat;                (* deckContainer children.length *)
  discardPileSprites : list Card;     (* GameController.discardPile *)
  player1HandContainer : list Card;
  player2HandContainer : list Card;
  buttons : Buttons
}.

Definition with_discardPile (g : GameState) (v : list Card) : GameState :=
  new_GameState v (players_0 g) (players_1 g) (currentPlayerIndex g)
    (player1HasDrawn g) (player1HasDiscarded g)
    (player2HasDrawn g) (player2HasDiscarded g).

Definition with_hand_0 (g : GameState) (v : list Card) : GameState :=
  new_GameState (discardPile g) (new_Player v) (players_1 g)
    (currentPlayerIndex g) (player1HasDrawn g) (player1HasDiscarded g)
    (player2HasDrawn g) (player2HasDiscarded g).

Definition with_hand_1 (g : GameState) (v : list Card) : GameState :=
  new_GameState (discardPile g) (players_0 g) (new_Player v)
    (currentPlayerIndex g) (player1HasDrawn g) (player1HasDiscarded g)
    (player2HasDrawn g) (player2HasDiscarded g).

Definition with_currentPlayerIndex (g : GameState) (v : nat) : GameState :=
  new_GameState (discardPile g) (players_0 g) (players_1 g) v
    (player1HasDrawn g) (player1HasDiscarded g)
    (player2HasDrawn g) (player2HasDiscarded g).

Definition with_player1Flags (g : GameState) (drawn discarded : bool)
  : GameState :=
  new_GameState (discardPile g) (players_0 g) (players_1 g)
    (currentPlayerIndex g) drawn discarded
    (player2HasDrawn g) (player2HasDiscarded g).

Definition with_player2Flags (g : GameState) (drawn discarded : bool)
  : GameState :=
  new_GameState (discardPile g) (players_0 g) (players_1 g)
    (currentPlayerIndex g) (player1HasDrawn g) (player1HasDiscarded g)
    drawn discarded.

Definition with_gameState (w : World) (v : GameState) : World :=
  new_World v (deck w) (isDealingCards w) (isAnimating w) (deckContainer w)
    (discardPileSprites w) (player1HandContainer w) (player2HandContainer w)
    (buttons w).

Definition with_deck (w : World) (v : list Card) (children : nat) : World :=
  new_World (gameState w) v (isDealingCards w) (isAnimating w) children
    (discardPileSprites w) (player1HandContainer w) (player2HandContainer w)
    (buttons w).

Definition with_flags (w : World) (dealing animating : bool) : World :=
  new_World (gameState w) (deck w) dealing animating (deckContainer w)
    (discardPileSprites w) (player1HandContainer w) (player2HandContainer w)
    (buttons w).

Definition with_discardPileSprites (w : World) (v : list Card) : World :=
  new_World (gameState w) (deck w) (isDealingCards w) (isAnimating w)
    (deckContainer w) v (player1HandContainer w) (player2HandContainer w)
    (buttons w).

Definition with_player1HandContainer (w : World) (v : list Card) : World :=
  new_World (gameState w) (deck w) (isDealingCards w) (isAnimating w)
    (deckContainer w) (discardPileSprites w) v (player2HandContainer w)
    (buttons w).

Definition with_player2HandContainer (w : World) (v : list Card) : World :=
  new_World (gameState w) (deck w) (isDealingCards w) (isAnimating w)
    (deckContainer w) (discardPileSprites w) (player1HandContainer w) v
    (buttons w).

Definition with_buttons (w : World) (v : Buttons) : World :=
  new_World (gameState w) (deck w) (isDealingCards w) (isAnimating w)
    (deckContainer w) (discardPileSprites w) (player1HandContainer w)
    (player2HandContainer w) v.

(** Two sprites are the same sprite when they carry the same card. *)
Definition Card_eq_dec (a b : Card) : {a = b} + {a <> b}.
Proof. repeat decide equality. Defined.

(** [container.removeChild(sprite)]: the first occurrence goes, a sprite
    that is not a child leaves the container as it is. *)
Fixpoint removeChild (children : list Card) (sprite : Card) : list Card :=
  match children with
  | [] => []
  | c :: rest =>
      if Card_eq_dec c sprite then rest else c :: removeChild rest sprite
  end.

(** [card.visible = true] *)
Definition makeVisible (c : Card) : Card :=
  new_Card (suitSymbol c) (suit c) (rank c) (id c) true.

(** [disableAllButtons()], on the buttons of a round. *)
Definition disableAllButtons (w : World) : World :=
  with_buttons w (new_Buttons false false false false).

(** [updateKnockButtonState()] *)
Definition updateKnockButtonState (w : World) : World :=
  let b := buttons w in
  with_buttons w
    (new_Buttons (drawCardActionButton b) (drawFromPileButton b)
       ((length (player1HandContainer w) =? 3)%nat
        && (currentPlayerIndex (gameState w) =? 0)%nat)
       (endTurnButton b)).

(** [updateEndTurnButtonState()] *)
Definition updateEndTurnButtonState (w : World) : World :=
  let b := buttons w in
  with_buttons w
    (new_Buttons (drawCardActionButton b) (drawFromPileButton b)
       (knockButton b)
       ((currentPlayerIndex (gameState w) =? 0)%nat
        && negb (length (player1HandContainer w) =? 4)%nat)).

(** [updateButtonStates()] *)
Definition updateButtonStates (w : World) : World :=
  if negb (isDealingCards w) && negb (isAnimating w) then
    if (currentPlayerIndex (gameState w) =? 0)%nat then
      let free := negb (player1HasDrawn (gameState w)) in
      let b := buttons w in
      updateEndTurnButtonState
        (updateKnockButtonState
           (with_buttons w
              (new_Buttons free free (knockButton b) (endTurnButton b))))
    else with_buttons w (new_Buttons false false false false)
  else w.

(** The part of a draw from the deck that all callers share: the guard on
    the deck container, [this.deck.drawCard()] and the removal of the top
    sprite.  [None]: the array was empty although the container was not,
    the card is [undefined] and loading its texture throws. *)
Definition takeFromDeck (w : World) : option (option (Card * World)) :=
  if (0 <? deckContainer w)%nat then
    match drawCard (deck w) with
    | (Returned (Some card), deck') =>
        Some (Some (card, with_deck w deck' (deckContainer w - 1)))
    | _ => None
    end
  else Some None.

(** The interval callback of [dealCardsOneByOne()], [n] rounds of it
    starting at [cardCount]; it stops early on an empty deck container. *)
Fixpoint dealLoop (n cardCount : nat) (w : World) : option World :=
  match n with
  | O => Some w
  | S n' =>
      match takeFromDeck w with
      | None => None
      | Some None => Some w
      | Some (Some (card, w)) =>
          let g := gameState w in
          if (cardCount mod 2 =? 0)%nat then
            let card := makeVisible card in
            dealLoop n' (S cardCount)
              (with_player1HandContainer
                 (with_gameState w
                    (with_hand_0 g (push (hand (players_0 g)) card)))
                 (push (player1HandContainer w) card))
          else
            dealLoop n' (S cardCount)
              (with_player2HandContainer
                 (with_gameState w
                    (with_hand_1 g (push (hand (players_1 g)) card)))
                 (push (player2HandContainer w) card))
      end
  end.

(** [addCardToDiscardPileFromDeck()] *)
Definition addCardToDiscardPileFromDeck (w : World) : option World :=
  match takeFromDeck w with
  | None => None
  | Some None => Some w
  | Some (Some (card, w)) =>
      Some (with_gameState
              (with_discardPileSprites w (push (discardPileSprites w) card))
              (with_discardPile (gameState w)
                 (push (discardPile (gameState w)) card)))
  end.

(** The handler of the start button with [dealCardsOneByOne()] run to
    its end: six cards dealt in turn, one card turned onto the discard
    pile, the four buttons enabled. *)
Definition startGame (w : World) : option World :=
  let w := with_flags (disableAllButtons w) true true in
  let w :=
    with_gameState w
      (with_player2Flags
         (with_player1Flags
            (with_currentPlayerIndex (gameState w) 0) false false)
         false false) in
  match dealLoop 6 0 w with
  | None => None
  | Some w =>
      match addCardToDiscardPileFromDeck w with
      | None => None
      | Some w =>
          Some (with_buttons (with_flags w false false)
                  (new_Buttons true true true true))
      end
  end.

(** [drawCardForPlayer1()] *)
Definition drawCardForPlayer1 (w : World) : option World :=
  let g := gameState w in
  if player1HasDrawn g || negb (currentPlayerIndex g =? 0)%nat
     || isAnimating w
  then Some w
  else
    match takeFromDeck w with
    | None => None
    | Some None => Some w
    | Some (Some (card, w)) =>
        let g := gameState w in
        let w :=
          with_player1HandContainer
            (with_gameState w
               (with_player1Flags
                  (with_hand_0 g (push (hand (players_0 g)) card))
                  true false))
            (push (player1HandContainer w) card) in
        Some (updateButtonStates
                (with_flags (disableAllButtons w) (isDealingCards w) false))
    end.

(** [drawCardFromDiscardPile()] *)
Definition drawCardFromDiscardPile (w : World) : option World :=
  let g := gameState w in
  if player1HasDrawn g || negb (currentPlayerIndex g =? 0)%nat
     || isAnimating w
  then Some w
  else if (0 <? length (discardPileSprites w))%nat then
    let sprites := snd (pop (discardPileSprites w)) in
    match pop (discardPile g) with
    | (Some card, pile') =>
        let w :=
          with_player1HandContainer
            (with_discardPileSprites
               (with_gameState w
                  (with_player1Flags
                     (with_hand_0 (with_discardPile g pile')
                        (push (hand (players_0 g)) card))
                     true false))
               sprites)
            (push (player1HandContainer w) card) in
        Some (updateButtonStates
                (with_flags (disableAllButtons w) (isDealingCards w) false))
    | (None, _) => None
    end
  else Some w.

(** [discardCard(cardSprite)] of [GameController]: the sprite leaves the
    hand container and its card is pushed onto [gameState.discardPile];
    [gameState.players[0].hand] is not touched. *)
Definition discardCard (w : World) (cardSprite : Card) : World :=
  let g := gameState w in
  if negb (player1HasDrawn g) || player1HasDiscarded g
     || negb (currentPlayerIndex g =? 0)%nat || isAnimating w
  then w
  else
    let w :=
      with_discardPileSprites
        (with_player1HandContainer w
           (removeChild (player1HandContainer w) cardSprite))
        (push (discardPileSprites w) cardSprite) in
    let w :=
      with_gameState w
        (with_player1Flags
           (with_discardPile g (push (discardPile g) cardSprite))
           (player1HasDrawn g) true) in
    updateButtonStates
      (with_flags (disableAllButtons w) (isDealingCards w) false).

(** The synchronous part of the handler of the End Turn button. *)
Definition endTurnHandler (w : World) : World :=
  if (currentPlayerIndex (gameState w) =? 0)%nat
     && negb (isDealingCards w) && negb (isAnimating w)
  then
    let w := with_flags (disableAllButtons w) (isDealingCards w) true in
    with_gameState w
      (with_player1Flags (with_currentPlayerIndex (gameState w) 1)
         false false)
  else w.

(** A press of the End Turn button: the listener runs only while the
    button is interactive. *)
Definition pressEndTurn (w : World) : World :=
  if endTurnButton (buttons w) then endTurnHandler w else w.

(** [drawFromDeck()] of [Player2Controller] *)
Definition drawFromDeck (w : World) : option World :=
  if (deckContainer w <=? 0)%nat then Some w else
  match drawCard (deck w) with
  | (Returned (Some card), deck') =>
      let w := with_deck w deck' (deckContainer w - 1) in
      let g := gameState w in
      Some (with_player2HandContainer
              (with_gameState w
                 (with_hand_1 g (push (hand (players_1 g)) card)))
              (push (player2HandContainer w) card))
  | _ => None
  end.

(** [drawFromDiscardPile()] of [Player2Controller] *)
Definition drawFromDiscardPile (w : World) : option World :=
  if (length (discardPileSprites w) <=? 0)%nat then Some w else
  let sprites := snd (pop (discardPileSprites w)) in
  let g := gameState w in
  match pop (discardPile g) with
  | (Some card, pile') =>
      Some (with_player2HandContainer
              (with_discardPileSprites
                 (with_gameState w
                    (with_hand_1 (with_discardPile g pile')
                       (push (hand (players_1 g)) card)))
                 sprites)
              (push (player2HandContainer w) card))
  | (None, _) => None
  end.

(** [discardCard()] of [Player2Controller]: the index chosen by
    [selectCardToDiscard] picks the sprite, the hand array is spliced at
    that index and the card of the sprite is pushed onto the pile. *)
Definition player2DiscardCard (w : World) : option World :=
  if (length (player2HandContainer w) <=? 0)%nat then Some w else
  let g := gameState w in
  let handCards := hand (players_1 g) in
  match selectCardToDiscard handCards with
  | None => None
  | Some (-1) => Some w
  | Some cardIndexToDiscard =>
      let i := Z.to_nat cardIndexToDiscard in
      if cardIndexToDiscard <? 0 then None else
      match nth_error (player2HandContainer w) i with
      | None => None
      | Some cardSprite =>
          Some (with_gameState
                  (with_discardPileSprites
                     (with_player2HandContainer w
                        (removeChild (player2HandContainer w) cardSprite))
                     (push (discardPileSprites w) cardSprite))
                  (with_discardPile (with_hand_1 g (splice1 i handCards))
                     (push (discardPile g) cardSprite)))
      end
  end.

(** The state a new [Game] starts from: a shuffled deck of the 52 cards,
    empty hands and pile.  The deck container holds one sprite per card
    and, added by [addDiscardPile], the discard-pile container. *)
Definition new_Game (random : nat -> nat) : World :=
  let cards := new_Deck random suits ranks in
  new_World
    (new_GameState [] (new_Player []) (new_Player []) 0 false false false false)
    cards false false (length cards + 1) [] [] []
    (new_Buttons true true true true).

(** The number the round invariant of the specification speaks of. *)
Definition totalCards (w : World) : nat :=
  (length (deck w) + length (discardPile (gameState w))
   + length (hand (players_0 (gameState w)))
   + length (hand (players_1 (gameState w))))%nat.

(* ------------------------------------------------------------------ *)
(** ** The vocabulary of the specification *)

(** The cards of a hand that belong to the suit with symbol [k]. *)
Definition ofSuit (k : Symbol) (c : Card) : bool :=
  Symbol_eqb (getSuitSymbol (suit c)) k.

Definition suitCards (k : Symbol) (hand : list Card) : list Card :=
  filter (ofSuit k) hand.

(** Sum of the rank values of some cards. *)
Definition sumValues (l : list Card) : Z :=
  fold_right (fun c acc => rankOrder (rank c) + acc) 0 l.

(** Per-suit total and per-suit count of a hand. *)
Definition suitSum (k : Symbol) (hand : list Card) : Z :=
  sumValues (suitCards k hand).

Definition countSuit (k : Symbol) (hand : list Card) : nat :=
  length (suitCards k hand).

Definition symbols : list Symbol :=
  [sym_heart; sym_diamond; sym_club; sym_spade].

(** Maximum over the suits of the per-suit totals, 0 for no card. *)
Definition maxOverSuits (hand : list Card) : Z :=
  fold_right (fun k acc => Z.max (suitSum k hand) acc) 0 symbols.

(** The knock rule for a hand below 25, in the words of the
    specification: a flat threshold of 26 before the third discard, a
    margin of 2 over the estimate up to the sixth, a margin of 1 after. *)
Definition knockByStage (own estimate : Z) (depth : nat) : bool :=
  if (depth <? 3)%nat then 26 <=? own
  else if (depth <? 6)%nat then estimate + 2 <=? own
  else estimate + 1 <=? own.

(** The estimate by game progress: 21 past three discards, else 19. *)
Definition estimateByProgress (depth : nat) : Z :=
  if (3 <? depth)%nat then 21 else 19.

(** The position [i] holds a card outside the suit [S] whose rank value
    is lowest among the cards outside [S]. *)
Definition lowestOffSuit (hand : list Card) (S : Symbol) (i : nat) : Prop :=
  exists c,
    nth_error hand i = Some c /\ ofSuit S c = false
    /\ forall j c', nth_error hand j = Some c' -> ofSuit S c' = false ->
                    rankOrder (rank c) <= rankOrder (rank c').

(** [S] is a highest-scoring suit among those with three or more cards. *)
Definition strongestOfThree (hand : list Card) (S : Symbol) : Prop :=
  (3 <= countSuit S hand)%nat
  /\ forall k, (3 <= countSuit k hand)%nat -> suitSum k hand <= suitSum S hand.

(** Shorthand for a card of the unshuffled deck. *)
Definition card (s : Suit) (r : Rank) : Card :=
  new_Card (getSuitSymbol s) s r 0 false.

(** ** Invariants and concrete states used in the proofs *)

(** What the accumulator holds for the processed cards [seen]. *)
Definition pointsFor (seen : list Card) (acc : Obj Z) : Prop :=
  NoDup (Object_keys acc)
  /\ forall k, obj_get k acc
               = if existsb (ofSuit k) seen then Some (suitSum k seen)
                 else None.

(** A position in which player 2 holds ace, king and nine of spades. *)
Definition strongHandState : GameState :=
  new_GameState [card hearts r2]
    (new_Player [card diamonds r3; card diamonds r4; card flowers r5])
    (new_Player [card spades rA; card spades rK; card spades r9])
    1 false false false false.

(** The cards of player 1 that [shouldKnock] counts as visible. *)
Definition visibleCards (gs : GameState) : list Card :=
  filter visible (hand (players_0 gs)).

(** Player 1 after two turns: the three dealt cards are visible, the two
    cards drawn since are not; six cards lie on the discard pile. *)
Definition partlyVisibleState : GameState :=
  new_GameState
    [card hearts r3; card hearts r4; card hearts r5; card hearts r6;
     card hearts r7; card hearts r8]
    (new_Player
       [makeVisible (card hearts r2); makeVisible (card diamonds r3);
        makeVisible (card flowers r4); card hearts rK; card hearts rQ])
    (new_Player [card spades r10; card spades r9; card diamonds r5])
    1 false false false false.

(** The items (card, index) of a suit. *)
Definition suitItems (k : Symbol) (items : list (Card * nat))
  : list (Card * nat) :=
  filter (fun item => ofSuit k (fst item)) items.

(** What [suitGroups] holds once the items [seen] have been filed. *)
Definition groupsFor (seen : list (Card * nat)) (G : Obj Group) : Prop :=
  NoDup (Object_keys G)
  /\ forall k,
      match obj_get k G with
      | Some g =>
          cards g = map fst (suitItems k seen)
          /\ indices g = map snd (suitItems k seen)
          /\ totalValue g = sumValues (cards g)
          /\ suitItems k seen <> []
      | None => suitItems k seen = []
      end.

(** [r] is the index of a card of [hand]. *)
Definition validIndex (hand : list Card) (r : option Z) : Prop :=
  exists i, r = Some (Z.of_nat i) /\ (i < length hand)%nat.

(** The running pair of step 2 holds -1 or a position of the hand. *)
Definition lowestSoFar (hand : list Card) (st : jsnum * option Z) : Prop :=
  snd st = Some (-1) \/ validIndex hand (snd st).

(** Position [i] holds the first card of lowest rank value among the
    cards outside the suit [S]. *)
Definition firstLowestOffSuit (hand : list Card) (S : Symbol) (i : nat)
  : Prop :=
  lowestOffSuit hand S i
  /\ forall c j c',
      nth_error hand i = Some c -> nth_error hand j = Some c' ->
      ofSuit S c' = false -> (j < i)%nat ->
      rankOrder (rank c) < rankOrder (rank c').

(** The claim as the specification states it: whenever some suit has three
    or more cards, the answer is the position of a lowest card outside the
    highest-scoring such suit. *)
Definition discardsLowestOffSuit (hand : list Card) : Prop :=
  (exists k, (3 <= countSuit k hand)%nat) ->
  exists S i,
    strongestOfThree hand S
    /\ selectCardToDiscard hand = Some (Z.of_nat i)
    /\ lowestOffSuit hand S i.

(** The shuffle that leaves the deck in the order it was built. *)
Definition unshuffled (i : nat) : nat := i.

(** The state after the deal of the unshuffled deck. *)
Definition afterDeal : World :=
  match startGame (new_Game unshuffled) with
  | Some w => w
  | None => new_Game unshuffled
  end.

(** After [afterDeal], player 1 has drawn from the deck. *)
Definition afterDraw : World :=
  match drawCardForPlayer1 afterDeal with
  | Some w => w
  | None => afterDeal
  end.

(** After [afterDraw], player 1 has discarded the king of spades. *)
Definition afterDiscard : World :=
  discardCard afterDraw (makeVisible (new_Card sym_spade spades rK 12 false)).

(** The claim as the specification states it: without a completed draw and
    discard, a press of End Turn does not change the active player. *)
Definition endTurnNeedsDrawAndDiscard (w : World) : Prop :=
  player1HasDrawn (gameState w) && player1HasDiscarded (gameState w) = false ->
  currentPlayerIndex (gameState (pressEndTurn w))
  = currentPlayerIndex (gameState w).

(* ------------------------------------------------------------------ *)
(** ** ai/AIPlayer.js: the draw decision *)

(** The values an expression [x && y] of the draw decision can have. *)
Inductive JsValue : Type :=
| js_undefined
| js_number (n : Z)
| js_boolean (b : bool).

(** The truth value a condition takes from a value. *)
Definition truthy (v : JsValue) : bool :=
  match v with
  | js_undefined => false
  | js_number n => negb (n =? 0)
  | js_boolean b => b
  end.

(** [x || 0] for a number-or-undefined [x]. *)
Definition orZero (x : option Z) : Z :=
  match x with
  | Some n => n
  | None => 0
  end.

(** [x >= k], [x === k] and [x < k] for a number-or-undefined [x]: every
    comparison with [undefined] is false. *)
Definition numGe (x : option Z) (k : Z) : bool :=
  match x with Some n => k <=? n | None => false end.

Definition numEq (x : option Z) (k : Z) : bool :=
  match x with Some n => n =? k | None => false end.

Definition numLt (x : option Z) (k : Z) : bool :=
  match x with Some n => n <? k | None => false end.

(** The callback that counts the cards per suit:
    [counts[symbol] = (counts[symbol] || 0) + 1]. *)
Definition addCount (counts : Obj Z) (card : Card) : Obj Z :=
  let symbol := getSuitSymbol (suit card) in
  obj_set symbol (orZero (obj_get symbol counts) + 1) counts.

(** The object [suitCounts] of a hand. *)
Definition suitCounts (hand : list Card) : Obj Z :=
  fold_left addCount hand [].

(** Comparator [(a, b) => b[1] - a[1]] on the entries of [pointsBySuit]. *)
Definition byPointsDescending (a b : Symbol * Z) : Z := snd b - snd a.

(** Comparator [(a, b) => rankOrder[a.rank] - rankOrder[b.rank]]. *)
Definition byRank (a b : Card) : Z := rankOrder (rank a) - rankOrder (rank b).

(** The callback that groups the cards of [findWeakestCard] by suit. *)
Definition addToSuit (groups : Obj (list Card)) (card : Card)
  : Obj (list Card) :=
  let suitSymbol := getSuitSymbol (suit card) in
  let groups :=
    match obj_get suitSymbol groups with
    | None => obj_set suitSymbol [] groups
    | Some _ => groups
    end in
  match obj_get suitSymbol groups with
  | Some cs => obj_set suitSymbol (push cs card) groups
  | None => groups
  end.

(** [cards.reduce((sum, card) => sum + rankOrder[card.rank], 0)] *)
Definition sumOfRanks (cs : list Card) : Z :=
  fold_left (fun sum card => sum + rankOrder (rank card)) cs 0.

(** The object [pointsBySuit] that [findWeakestCard] fills from the
    entries of [cardsBySuit]. *)
Definition pointsOfGroups (cardsBySuit : Obj (list Card)) : Obj Z :=
  fold_left (fun pointsBySuit e => obj_set (fst e) (sumOfRanks (snd e)) pointsBySuit)
            (Object_entries cardsBySuit) [].

(** Comparator of [findWeakestCard]: fewest cards first, then fewest
    points.  [pointsBySuit] has an entry for every key compared. *)
Definition byCountThenPoints (pointsBySuit : Obj Z)
  (a b : Symbol * list Card) : Z :=
  if negb (length (snd a) =? length (snd b))%nat
  then Z.of_nat (length (snd a)) - Z.of_nat (length (snd b))
  else orZero (obj_get (fst a) pointsBySuit)
       - orZero (obj_get (fst b) pointsBySuit).

(** [findWeakestCard(hand)]; [None] where the source reads a property of
    [undefined] or returns [undefined]. *)
Definition findWeakestCard (hand : list Card) : option Card :=
  let cardsBySuit := fold_left addToSuit hand [] in
  let pointsBySuit := pointsOfGroups cardsBySuit in
  match js_sort (byCountThenPoints pointsBySuit)
                (Object_entries cardsBySuit) with
  | [] => None
  | (weakestSuit, _) :: _ =>
      match obj_get weakestSuit cardsBySuit with
      | None => None
      | Some cs =>
          match js_sort byRank cs with
          | [] => None
          | c :: _ => Some c
          end
      end
  end.

(** [isCardBetterThanWeakest(newCard, weakestCard, hand)]; [None] for the
    empty hand, where [sort(...)[0][0]] throws. *)
Definition isCardBetterThanWeakest (newCard weakestCard : Card)
  (hand : list Card) : option bool :=
  let newCardSuit := getSuitSymbol (suit newCard) in
  let weakCardSuit := getSuitSymbol (suit weakestCard) in
  let newCardValue := rankOrder (rank newCard) in
  let weakCardValue := rankOrder (rank weakestCard) in
  let pointsBySuit := calculatePointsBySuit hand in
  match js_sort byPointsDescending (Object_entries pointsBySuit) with
  | [] => None
  | (strongestSuit, _) :: _ =>
      if Symbol_eqb newCardSuit strongestSuit
         && negb (Symbol_eqb weakCardSuit strongestSuit) then Some true
      else if (10 <=? newCardValue) && (weakCardValue <? 10) then Some true
      else
        let suitCounts := suitCounts hand in
        if negb (falsy (obj_get newCardSuit suitCounts))
           && numGe (obj_get newCardSuit suitCounts) 2
           && numEq (obj_get weakCardSuit suitCounts) 1 then Some true
        else if Symbol_eqb newCardSuit weakCardSuit
                && (weakCardValue <? newCardValue) then Some true
        else if numLt (obj_get weakCardSuit pointsBySuit) 15
                && (8 <=? newCardValue) then Some true
        else Some false
  end.

(** [shouldDrawFromDiscardPile(topDiscardCard)]; [None] where the source
    would throw.  The top card is [None] for [null]. *)
Definition shouldDrawFromDiscardPile (gameState : GameState)
  (topDiscardCard : option Card) : option JsValue :=
  match topDiscardCard with
  | None => Some (js_boolean false)
  | Some top =>
      let hand2 := hand (players_1 gameState) in
      if (length hand2 =? 0)%nat then Some (js_boolean true) else
      let pointsBySuit := calculatePointsBySuit hand2 in
      match js_sort byPointsDescending (Object_entries pointsBySuit) with
      | [] => None
      | currentBestSuit :: _ =>
          let discardCardSuit := getSuitSymbol (suit top) in
          let discardCardValue := rankOrder (rank top) in
          if Symbol_eqb discardCardSuit (fst currentBestSuit)
          then Some (js_boolean true)
          else if (10 <=? discardCardValue)
                  && (falsy (obj_get discardCardSuit (suitCounts hand2))
                      || numLt (obj_get discardCardSuit (suitCounts hand2)) 2)
          then Some (js_boolean true)
          else if 25 <=? snd currentBestSuit
          then Some (js_boolean
                       (Symbol_eqb discardCardSuit (fst currentBestSuit)
                        && (8 <=? discardCardValue)))
          else if (4 <=? length hand2)%nat
          then
            match findWeakestCard hand2 with
            | None => None
            | Some weakestCard =>
                option_map js_boolean
                  (isCardBetterThanWeakest top weakestCard hand2)
            end
          else if (7 <=? discardCardValue) && (discardCardValue <=? 9)
          then
            match obj_get discardCardSuit (suitCounts hand2) with
            | None => Some js_undefined
            | Some n => if n =? 0 then Some (js_number n)
                        else Some (js_boolean (0 <? n))
            end
          else Some (js_boolean (10 <=? discardCardValue))
      end
  end.

(* ------------------------------------------------------------------ *)
(** ** ai/Player2Controller.js and the handlers of game/Game.js

    The round adds to [World] what these handlers read and write besides:
    [gameState.knockedPlayer], the guard [isProcessingTurn] of the
    controller, and whether the timer set by the End Turn handler is
    still to fire.  The point totals on display are not part of the
    model. *)

Record Round : Type := new_Round {
  world : World;
  knockedPlayer : option nat;
  isProcessingTurn : bool;
  turnTimer : bool
}.

Definition with_world (r : Round) (w : World) : Round :=
  new_Round w (knockedPlayer r) (isProcessingTurn r) (turnTimer r).

(** [drawCard()] of [Player2Controller]: the top of the pile is shown to
    [shouldDrawFromDiscardPile], the card comes from the pile when the
    answer is truthy and the pile container has a child, else from the
    deck. *)
Definition player2DrawCard (w : World) : option World :=
  let g := gameState w in
  let topDiscardCard :=
    if (0 <? length (discardPile g))%nat
    then nth_error (discardPile g) (length (discardPile g) - 1)
    else None in
  match shouldDrawFromDiscardPile g topDiscardCard with
  | None => None
  | Some drawFromDiscard =>
      match (if truthy drawFromDiscard
                && (0 <? length (discardPileSprites w))%nat
             then drawFromDiscardPile w
             else drawFromDeck w) with
      | None => None
      | Some w =>
          Some (with_gameState w (with_player2Flags (gameState w) true false))
      end
  end.

(** [knockAction()] with the knock listener of [Game]: player 2 is
    recorded as the knocker and the four buttons are switched off. *)
Definition knockAction (r : Round) : Round :=
  new_Round (with_buttons (world r) (new_Buttons false false false false))
    (Some 1%nat) (isProcessingTurn r) (turnTimer r).

(** The end of [performTurn()] after the discard: the flags of player 2,
    the turn back to player 1 and the buttons. *)
Definition finishTurn (w : World) : World :=
  let w :=
    with_gameState w
      (with_currentPlayerIndex
         (with_player2Flags (gameState w) false true) 0) in
  updateEndTurnButtonState
    (updateKnockButtonState
       (with_buttons w (new_Buttons true true false false))).

(** [performTurn()] *)
Definition performTurn (r : Round) : option Round :=
  if isProcessingTurn r then Some r else
  let w := world r in
  if (length (hand (players_1 (gameState w))) =? 3)%nat
     && shouldKnock (gameState w)
  then Some (knockAction r)
  else
    match player2DrawCard w with
    | None => None
    | Some w =>
        if shouldKnock (gameState w) then Some (knockAction (with_world r w))
        else
          match player2DiscardCard w with
          | None => None
          | Some w => Some (with_world r (finishTurn w))
          end
    end.

(** Whether a press of End Turn is accepted. *)
Definition endTurnAccepted (w : World) : bool :=
  endTurnButton (buttons w)
  && ((currentPlayerIndex (gameState w) =? 0)%nat
      && negb (isDealingCards w) && negb (isAnimating w)).

(** A press of End Turn in a round: an accepted press starts the timer. *)
Definition roundPressEndTurn (r : Round) : Round :=
  new_Round (pressEndTurn (world r)) (knockedPlayer r) (isProcessingTurn r)
    (turnTimer r || endTurnAccepted (world r)).

(** The timer of the End Turn handler fires: [isAnimating = false] and
    [performTurn()]. *)
Definition timerFires (r : Round) : option Round :=
  performTurn
    (new_Round (with_flags (world r) (isDealingCards (world r)) false)
       (knockedPlayer r) (isProcessingTurn r) false).

(** A press of the Knock button: the listener runs while the button is
    interactive and no deal or animation is under way; player 1 is
    recorded as the knocker and the buttons are switched off. *)
Definition pressKnock (r : Round) : Round :=
  let w := world r in
  if knockButton (buttons w) && negb (isDealingCards w)
     && negb (isAnimating w)
  then
    new_Round (with_flags (disableAllButtons w) (isDealingCards w) false)
      (Some 0%nat) (isProcessingTurn r) (turnTimer r)
  else r.

(** Presses of the two draw buttons: the listeners run only while the
    buttons are interactive. *)
Definition pressDrawCard (w : World) : option World :=
  if drawCardActionButton (buttons w) then drawCardForPlayer1 w else Some w.

Definition pressDrawFromPile (w : World) : option World :=
  if drawFromPileButton (buttons w) then drawCardFromDiscardPile w else Some w.

(** [snapCardToPosition(cardSprite, handContainer)] for a sprite of the
    container, at the end of a drag: [cardIndex] is
    [Math.round(cardSprite.position.x / 60)]; [addChildAt] takes the
    sprite out of the container and puts it back at the clamped index. *)
Definition snapCardToPosition (children : list Card) (cardSprite : Card)
  (cardIndex : Z) : list Card :=
  let clampedIndex :=
    Z.max 0 (Z.min (Z.of_nat (length children) - 1) cardIndex) in
  let others := removeChild children cardSprite in
  firstn (Z.to_nat clampedIndex) others
  ++ cardSprite :: skipn (Z.to_nat clampedIndex) others.

(** What can happen in a round: a press of one of the four buttons, a
    right click on a card of the hand on display, the timer of the End
    Turn handler.  The sprites of the hand of player 1 are the only
    interactive ones: [makeCardMovable] switches a sprite on when it
    reaches that hand, [addCardToDiscardPile] switches it off when it is
    discarded. *)
Inductive step : Round -> Round -> Prop :=
| step_drawCard r w :
    pressDrawCard (world r) = Some w -> step r (with_world r w)
| step_drawFromPile r w :
    pressDrawFromPile (world r) = Some w -> step r (with_world r w)
| step_discard r cardSprite :
    In cardSprite (player1HandContainer (world r)) ->
    step r (with_world r (discardCard (world r) cardSprite))
| step_endTurn r : step r (roundPressEndTurn r)
| step_timer r r' :
    turnTimer r = true -> timerFires r = Some r' -> step r r'
| step_knock r : step r (pressKnock r).

(** The rounds that play can reach from the deal of a new game: by the
    steps above and by drags that move a card of the hand on display to
    another place in that hand. *)
Inductive reachable : Round -> Prop :=
| reachable_deal random w :
    startGame (new_Game random) = Some w ->
    reachable (new_Round w None false false)
| reachable_step r r' : reachable r -> step r r' -> reachable r'
| reachable_drag r cardSprite cardIndex :
    reachable r ->
    In cardSprite (player1HandContainer (world r)) ->
    reachable
      (with_world r
         (with_player1HandContainer (world r)
            (snapCardToPosition (player1HandContainer (world r)) cardSprite
               cardIndex))).

(** The face of a card: what identifies it in the deck. *)
Definition face (c : Card) : Suit * Rank := (suit c, rank c).

(** The cards on display: deck, discard pile and the two hands. *)
Definition onDisplay (w : World) : list Card :=
  deck w ++ discardPile (gameState w) ++ player1HandContainer w
  ++ hand (players_1 (gameState w)).

(** The 52 faces, suit by suit. *)
Definition allFaces : list (Suit * Rank) :=
  flat_map (fun s => map (fun r => (s, r)) ranks) suits.

(** What holds of every round that play can reach (see
    [reachable_invariant]). *)
Record Inv (r : Round) : Prop := new_Inv {
  inv_cards :
    Permutation (map face (onDisplay (world r))) allFaces;
  inv_pile :
    discardPileSprites (world r) = discardPile (gameState (world r));
  inv_hand2 :
    player2HandContainer (world r)
    = hand (players_1 (gameState (world r)));
  inv_deck :
    deckContainer (world r) = (length (deck (world r)) + 1)%nat;
  inv_three :
    length (hand (players_1 (gameState (world r)))) = 3%nat;
  inv_phase :
    length (player1HandContainer (world r))
    = if player1HasDrawn (gameState (world r))
         && negb (player1HasDiscarded (gameState (world r)))
      then 4%nat else 3%nat;
  inv_held :
    incl (player1HandContainer (world r))
         (hand (players_0 (gameState (world r))));
  inv_visible :
    (3 <= length (visibleCards (gameState (world r))))%nat;
  inv_dealing : isDealingCards (world r) = false;
  inv_processing : isProcessingTurn r = false;
  inv_timer : isAnimating (world r) = turnTimer r;
  inv_timer_turn :
    turnTimer r = true ->
    currentPlayerIndex (gameState (world r)) = 1%nat
    /\ knockedPlayer r = None;
  inv_index : (currentPlayerIndex (gameState (world r)) <= 1)%nat;
  inv_waiting :
    currentPlayerIndex (gameState (world r)) = 1%nat ->
    player1HasDrawn (gameState (world r)) = false
    /\ player1HasDiscarded (gameState (world r)) = false;
  inv_locked :
    currentPlayerIndex (gameState (world r)) = 1%nat ->
    buttons (world r) = new_Buttons false false false false;
  inv_enabled :
    currentPlayerIndex (gameState (world r)) = 0%nat ->
    knockedPlayer r = None ->
    (player1HasDrawn (gameState (world r)) = false ->
     drawCardActionButton (buttons (world r)) = true
     /\ drawFromPileButton (buttons (world r)) = true)
    /\ (length (player1HandContainer (world r)) = 3%nat ->
        knockButton (buttons (world r)) = true
        /\ endTurnButton (buttons (world r)) = true);
  inv_endTurnButton :
    endTurnButton (buttons (world r)) = true ->
    length (player1HandContainer (world r)) = 3%nat;
  inv_knockButton :
    knockButton (buttons (world r)) = true ->
    length (player1HandContainer (world r)) = 3%nat;
  inv_knocked :
    knockedPlayer r <> None ->
    buttons (world r) = new_Buttons false false false false
    /\ turnTimer r = false
    /\ (currentPlayerIndex (gameState (world r)) = 1%nat
        \/ length (player1HandContainer (world r)) = 3%nat)
}.

(** ** What the objects of the draw decision hold *)

(** What [suitCounts] holds once the cards [seen] have been counted. *)
Definition countsFor (seen : list Card) (counts : Obj Z) : Prop :=
  NoDup (Object_keys counts)
  /\ forall k, obj_get k counts
               = if existsb (ofSuit k) seen
                 then Some (Z.of_nat (countSuit k seen))
                 else None.

(** What [cardsBySuit] holds once the cards [seen] have been filed. *)
Definition suitsFor (seen : list Card) (groups : Obj (list Card)) : Prop :=
  NoDup (Object_keys groups)
  /\ forall k, obj_get k groups
               = if existsb (ofSuit k) seen then Some (suitCards k seen)
                 else None.

(** [Object.entries(pointsBySuit).sort((a, b) => b[1] - a[1])[0]] of the
    draw decision. *)
Definition currentBestSuit (hand : list Card) : option (Symbol * Z) :=
  hd_error (js_sort byPointsDescending
              (Object_entries (calculatePointsBySuit hand))).

(** The draw decision on a hand of fewer than four cards, from the
    per-suit counts and totals of the hand. *)
Definition drawsFromPile (best : Symbol) (hand : list Card) (top : Card)
  : bool :=
  let s := getSuitSymbol (suit top) in
  let x := rankOrder (rank top) in
  Symbol_eqb s best
  || ((10 <=? x)
      && ((countSuit s hand <? 2)%nat || (maxOverSuits hand <? 25)))
  || ((maxOverSuits hand <? 25) && (7 <=? x) && (x <=? 9)
      && (0 <? countSuit s hand)%nat).

(** ** What [selectCardToDiscard] answers *)

(** [r] is the position of a card that no card of the same suit in the
    hand undercuts. *)
Definition lowestOfItsSuit (hand : list Card) (r : option Z) : Prop :=
  exists i c,
    r = Some (Z.of_nat i)
    /\ nth_error hand i = Some c
    /\ forall c', In c' hand ->
                  getSuitSymbol (suit c') = getSuitSymbol (suit c) ->
                  rankOrder (rank c) <= rankOrder (rank c').

(** The running pair of step 2 once the cards [done] have been looked
    at: still the initial pair, or the value and the position in the hand
    of a lowest card among them. *)
Definition lowestAmong (hand done : list Card) (st : jsnum * option Z)
  : Prop :=
  (st = (Infinity, Some (-1)) /\ done = [])
  \/ exists i c,
      st = (Num (rankOrder (rank c)), Some (Z.of_nat i))
      /\ nth_error hand i = Some c
      /\ In c done
      /\ forall c', In c' done -> rankOrder (rank c) <= rankOrder (rank c').

(** ** game/Game.js: the winner *)




(** ** Rounds of two games, used to instantiate the theorems

    The first game is dealt from the unshuffled deck: player 1 draws,
    discards the king of spades and ends the turn; player 2, dealt queen,
    ten and eight of spades, knocks.  The second game is dealt from a
    deck shuffled by [mixed]: player 1 ends the turn at once and player 2
    draws and discards. *)

Definition dealtRound : Round := new_Round afterDeal None false false.
Definition drawnRound : Round := with_world dealtRound afterDraw.
Definition discardedRound : Round := with_world drawnRound afterDiscard.
Definition endedRound : Round := roundPressEndTurn discardedRound.
Definition knockedRound : Round :=
  match timerFires endedRound with
  | Some r => r
  | None => endedRound
  end.



(** The state of [afterDeal] with the last card gone from the deck: the
    deck container is left with the discard-pile container. *)
Definition emptyDeckWorld : World := with_deck afterDeal [] 1.

(* ------------------------------------------------------------------ *)
(** ** Tactics for the rounds of play

    [flatten] computes the record updates of a handler down to one
    record, [projs] reads the fields of such a record, [perm] shows two
    concatenations of the same lists to be permutations of each other,
    [inv_fields] splits [Inv] of an updated round into its fields and
    closes those that follow from the fields of the round before. *)

Ltac perm :=
  rewrite <- ?app_assoc; cbn [app];
  repeat rewrite <- Permutation_middle; rewrite ?app_nil_r; reflexivity.

Ltac flatten1 :=
  cbv [push with_world with_gameState with_deck with_flags
       with_discardPileSprites
       with_player1HandContainer with_player2HandContainer with_buttons
       with_discardPile with_hand_0 with_hand_1 with_currentPlayerIndex
       with_player1Flags with_player2Flags disableAllButtons
       updateKnockButtonState updateEndTurnButtonState updateButtonStates
       finishTurn knockAction
       world knockedPlayer isProcessingTurn turnTimer
       gameState deck isDealingCards isAnimating deckContainer
       discardPileSprites player1HandContainer player2HandContainer buttons
       discardPile players_0 players_1 currentPlayerIndex player1HasDrawn
       player1HasDiscarded player2HasDrawn player2HasDiscarded hand
       drawCardActionButton drawFromPileButton knockButton endTurnButton
       negb andb orb];
  change (0 =? 0)%nat with true; change (1 =? 0)%nat with false;
  cbv beta iota.

Ltac flatten := flatten1; flatten1.

Ltac projs :=
  unfold onDisplay, visibleCards;
  cbn [world knockedPlayer isProcessingTurn turnTimer
       gameState deck isDealingCards isAnimating deckContainer
       discardPileSprites player1HandContainer player2HandContainer buttons
       discardPile players_0 players_1 currentPlayerIndex player1HasDrawn
       player1HasDiscarded player2HasDrawn player2HasDiscarded hand
       drawCardActionButton drawFromPileButton knockButton endTurnButton
       negb andb orb].

Ltac open_round r :=
  let w := fresh "w" in let g := fresh "g" in let b := fresh "b" in
  destruct r as [w ? ? ?]; destruct w as [g ? ? ? ? ? ? ? b];
  destruct g as [? [?] [?] ? ? ? ? ?]; destruct b as [? ? ? ?].

Ltac open_inv HI :=
  destruct HI; unfold onDisplay, visibleCards in *;
  cbn [world knockedPlayer isProcessingTurn turnTimer
       gameState deck isDealingCards isAnimating deckContainer
       discardPileSprites player1HandContainer player2HandContainer buttons
       discardPile players_0 players_1 currentPlayerIndex player1HasDrawn
       player1HasDiscarded player2HasDrawn player2HasDiscarded hand
       drawCardActionButton drawFromPileButton knockButton endTurnButton]
    in *.

Ltac eqb_cases :=
  repeat match goal with
         | |- context [(?a =? ?b)%nat] => destruct (Nat.eqb_spec a b)
         end.

Ltac knocked_out :=
  match goal with
  | H : ?k <> None -> _ |- ?k <> None -> _ =>
      let Hk := fresh in
      intros Hk; destruct (H Hk) as (? & ? & ?);
      first [ discriminate | congruence | (repeat split; auto; lia) ]
  end.

Ltac inv_field :=
  first
    [ assumption
    | lia
    | solve [intros; discriminate]
    | solve [eapply perm_trans; [|eassumption]; apply Permutation_map; perm]
    | solve [apply incl_app_app; [assumption | apply incl_refl]]
    | solve [match goal with
             | H : incl _ ?h |- incl _ ?h =>
                 let x := fresh in let Hx := fresh in
                 intros x Hx; apply H; apply in_app_or in Hx;
                 apply in_or_app; simpl; tauto
             end]
    | solve [rewrite filter_app, length_app; lia]
    | solve [eqb_cases; intros; first [discriminate | lia | assumption]]
    | knocked_out
    | solve [auto] ].

Ltac inv_fields :=
  flatten; constructor; projs;
  rewrite ?length_app in *; cbn [length andb orb negb] in *;
  try inv_field.

Ltac inv_same := constructor; projs; solve [assumption | auto].

(* ------------------------------------------------------------------ *)
(** * Properties *)

(** ** Sorting *)

Section SortFacts.
Context {A : Type}.
Variable cmp : A -> A -> Z.

Lemma insert_perm (x : A) (l : list A) :
  Permutation (insert cmp x l) (x :: l).
Proof.
  induction l as [|y l IH]; simpl.
  - apply Permutation_refl.
  - destruct (0 <? cmp x y).
    + eapply perm_trans; [apply perm_skip, IH | apply perm_swap].
    + apply Permutation_refl.
Qed.

Lemma js_sort_perm (l : list A) : Permutation (js_sort cmp l) l.
Proof.
  induction l as [|x l IH]; simpl.
  - apply perm_nil.
  - eapply perm_trans; [apply insert_perm | apply perm_skip, IH].
Qed.

Lemma js_sort_In (l : list A) (x : A) : In x (js_sort cmp l) <-> In x l.
Proof.
  split; apply Permutation_in;
    [apply js_sort_perm | apply Permutation_sym, js_sort_perm].
Qed.

Lemma js_sort_length (l : list A) : length (js_sort cmp l) = length l.
Proof. apply Permutation_length, js_sort_perm. Qed.

Lemma js_sort_nonempty (l : list A) : l <> [] -> js_sort cmp l <> [].
Proof.
  intros Hl Hs. apply Hl, length_zero_iff_nil.
  rewrite <- js_sort_length, Hs. reflexivity.
Qed.

(** When the comparator is the difference of an integer key, the first
    element of the sorted array is the first element of least key. *)
Variable key : A -> Z.
Hypothesis cmp_key : forall a b, cmp a b = key a - key b.

Lemma js_sort_head (l : list A) (h : A) (t : list A) :
  js_sort cmp l = h :: t ->
  exists l1 l2,
    l = l1 ++ h :: l2
    /\ Forall (fun y => key h < key y) l1
    /\ Forall (fun y => key h <= key y) l2.
Proof.
  revert h t. induction l as [|x l IH]; intros h t Hs; [discriminate|].
  simpl in Hs. destruct (js_sort cmp l) as [|h' t'] eqn:Hl.
  - simpl in Hs. injection Hs as <- <-.
    assert (l = []) as ->.
    { apply length_zero_iff_nil. rewrite <- (js_sort_length l), Hl.
      reflexivity. }
    exists [], []. repeat split; constructor.
  - destruct (IH h' t' eq_refl) as (l1 & l2 & -> & H1 & H2).
    simpl in Hs. rewrite cmp_key in Hs.
    destruct (0 <? key x - key h') eqn:Hc.
    + injection Hs as <- <-. apply Z.ltb_lt in Hc.
      exists (x :: l1), l2. repeat split; [constructor; [lia|assumption]|assumption].
    + injection Hs as <- <-. apply Z.ltb_ge in Hc.
      exists [], (l1 ++ h' :: l2). repeat split; [constructor|].
      apply Forall_app. split.
      * eapply Forall_impl; [|exact H1]. simpl. intros; lia.
      * constructor; [lia|]. eapply Forall_impl; [|exact H2].
        simpl. intros; lia.
Qed.
End SortFacts.

(** ** Arrays with indices *)

Section ArrayFacts.
Context {A : Type}.

Lemma indexed_from_nth (l : list A) (n : nat) (x : A) (i : nat) :
  In (x, i) (indexed_from n l) <->
  (n <= i)%nat /\ nth_error l (i - n) = Some x.
Proof.
  revert n. induction l as [|y l IH]; intros n; simpl.
  - split; [tauto|]. intros [_ H]. destruct (i - n)%nat; discriminate.
  - rewrite IH. split.
    + intros [H|[H1 H2]].
      * injection H as -> ->. split; [lia|]. now rewrite Nat.sub_diag.
      * split; [lia|]. replace (i - n)%nat with (S (i - S n)) by lia.
        exact H2.
    + intros [H1 H2]. destruct (i - n)%nat as [|k] eqn:Hk.
      * left. simpl in H2. injection H2 as ->. f_equal. lia.
      * right. split; [lia|]. simpl in H2.
        replace (i - S n)%nat with k by lia. exact H2.
Qed.

Lemma indexed_nth (l : list A) (x : A) (i : nat) :
  In (x, i) (indexed l) <-> nth_error l i = Some x.
Proof.
  unfold indexed. rewrite indexed_from_nth, Nat.sub_0_r.
  split; [tauto|]. intros H; split; [lia|exact H].
Qed.

Lemma indexed_from_length (l : list A) (n : nat) :
  length (indexed_from n l) = length l.
Proof. revert n; induction l; intros; simpl; auto. Qed.

Lemma indexed_from_app (l1 l2 : list A) (n : nat) :
  indexed_from n (l1 ++ l2)
  = indexed_from n l1 ++ indexed_from (n + length l1) l2.
Proof.
  revert n. induction l1 as [|x l1 IH]; intros n; simpl.
  - now rewrite Nat.add_0_r.
  - rewrite IH. do 3 f_equal. lia.
Qed.

Lemma indexed_from_map_fst (l : list A) (n : nat) :
  map fst (indexed_from n l) = l.
Proof. revert n; induction l; intros; simpl; [|rewrite IHl]; auto. Qed.

Lemma indexed_from_sorted (l : list A) (n : nat) :
  StronglySorted (fun a b : A * nat => (snd a < snd b)%nat)
                 (indexed_from n l).
Proof.
  revert n. induction l as [|x l IH]; intros n; simpl; constructor.
  - apply IH.
  - apply Forall_forall. intros [y i] Hy.
    apply indexed_from_nth in Hy. simpl. lia.
Qed.

Lemma nth_error_lt (l : list A) (i : nat) (x : A) :
  nth_error l i = Some x -> (i < length l)%nat.
Proof. intros H. apply nth_error_Some. congruence. Qed.

Lemma pop_app (l : list A) (x : A) : pop (l ++ [x]) = (Some x, l).
Proof. unfold pop. rewrite rev_app_distr. simpl. now rewrite rev_involutive. Qed.

Lemma pop_nonempty (l : list A) :
  l <> [] ->
  exists x l', pop l = (Some x, l') /\ length l = S (length l').
Proof.
  intros Hl. destruct (exists_last Hl) as (l' & x & ->).
  exists x, l'. rewrite pop_app, length_app. simpl. split; [reflexivity|lia].
Qed.

Lemma set_nth_length (i : nat) (x : A) (l : list A) :
  length (set_nth i x l) = length l.
Proof.
  revert i. induction l as [|y l IH]; intros [|i]; simpl; auto.
Qed.
End ArrayFacts.

Lemma StronglySorted_filter {A : Type} (R : A -> A -> Prop) (f : A -> bool)
  (l : list A) :
  StronglySorted R l -> StronglySorted R (filter f l).
Proof.
  induction 1 as [|x l Hs IH Hx]; simpl; [constructor|].
  destruct (f x); [|exact IH]. constructor; [exact IH|].
  apply Forall_forall. intros y Hy. apply filter_In in Hy.
  rewrite Forall_forall in Hx. apply Hx, Hy.
Qed.

Lemma StronglySorted_after {A : Type} (R : A -> A -> Prop) (l1 l2 : list A)
  (x : A) :
  StronglySorted R (l1 ++ x :: l2) -> Forall (R x) l2.
Proof.
  induction l1 as [|y l1 IH]; simpl; intros H; inversion H; subst; auto.
Qed.

(** ** Objects *)

Lemma Symbol_eqb_eq (a b : Symbol) : Symbol_eqb a b = true <-> a = b.
Proof. destruct a, b; simpl; split; intros H; congruence. Qed.

Lemma Symbol_eqb_refl (a : Symbol) : Symbol_eqb a a = true.
Proof. now apply Symbol_eqb_eq. Qed.

Lemma Symbol_eqb_neq (a b : Symbol) : Symbol_eqb a b = false <-> a <> b.
Proof.
  rewrite <- Symbol_eqb_eq. destruct (Symbol_eqb a b); split; congruence.
Qed.

Section ObjectFacts.
Context {V : Type}.
Implicit Types (o : Obj V) (k : Symbol) (v : V).

Lemma obj_get_set_same o k v : obj_get k (obj_set k v o) = Some v.
Proof.
  induction o as [|[k' v'] o IH]; simpl.
  - now rewrite Symbol_eqb_refl.
  - destruct (Symbol_eqb k k') eqn:E; simpl; rewrite E; auto.
Qed.

Lemma obj_get_set_other o k k' v :
  k' <> k -> obj_get k' (obj_set k v o) = obj_get k' o.
Proof.
  intros Hk. induction o as [|[k0 v0] o IH]; simpl.
  - apply Symbol_eqb_neq in Hk. now rewrite Hk.
  - destruct (Symbol_eqb k k0) eqn:E; simpl.
    + apply Symbol_eqb_eq in E. subst k0.
      apply Symbol_eqb_neq in Hk. now rewrite Hk.
    + now rewrite IH.
Qed.

Lemma obj_get_In o k v : obj_get k o = Some v -> In (k, v) o.
Proof.
  induction o as [|[k' v'] o IH]; simpl; [discriminate|].
  destruct (Symbol_eqb k k') eqn:E.
  - apply Symbol_eqb_eq in E. intros H. left. congruence.
  - auto.
Qed.

Lemma obj_get_None o k : obj_get k o = None <-> ~ In k (Object_keys o).
Proof.
  unfold Object_keys.
  induction o as [|[k' v'] o IH]; simpl; [tauto|].
  destruct (Symbol_eqb k k') eqn:E.
  - apply Symbol_eqb_eq in E. split; [discriminate|]. intros H.
    exfalso. apply H. now left.
  - apply Symbol_eqb_neq in E. rewrite IH.
    split; [intros H [H'|H']; congruence|tauto].
Qed.

Lemma obj_get_key o k : In k (Object_keys o) -> exists v, obj_get k o = Some v.
Proof.
  intros H. destruct (obj_get k o) as [v|] eqn:E; [eauto|].
  apply obj_get_None in E. contradiction.
Qed.

Lemma obj_set_keys o k v :
  Object_keys (obj_set k v o)
  = match obj_get k o with
    | Some _ => Object_keys o
    | None => Object_keys o ++ [k]
    end.
Proof.
  induction o as [|[k' v'] o IH]; simpl; [reflexivity|].
  destruct (Symbol_eqb k k') eqn:E; simpl; [reflexivity|].
  unfold Object_keys in *. rewrite IH. now destruct (obj_get k o).
Qed.

Lemma obj_set_NoDup o k v :
  NoDup (Object_keys o) -> NoDup (Object_keys (obj_set k v o)).
Proof.
  intros H. rewrite obj_set_keys. destruct (obj_get k o) eqn:E; [exact H|].
  apply obj_get_None in E. apply NoDup_app; auto.
  - constructor; [tauto|constructor].
  - intros x Hx [<-|[]]. contradiction.
Qed.

Lemma In_obj_get o k v :
  NoDup (Object_keys o) -> In (k, v) o -> obj_get k o = Some v.
Proof.
  induction o as [|[k' v'] o IH]; simpl; [tauto|].
  intros Hnd [H|H].
  - injection H as -> ->. now rewrite Symbol_eqb_refl.
  - inversion Hnd as [|? ? Hk Hnd']; subst.
    destruct (Symbol_eqb k k') eqn:E; [|auto].
    apply Symbol_eqb_eq in E. subst k'. exfalso. apply Hk.
    unfold Object_keys. apply in_map_iff. now exists (k, v).
Qed.
End ObjectFacts.

(** ** Per-suit totals *)

Lemma rankOrder_pos (r : Rank) : 2 <= rankOrder r <= 11.
Proof. destruct r; simpl; lia. Qed.

Lemma sumValues_nonneg (l : list Card) : 0 <= sumValues l.
Proof.
  induction l as [|c l IH]; simpl; [lia|].
  pose proof (rankOrder_pos (rank c)). lia.
Qed.

Lemma sumValues_pos (l : list Card) : l <> [] -> 2 <= sumValues l.
Proof.
  destruct l as [|c l]; [congruence|]. intros _. simpl.
  pose proof (rankOrder_pos (rank c)). pose proof (sumValues_nonneg l). lia.
Qed.

Lemma sumValues_app (l1 l2 : list Card) :
  sumValues (l1 ++ l2) = sumValues l1 + sumValues l2.
Proof. induction l1 as [|c l1 IH]; simpl; [|rewrite IH]; lia. Qed.

Lemma sumValues_perm (l1 l2 : list Card) :
  Permutation l1 l2 -> sumValues l1 = sumValues l2.
Proof. induction 1; simpl; lia. Qed.

Lemma suitCards_perm (k : Symbol) (l1 l2 : list Card) :
  Permutation l1 l2 -> Permutation (suitCards k l1) (suitCards k l2).
Proof.
  unfold suitCards.
  induction 1 as [|x l1 l2 H IH|x y l|l1 l2 l3 H1 IH1 H2 IH2]; simpl.
  - constructor.
  - destruct (ofSuit k x); [constructor|]; exact IH.
  - destruct (ofSuit k x), (ofSuit k y);
      try apply Permutation_refl. apply perm_swap.
  - eapply perm_trans; eauto.
Qed.

Lemma suitSum_perm (k : Symbol) (l1 l2 : list Card) :
  Permutation l1 l2 -> suitSum k l1 = suitSum k l2.
Proof. intros H. apply sumValues_perm, suitCards_perm, H. Qed.

Lemma maxOverSuits_perm (l1 l2 : list Card) :
  Permutation l1 l2 -> maxOverSuits l1 = maxOverSuits l2.
Proof.
  intros H. unfold maxOverSuits, symbols. cbn [fold_right].
  now rewrite !(suitSum_perm _ l1 l2 H).
Qed.

Lemma calculatePointsBySuit_fold (hand : list Card) :
  calculatePointsBySuit hand = fold_left addPoints hand [].
Proof. reflexivity. Qed.

Lemma suitSum_snoc (k : Symbol) (seen : list Card) (c : Card) :
  suitSum k (seen ++ [c])
  = suitSum k seen + (if ofSuit k c then rankOrder (rank c) else 0).
Proof.
  unfold suitSum, suitCards. rewrite filter_app, sumValues_app. simpl.
  destruct (ofSuit k c); simpl; lia.
Qed.

Lemma suitSum_none (k : Symbol) (seen : list Card) :
  existsb (ofSuit k) seen = false -> suitSum k seen = 0.
Proof.
  unfold suitSum, suitCards. induction seen as [|c l IH]; simpl; [reflexivity|].
  destruct (ofSuit k c); simpl; [discriminate|exact IH].
Qed.

Lemma addPoints_ok (seen : list Card) (acc : Obj Z) (c : Card) :
  pointsFor seen acc -> pointsFor (seen ++ [c]) (addPoints acc c).
Proof.
  intros [Hnd Hget]. unfold addPoints.
  set (s := getSuitSymbol (suit c)).
  set (acc' := if falsy (obj_get s acc) then obj_set s 0 acc else acc).
  assert (Hnd' : NoDup (Object_keys acc')).
  { unfold acc'. destruct (falsy _); [apply obj_set_NoDup|]; exact Hnd. }
  assert (Hs : obj_get s acc' = Some (suitSum s seen)).
  { unfold acc'. rewrite (Hget s).
    destruct (existsb (ofSuit s) seen) eqn:E; simpl.
    - destruct (suitSum s seen =? 0) eqn:Z0; [|now rewrite Hget, E].
      apply Z.eqb_eq in Z0. now rewrite obj_get_set_same, Z0.
    - now rewrite obj_get_set_same, suitSum_none. }
  assert (Ho : forall k, k <> s -> obj_get k acc' = obj_get k acc).
  { intros k Hk. unfold acc'. destruct (falsy _); [|reflexivity].
    now apply obj_get_set_other. }
  rewrite Hs. split; [now apply obj_set_NoDup|].
  intros k. rewrite existsb_app, suitSum_snoc. simpl. rewrite orb_false_r.
  unfold ofSuit at 2 3. fold s.
  destruct (Symbol_eqb s k) eqn:E.
  - apply Symbol_eqb_eq in E. subst k.
    rewrite obj_get_set_same, orb_true_r. reflexivity.
  - apply Symbol_eqb_neq in E.
    rewrite obj_get_set_other, Ho, Hget, orb_false_r, Z.add_0_r by congruence.
    reflexivity.
Qed.

Lemma fold_addPoints_ok (rest seen : list Card) (acc : Obj Z) :
  pointsFor seen acc -> pointsFor (seen ++ rest) (fold_left addPoints rest acc).
Proof.
  revert seen acc. induction rest as [|c rest IH]; intros seen acc H; simpl.
  - now rewrite app_nil_r.
  - replace (seen ++ c :: rest) with ((seen ++ [c]) ++ rest)
      by now rewrite <- app_assoc.
    apply IH, addPoints_ok, H.
Qed.

Lemma calculatePointsBySuit_ok (hand : list Card) :
  pointsFor hand (calculatePointsBySuit hand).
Proof.
  rewrite calculatePointsBySuit_fold.
  apply (fold_addPoints_ok hand [] []). split; [constructor|reflexivity].
Qed.

(** ** [Math.max] *)

Lemma fold_max2_Num (l : list Z) (a : Z) :
  fold_left (fun acc x => max2 acc (Num x)) l (Num a)
  = Num (fold_left Z.max l a).
Proof.
  revert a. induction l as [|x l IH]; intros a; simpl; [reflexivity|].
  unfold max2 at 2. simpl. destruct (a <? x) eqn:E.
  - apply Z.ltb_lt in E. rewrite IH. do 2 f_equal. lia.
  - apply Z.ltb_ge in E. rewrite IH. do 2 f_equal. lia.
Qed.

Lemma Math_max_cons (x : Z) (l : list Z) :
  Math_max (x :: l) = Num (fold_left Z.max l x).
Proof. unfold Math_max. simpl. apply fold_max2_Num. Qed.

Lemma fold_Zmax_spec (l : list Z) (a : Z) :
  In (fold_left Z.max l a) (a :: l)
  /\ Forall (fun y => y <= fold_left Z.max l a) (a :: l).
Proof.
  revert a. induction l as [|x l IH]; intros a; simpl.
  - split; [now left|]. constructor; [lia|constructor].
  - destruct (IH (Z.max a x)) as [Hin Hall]. split.
    + destruct Hin as [Hin|Hin]; [|now right; right].
      rewrite <- Hin. destruct (Z.max_spec a x) as [[_ ->]|[_ ->]]; auto.
    + inversion Hall as [|? ? Hm Hl]; subst.
      constructor; [lia|]. constructor; [lia|exact Hl].
Qed.

(** For a non-empty hand, the maximum of the per-suit points is the
    largest per-suit total. *)
Lemma maxPoints_nonempty (hand : list Card) :
  hand <> [] -> maxPoints hand = Num (maxOverSuits hand).
Proof.
  intros Hne. unfold maxPoints.
  destruct (calculatePointsBySuit_ok hand) as [Hnd Hget].
  set (o := calculatePointsBySuit hand) in *.
  assert (Hval : forall v, In v (Object_values o) ->
                           exists k, v = suitSum k hand).
  { intros v Hv. apply in_map_iff in Hv. destruct Hv as ([k v'] & <- & Hin).
    apply In_obj_get in Hin; [|exact Hnd]. rewrite Hget in Hin.
    exists k. destruct (existsb (ofSuit k) hand); simpl; congruence. }
  assert (Hin : forall k, existsb (ofSuit k) hand = true ->
                          In (suitSum k hand) (Object_values o)).
  { intros k Hk. specialize (Hget k). rewrite Hk in Hget.
    apply obj_get_In in Hget. apply in_map_iff. now exists (k, suitSum k hand). }
  destruct (Object_values o) as [|x l] eqn:Hv.
  - exfalso. destruct hand as [|c hand]; [congruence|].
    apply (Hin (getSuitSymbol (suit c))). simpl. unfold ofSuit at 1.
    now rewrite Symbol_eqb_refl.
  - rewrite Math_max_cons. f_equal.
    destruct (fold_Zmax_spec l x) as [Hm Hall].
    set (m := fold_left Z.max l x) in *.
    destruct (Hval m Hm) as [km Hkm].
    assert (Hup : forall k, suitSum k hand <= m).
    { intros k. destruct (existsb (ofSuit k) hand) eqn:E.
      - rewrite Forall_forall in Hall. apply Hall, Hin, E.
      - rewrite suitSum_none by exact E. rewrite Hkm.
        apply sumValues_nonneg. }
    pose proof (Hup sym_heart). pose proof (Hup sym_diamond).
    pose proof (Hup sym_club). pose proof (Hup sym_spade).
    assert (0 <= m) by (rewrite Hkm; apply sumValues_nonneg).
    unfold maxOverSuits, symbols. cbn [fold_right]. destruct km; lia.
Qed.

Lemma getSortedCards_perm (hand : list Card) :
  Permutation (getSortedCards hand) hand.
Proof. apply js_sort_perm. Qed.

(** C5: for every hand, [calculatePointsBySuit] has one entry per suit
    present in the hand, whose value is the sum of the rank values of the
    cards of that suit, and no entry for a suit without a card; the rank
    values are 11 for the ace, the face value for 2 to 9 and 10 for ten,
    jack, queen and king. *)
Theorem calculatePointsBySuit_groups_and_sums :
  (forall hand k,
      obj_get k (calculatePointsBySuit hand)
      = if existsb (ofSuit k) hand then Some (suitSum k hand) else None)
  /\ (forall hand, NoDup (Object_keys (calculatePointsBySuit hand)))
  /\ rankOrder rA = 11
  /\ map rankOrder [r2; r3; r4; r5; r6; r7; r8; r9] = [2; 3; 4; 5; 6; 7; 8; 9]
  /\ map rankOrder [r10; rJ; rQ; rK] = [10; 10; 10; 10].
Proof.
  split; [|split; [|repeat split]].
  - intros hand k. apply (calculatePointsBySuit_ok hand).
  - intros hand. apply (calculatePointsBySuit_ok hand).
Qed.

(** C4: the best score of a hand is the maximum over the suits of the
    per-suit sums of rank values, and 0 for the empty hand; the maximum
    [shouldKnock] takes over the per-suit points of a hand with a card
    is the same number, and so is the number [updateTotalPoints] stores
    for a hand with a card, whatever the calculator held before. *)
Theorem bestScore_is_max_over_suits :
  (forall hand, bestScore hand = Num (maxOverSuits hand))
  /\ bestScore [] = Num 0
  /\ (forall c hand, maxPoints (c :: hand) = Num (maxOverSuits (c :: hand)))
  /\ (forall pc c hand,
        player1points (updateTotalPoints pc (c :: hand))
        = Num (maxOverSuits (c :: hand))).
Proof.
  assert (Hupd : forall pc c hand,
             player1points (updateTotalPoints pc (c :: hand))
             = Num (maxOverSuits (c :: hand))).
  { intros pc c hand. unfold updateTotalPoints.
    cbn [length Nat.eqb player1points]. unfold pointsOfSortedHand.
    fold (maxPoints (getSortedCards (c :: hand))).
    rewrite maxPoints_nonempty.
    - f_equal. apply maxOverSuits_perm, getSortedCards_perm.
    - intros H.
      pose proof (Permutation_length (getSortedCards_perm (c :: hand))) as Hl.
      rewrite H in Hl. discriminate. }
  split; [|split; [|split]].
  - intros [|c hand]; [reflexivity|]. apply Hupd.
  - reflexivity.
  - intros c hand. now apply maxPoints_nonempty.
  - exact Hupd.
Qed.

(** ** The knock decision *)

Lemma three_cards_nonempty (hand : list Card) : length hand = 3%nat -> hand <> [].
Proof. destruct hand; simpl; congruence. Qed.

(** C7: with three cards in hand and a best-suit score of 25 or more,
    [shouldKnock] answers true whatever the cards of the opponent and the
    depth of the discard pile. *)
Theorem shouldKnock_strong_hand (gs : GameState) :
  length (hand (players_1 gs)) = 3%nat ->
  25 <= maxOverSuits (hand (players_1 gs)) ->
  shouldKnock gs = true.
Proof.
  intros Hlen Hmax. unfold shouldKnock. rewrite Hlen. cbn [Nat.eqb negb].
  fold (maxPoints (hand (players_1 gs))).
  rewrite maxPoints_nonempty by now apply three_cards_nonempty.
  cbn [Js.eq Js.ge].
  destruct (maxOverSuits (hand (players_1 gs)) =? 31); [reflexivity|].
  apply Z.leb_le in Hmax. now rewrite Hmax.
Qed.

Lemma shouldKnock_strong_hand_witness : shouldKnock strongHandState = true.
Proof. apply shouldKnock_strong_hand; [reflexivity|vm_compute; discriminate]. Defined.

(** C8 as amended: with three cards in hand, a best-suit score below 25
    and fewer than (hand size - 1) cards of the opponent visible, the
    estimate is 21 or 19 by the depth of the discard pile only when no
    card of the opponent is visible; with some card visible it is the
    best-suit score of the visible cards.  The decision then follows the
    stage of the game. *)
Theorem shouldKnock_by_stage (gs : GameState) :
  length (hand (players_1 gs)) = 3%nat ->
  maxOverSuits (hand (players_1 gs)) < 25 ->
  Z.of_nat (length (visibleCards gs))
  < Z.of_nat (length (hand (players_0 gs))) - 1 ->
  shouldKnock gs
  = knockByStage (maxOverSuits (hand (players_1 gs)))
      (match visibleCards gs with
       | [] => estimateByProgress (length (discardPile gs))
       | _ :: _ => maxOverSuits (visibleCards gs)
       end)
      (length (discardPile gs)).
Proof.
  intros Hlen Hmax Hvis. unfold shouldKnock. rewrite Hlen. cbn [Nat.eqb negb].
  fold (maxPoints (hand (players_1 gs))). fold (visibleCards gs).
  rewrite maxPoints_nonempty by now apply three_cards_nonempty.
  set (own := maxOverSuits (hand (players_1 gs))) in *.
  cbn [Js.eq Js.ge].
  replace (own =? 31) with false by (symmetry; apply Z.eqb_neq; lia).
  replace (25 <=? own) with false by (symmetry; apply Z.leb_gt; lia).
  unfold knockByStage, estimateByProgress.
  destruct (visibleCards gs) as [|v vs] eqn:Ev.
  - change (0 <? length (@nil Card))%nat with false. cbv iota.
    generalize (length (discardPile gs)). intros depth.
    destruct (3 <? depth)%nat; destruct (depth <? 3)%nat;
      destruct (depth <? 6)%nat; reflexivity.
  - change (0 <? length (v :: vs))%nat with true. cbv iota.
    fold (maxPoints (v :: vs)). rewrite maxPoints_nonempty by discriminate.
    replace (Z.of_nat (length (hand (players_0 gs))) - 1
             <=? Z.of_nat (length (v :: vs)))
      with false by (symmetry; apply Z.leb_gt; lia).
    generalize (length (discardPile gs)). intros depth.
    destruct (depth <? 3)%nat; destruct (depth <? 6)%nat; reflexivity.
Qed.

Lemma shouldKnock_by_stage_witness :
  shouldKnock partlyVisibleState = knockByStage 19 4 6.
Proof.
  apply (shouldKnock_by_stage partlyVisibleState);
    [reflexivity | vm_compute; reflexivity | vm_compute; reflexivity].
Defined.

(** C8 as stated fails: with one to (hand size - 2) cards of the opponent
    visible the estimate is not 21 or 19.  Here the hand scores 19, the
    pile is six deep, the stated rule (19 >= 21 + 1) says no knock, and
    [shouldKnock] knocks on the visible best score of 4. *)
Lemma shouldKnock_estimate_counterexample :
  length (hand (players_1 partlyVisibleState)) = 3%nat
  /\ maxOverSuits (hand (players_1 partlyVisibleState)) < 25
  /\ Z.of_nat (length (visibleCards partlyVisibleState))
     < Z.of_nat (length (hand (players_0 partlyVisibleState))) - 1
  /\ shouldKnock partlyVisibleState
     <> knockByStage (maxOverSuits (hand (players_1 partlyVisibleState)))
          (estimateByProgress (length (discardPile partlyVisibleState)))
          (length (discardPile partlyVisibleState)).
Proof. vm_compute. repeat split; discriminate. Qed.

(** ** The groups of [selectCardToDiscard] *)

Lemma groupBySuit_fold (hand : list Card) :
  groupBySuit hand = fold_left addToGroup (indexed hand) [].
Proof. reflexivity. Qed.

Lemma suitItems_snoc (k : Symbol) (seen : list (Card * nat))
  (item : Card * nat) :
  suitItems k (seen ++ [item])
  = suitItems k seen ++ (if ofSuit k (fst item) then [item] else []).
Proof. unfold suitItems. rewrite filter_app. simpl. now destruct (ofSuit k (fst item)). Qed.

Lemma addToGroup_ok (seen : list (Card * nat)) (G : Obj Group)
  (item : Card * nat) :
  groupsFor seen G -> groupsFor (seen ++ [item]) (addToGroup G item).
Proof.
  intros [Hnd Hget]. unfold addToGroup.
  set (s := getSuitSymbol (suit (fst item))).
  set (G' := match obj_get s G with
             | None => obj_set s (new_Group [] 0 []) G
             | Some _ => G
             end).
  assert (Hnd' : NoDup (Object_keys G')).
  { unfold G'. destruct (obj_get s G); [|apply obj_set_NoDup]; exact Hnd. }
  assert (Hs : exists g, obj_get s G' = Some g
                         /\ cards g = map fst (suitItems s seen)
                         /\ indices g = map snd (suitItems s seen)
                         /\ totalValue g = sumValues (cards g)).
  { unfold G'. pose proof (Hget s) as H. destruct (obj_get s G) as [g|] eqn:E.
    - exists g. rewrite E. tauto.
    - exists (new_Group [] 0 []). rewrite obj_get_set_same, H. auto. }
  assert (Ho : forall k, k <> s -> obj_get k G' = obj_get k G).
  { intros k Hk. unfold G'. destruct (obj_get s G); [reflexivity|].
    now apply obj_get_set_other. }
  destruct Hs as (g & -> & Hc & Hi & Ht).
  split; [now apply obj_set_NoDup|].
  intros k. rewrite suitItems_snoc. unfold ofSuit. fold s.
  destruct (Symbol_eqb s k) eqn:E.
  - apply Symbol_eqb_eq in E. subst k. rewrite obj_get_set_same.
    cbn [cards indices totalValue]. unfold push.
    rewrite !map_app, Hc, Hi. cbn [map fst snd].
    repeat split.
    + rewrite sumValues_app, Ht, Hc. simpl. lia.
    + intros H. apply app_eq_nil in H. destruct H; discriminate.
  - apply Symbol_eqb_neq in E.
    rewrite obj_get_set_other, Ho, app_nil_r by congruence. apply Hget.
Qed.

Lemma fold_addToGroup_ok (rest seen : list (Card * nat)) (G : Obj Group) :
  groupsFor seen G -> groupsFor (seen ++ rest) (fold_left addToGroup rest G).
Proof.
  revert seen G. induction rest as [|item rest IH]; intros seen G H; simpl.
  - now rewrite app_nil_r.
  - replace (seen ++ item :: rest) with ((seen ++ [item]) ++ rest)
      by now rewrite <- app_assoc.
    apply IH, addToGroup_ok, H.
Qed.

Lemma groupBySuit_ok (hand : list Card) :
  groupsFor (indexed hand) (groupBySuit hand).
Proof.
  rewrite groupBySuit_fold.
  apply (fold_addToGroup_ok (indexed hand) [] []).
  split; [constructor|reflexivity].
Qed.

Lemma suitItems_cards (k : Symbol) (items : list (Card * nat)) :
  map fst (suitItems k items) = suitCards k (map fst items).
Proof.
  unfold suitItems, suitCards. induction items as [|it items IH]; simpl; auto.
  destruct (ofSuit k (fst it)); simpl; now rewrite IH.
Qed.

(** The facts about one group that the steps rely on. *)
Lemma group_facts (hand : list Card) (k : Symbol) (g : Group) :
  obj_get k (groupBySuit hand) = Some g ->
  cards g = suitCards k hand
  /\ totalValue g = suitSum k hand
  /\ cards g <> []
  /\ length (indices g) = length (cards g)
  /\ forall j c, nth_error (cards g) j = Some c ->
                 exists i, nth_error (indices g) j = Some i
                           /\ nth_error hand i = Some c.
Proof.
  intros Hg. destruct (groupBySuit_ok hand) as [_ H].
  specialize (H k). rewrite Hg in H. destruct H as (Hc & Hi & Ht & Hne).
  assert (Hcards : cards g = suitCards k hand).
  { rewrite Hc, suitItems_cards. unfold indexed.
    now rewrite indexed_from_map_fst. }
  repeat split.
  - exact Hcards.
  - rewrite Ht, Hcards. reflexivity.
  - rewrite Hc. intros E. apply map_eq_nil in E. contradiction.
  - now rewrite Hc, Hi, !length_map.
  - intros j c Hj. rewrite Hc in Hj. rewrite Hi.
    rewrite nth_error_map in Hj. rewrite nth_error_map.
    destruct (nth_error (suitItems k (indexed hand)) j) as [[c' i]|] eqn:E;
      [|discriminate].
    simpl in Hj. injection Hj as ->. exists i. split; [reflexivity|].
    apply nth_error_In in E. apply filter_In in E. destruct E as [E _].
    now apply indexed_nth in E.
Qed.

Lemma groupBySuit_has (hand : list Card) (c : Card) :
  In c hand ->
  exists g, obj_get (getSuitSymbol (suit c)) (groupBySuit hand) = Some g.
Proof.
  intros Hc. destruct (groupBySuit_ok hand) as [_ H].
  specialize (H (getSuitSymbol (suit c))).
  destruct (obj_get _ (groupBySuit hand)) as [g|]; [eauto|].
  exfalso. apply In_nth_error in Hc. destruct Hc as [i Hi].
  apply indexed_nth in Hi.
  assert (Hin : In (c, i) (suitItems (getSuitSymbol (suit c)) (indexed hand))).
  { apply filter_In. split; [exact Hi|]. unfold ofSuit. simpl.
    apply Symbol_eqb_refl. }
  rewrite H in Hin. contradiction.
Qed.

Lemma entry_get (hand : list Card) (k : Symbol) (g : Group) :
  In (k, g) (groupBySuit hand) -> obj_get k (groupBySuit hand) = Some g.
Proof. apply In_obj_get, groupBySuit_ok. Qed.

(** ** Every step of [selectCardToDiscard] answers a position of the hand *)

Lemma length_pos_nonempty {A : Type} (l : list A) :
  (0 <? length l)%nat = true -> l <> [].
Proof. destruct l; simpl; [discriminate|congruence]. Qed.

Lemma keepStrongSuit_valid (hand : list Card) (G : Obj Group)
  (r : option Z) :
  keepStrongSuit hand G = Return r -> validIndex hand r.
Proof.
  unfold keepStrongSuit.
  set (strongSuits := filter _ (Object_entries G)).
  destruct (0 <? length strongSuits)%nat eqn:Hs; [|discriminate].
  destruct (js_sort _ strongSuits) as [|[strongestSuit g] t] eqn:Es.
  { exfalso. eapply js_sort_nonempty; [|exact Es].
    now apply length_pos_nonempty. }
  set (weak := filter _ (indexed hand)).
  destruct (0 <? length weak)%nat eqn:Hw; [|discriminate].
  destruct (js_sort _ weak) as [|[c i] t'] eqn:Ew.
  { exfalso. eapply js_sort_nonempty; [|exact Ew].
    now apply length_pos_nonempty. }
  intros H. injection H as <-. exists i. split; [reflexivity|].
  assert (Hin : In (c, i) weak).
  { eapply js_sort_In. rewrite Ew. now left. }
  apply filter_In in Hin. destruct Hin as [Hin _].
  apply indexed_nth in Hin. eapply nth_error_lt, Hin.
Qed.

Lemma lowestOfSuits_valid (hand : list Card) (otherSuits : list Symbol) :
  (forall s, In s otherSuits -> In s (Object_keys (groupBySuit hand))) ->
  exists st, lowestOfSuits (groupBySuit hand) otherSuits = Some st
             /\ lowestSoFar hand st.
Proof.
  unfold lowestOfSuits.
  assert (Hinit : lowestSoFar hand (Infinity, Some (-1))) by now left.
  revert Hinit. generalize (Infinity, Some (-1)).
  induction otherSuits as [|s rest IH]; intros st Hst Hkeys; cbn [fold_left].
  - eauto.
  - destruct (obj_get_key (groupBySuit hand) s) as [g Hg];
      [apply Hkeys; now left|].
    rewrite Hg. apply IH; [|intros; apply Hkeys; now right].
    destruct (group_facts hand s g Hg) as (_ & _ & _ & _ & Hidx).
    assert (Hitems : forall item, In item (indexed (cards g)) ->
                                  nth_error (cards g) (snd item)
                                  = Some (fst item)).
    { intros [c j] Hin. now apply indexed_nth in Hin. }
    revert st Hst Hitems. generalize (indexed (cards g)).
    intros items. induction items as [|item items IHi]; intros st Hst Hitems;
      cbn [fold_left]; [exact Hst|].
    apply IHi; [|intros; apply Hitems; now right].
    destruct (Js.lt _ (fst st)); [|exact Hst].
    right. destruct (Hidx (snd item) (fst item)) as (i & Hi & Hc);
      [apply Hitems; now left|].
    exists i. simpl. rewrite Hi. split; [reflexivity|].
    eapply nth_error_lt, Hc.
Qed.

Lemma keepTwoSuits_valid (hand : list Card)
  (suitValues : list (Symbol * Group)) (r : option Z) :
  (forall e, In e suitValues -> In e (groupBySuit hand)) ->
  keepTwoSuits (groupBySuit hand) suitValues = Return r ->
  validIndex hand r.
Proof.
  intros Hsub. unfold keepTwoSuits.
  destruct (2 <=? length suitValues)%nat eqn:Hlen; [|discriminate].
  destruct suitValues as [|[bestSuit gb] [|[secondBestSuit gs] t]];
    try discriminate.
  assert (Hb : In (bestSuit, gb) (groupBySuit hand)) by (apply Hsub; now left).
  assert (Hs : In (secondBestSuit, gs) (groupBySuit hand))
    by (apply Hsub; right; now left).
  rewrite (entry_get _ _ _ Hb), (entry_get _ _ _ Hs).
  destruct (_ && _); [|discriminate].
  set (otherSuits := filter _ (Object_keys (groupBySuit hand))).
  destruct (0 <? length otherSuits)%nat; [|discriminate].
  destruct (lowestOfSuits_valid hand otherSuits) as ([lv li] & -> & Hst).
  { intros s Hin. apply filter_In in Hin. tauto. }
  destruct Hst as [Hst|(i & Hi & Hlt)]; simpl in *.
  - rewrite Hst. discriminate.
  - rewrite Hi. intros H.
    assert (r = Some (Z.of_nat i)) as ->.
    { destruct (Z.of_nat i) as [|p|p] eqn:E; try congruence.
      exfalso. lia. }
    exists i. auto.
Qed.

Lemma lowestOfSuit_lt (first : Card) (rest : list Card) :
  (fst (lowestOfSuit first rest) < S (length rest))%nat.
Proof.
  unfold lowestOfSuit.
  assert (Hitems : forall item, In item (indexed_from 1 rest) ->
                                (snd item < S (length rest))%nat).
  { intros [c j] Hin. apply indexed_from_nth in Hin. destruct Hin as [H1 H2].
    apply nth_error_lt in H2. simpl. lia. }
  assert (Hinit : (fst (0%nat, rankOrder (rank first)) < S (length rest))%nat)
    by (simpl; lia).
  revert Hinit Hitems. generalize (0%nat, rankOrder (rank first)).
  generalize (S (length rest)). generalize (indexed_from 1 rest).
  intros items. induction items as [|item items IH]; intros n st Hst Hitems;
    simpl; [exact Hst|].
  apply IH; [|intros; apply Hitems; now right].
  destruct (_ <? snd st); [|exact Hst]. simpl. apply Hitems. now left.
Qed.

Lemma discardFromWeakest_valid (hand : list Card)
  (suitValues : list (Symbol * Group)) :
  suitValues <> [] ->
  (forall e, In e suitValues -> In e (groupBySuit hand)) ->
  validIndex hand (discardFromWeakest (groupBySuit hand) suitValues).
Proof.
  intros Hne Hsub. unfold discardFromWeakest.
  destruct (nth_error suitValues (length suitValues - 1))
    as [[weakestSuit gw]|] eqn:E.
  2:{ exfalso. apply nth_error_None in E.
      destruct suitValues; [congruence|simpl in E; lia]. }
  apply nth_error_In, Hsub, entry_get in E. rewrite E.
  destruct (group_facts hand weakestSuit gw E) as (_ & _ & Hc & Hl & Hidx).
  destruct (cards gw) as [|first rest] eqn:Ec; [congruence|].
  pose proof (lowestOfSuit_lt first rest) as Hlt.
  set (j := fst (lowestOfSuit first rest)) in *.
  destruct (nth_error (first :: rest) j) as [c|] eqn:Ej.
  2:{ exfalso. apply nth_error_None in Ej. simpl in Ej. lia. }
  destruct (Hidx j c Ej) as (i & Hi & Hh).
  rewrite Hi. exists i. split; [reflexivity|]. eapply nth_error_lt, Hh.
Qed.

Lemma selectCardToDiscard_valid (hand : list Card) :
  hand <> [] -> validIndex hand (selectCardToDiscard hand).
Proof.
  intros Hne. unfold selectCardToDiscard.
  destruct hand as [|c0 hand0] eqn:Eh; [congruence|].
  rewrite <- Eh in *. replace (length hand =? 0)%nat with false
    by (rewrite Eh; reflexivity).
  destruct (keepStrongSuit hand (groupBySuit hand)) as [r|] eqn:E1.
  { eapply keepStrongSuit_valid, E1. }
  set (suitValues := js_sort bySizeThenValue (Object_entries (groupBySuit hand))).
  assert (Hsub : forall e, In e suitValues -> In e (groupBySuit hand)).
  { intros e He. now apply js_sort_In in He. }
  destruct (keepTwoSuits (groupBySuit hand) suitValues) as [r|] eqn:E2.
  { eapply keepTwoSuits_valid; eauto. }
  apply discardFromWeakest_valid; [|exact Hsub].
  apply js_sort_nonempty. unfold Object_entries.
  destruct (groupBySuit_has hand c0) as [g Hg]; [rewrite Eh; now left|].
  apply obj_get_In in Hg. intros H. rewrite H in Hg. contradiction.
Qed.

(** C10: [selectCardToDiscard] is total; it answers -1 exactly for the
    empty hand, and for every other hand the index of one of its cards. *)
Theorem selectCardToDiscard_total (hand : list Card) :
  (selectCardToDiscard hand = Some (-1) <-> hand = [])
  /\ (hand <> [] ->
      exists i c, selectCardToDiscard hand = Some (Z.of_nat i)
                  /\ (i < length hand)%nat
                  /\ nth_error hand i = Some c).
Proof.
  split; [split|].
  - intros H. destruct hand as [|c hand]; [reflexivity|].
    destruct (selectCardToDiscard_valid (c :: hand)) as (i & Hi & _);
      [discriminate|].
    rewrite Hi in H. injection H as H. lia.
  - intros ->. reflexivity.
  - intros Hne. destruct (selectCardToDiscard_valid hand Hne) as (i & Hi & Hlt).
    destruct (nth_error hand i) as [c|] eqn:E.
    + exists i, c. auto.
    + apply nth_error_None in E. lia.
Qed.

Lemma selectCardToDiscard_total_witness :
  exists i c,
    selectCardToDiscard [card flowers r7; card flowers r9; card diamonds r2]
    = Some (Z.of_nat i)
    /\ (i < 3)%nat
    /\ nth_error [card flowers r7; card flowers r9; card diamonds r2] i
       = Some c.
Proof.
  apply (selectCardToDiscard_total
           [card flowers r7; card flowers r9; card diamonds r2]).
  discriminate.
Defined.

(** ** Step 1: the suit of three or more cards is kept *)

Lemma strong_entry (hand : list Card) (k : Symbol) :
  (3 <= countSuit k hand)%nat ->
  exists g, In (k, g) (groupBySuit hand)
            /\ (3 <=? length (cards g))%nat = true
            /\ totalValue g = suitSum k hand.
Proof.
  intros Hk. unfold countSuit in Hk.
  destruct (suitCards k hand) as [|c l] eqn:E; [simpl in Hk; lia|].
  assert (Hc : In c (suitCards k hand)) by (rewrite E; now left).
  apply filter_In in Hc. destruct Hc as [Hc Hs].
  apply Symbol_eqb_eq in Hs.
  destruct (groupBySuit_has hand c Hc) as [g Hg]. rewrite Hs in Hg.
  destruct (group_facts hand k g Hg) as (Hcards & Ht & _).
  exists g. repeat split.
  - now apply obj_get_In.
  - apply Nat.leb_le. now rewrite Hcards, E.
  - exact Ht.
Qed.

Lemma strongest_found (hand : list Card) :
  (exists k, (3 <= countSuit k hand)%nat) ->
  exists S gS t,
    js_sort (fun a b : Symbol * Group => totalValue (snd b) - totalValue (snd a))
      (filter (fun e : Symbol * Group => (3 <=? length (cards (snd e)))%nat)
         (Object_entries (groupBySuit hand)))
    = (S, gS) :: t
    /\ strongestOfThree hand S.
Proof.
  intros [k0 Hk0].
  set (strongSuits := filter _ (Object_entries (groupBySuit hand))).
  assert (Hin : forall k, (3 <= countSuit k hand)%nat ->
                exists g, In (k, g) strongSuits
                          /\ totalValue g = suitSum k hand).
  { intros k Hk. destruct (strong_entry hand k Hk) as (g & Hg & Hl & Ht).
    exists g. split; [|exact Ht]. apply filter_In. now split. }
  destruct (js_sort _ strongSuits) as [|[S gS] t] eqn:Es.
  { exfalso. destruct (Hin k0 Hk0) as (g & Hg & _).
    eapply js_sort_In in Hg. rewrite Es in Hg. contradiction. }
  exists S, gS, t. split; [reflexivity|].
  destruct (js_sort_head
              (fun a b : Symbol * Group =>
                 totalValue (snd b) - totalValue (snd a))
              (fun e : Symbol * Group => - totalValue (snd e))
              ltac:(intros; cbv beta; lia) _ _ _ Es) as (l1 & l2 & Hsplit & H1 & H2).
  assert (HS : In (S, gS) strongSuits).
  { rewrite Hsplit. apply in_or_app. right. now left. }
  assert (Hmax : forall e, In e strongSuits ->
                           totalValue (snd e) <= totalValue gS).
  { intros e He. rewrite Hsplit in He. apply in_app_or in He.
    rewrite Forall_forall in H1, H2. destruct He as [He|[<-|He]].
    - specialize (H1 e He). simpl in H1. lia.
    - simpl. lia.
    - specialize (H2 e He). simpl in H2. lia. }
  apply filter_In in HS. destruct HS as [HG Hlen]. simpl in Hlen.
  apply entry_get in HG.
  destruct (group_facts hand S gS HG) as (Hcards & Ht & _).
  split.
  - unfold countSuit. rewrite <- Hcards. now apply Nat.leb_le.
  - intros k Hk. destruct (Hin k Hk) as (g & Hg & Htg).
    rewrite <- Htg, <- Ht. apply (Hmax (k, g) Hg).
Qed.

Lemma weakest_found (hand : list Card) (S : Symbol) :
  (exists c, In c hand /\ ofSuit S c = false) ->
  let weak :=
    filter (fun item : Card * nat =>
              negb (Symbol_eqb (getSuitSymbol (suit (fst item))) S))
           (indexed hand) in
  (0 <? length weak)%nat = true
  /\ exists c i t,
      js_sort (fun a b : Card * nat =>
                 rankOrder (rank (fst a)) - rankOrder (rank (fst b))) weak
      = (c, i) :: t
      /\ firstLowestOffSuit hand S i.
Proof.
  intros (c0 & Hc0 & Hs0) weak.
  assert (Hweak : forall c j, In (c, j) weak <->
                              nth_error hand j = Some c /\ ofSuit S c = false).
  { intros c j. unfold weak. rewrite filter_In, indexed_nth. simpl.
    unfold ofSuit. rewrite negb_true_iff. reflexivity. }
  assert (Hne : weak <> []).
  { apply In_nth_error in Hc0. destruct Hc0 as [j Hj].
    assert (H : In (c0, j) weak) by now apply Hweak.
    intros E. rewrite E in H. contradiction. }
  split; [destruct weak; [congruence|reflexivity]|].
  destruct (js_sort _ weak) as [|[c i] t] eqn:Es.
  { exfalso. eapply js_sort_nonempty; eauto. }
  exists c, i, t. split; [reflexivity|].
  destruct (js_sort_head
              (fun a b : Card * nat =>
                 rankOrder (rank (fst a)) - rankOrder (rank (fst b)))
              (fun item : Card * nat => rankOrder (rank (fst item)))
              ltac:(intros; reflexivity) _ _ _ Es)
    as (l1 & l2 & Hsplit & H1 & H2).
  rewrite Forall_forall in H1, H2.
  assert (Hci : In (c, i) weak).
  { rewrite Hsplit. apply in_or_app. right. now left. }
  apply Hweak in Hci. destruct Hci as [Hi Hsc].
  assert (Hsorted : StronglySorted (fun a b : Card * nat => (snd a < snd b)%nat)
                      weak).
  { apply StronglySorted_filter, indexed_from_sorted. }
  rewrite Hsplit in Hsorted. apply StronglySorted_after in Hsorted.
  rewrite Forall_forall in Hsorted.
  split.
  - exists c. repeat split; [exact Hi|exact Hsc|].
    intros j c' Hj Hs'.
    assert (Hin : In (c', j) weak) by now apply Hweak.
    rewrite Hsplit in Hin. apply in_app_or in Hin.
    destruct Hin as [Hin|[Hin|Hin]].
    + specialize (H1 _ Hin). simpl in H1. lia.
    + injection Hin as <- <-. lia.
    + specialize (H2 _ Hin). simpl in H2. lia.
  - intros c1 j c' Hi1 Hj Hs' Hlt. rewrite Hi in Hi1. injection Hi1 as <-.
    assert (Hin : In (c', j) weak) by now apply Hweak.
    rewrite Hsplit in Hin. apply in_app_or in Hin.
    destruct Hin as [Hin|[Hin|Hin]].
    + specialize (H1 _ Hin). simpl in H1. lia.
    + injection Hin as <- <-. lia.
    + specialize (Hsorted _ Hin). simpl in Hsorted. lia.
Qed.

(** C6 as amended: when some suit has three or more cards and some card
    lies outside the highest-scoring such suit, [selectCardToDiscard]
    answers the position of the first card of lowest rank value among the
    cards outside that suit; on ace, king, queen of spades and the two of
    hearts it answers the position of the two of hearts. *)
Theorem selectCardToDiscard_keeps_strong_suit :
  (forall hand,
      (exists k, (3 <= countSuit k hand)%nat) ->
      exists S,
        strongestOfThree hand S
        /\ ((exists c, In c hand /\ ofSuit S c = false) ->
            exists i, selectCardToDiscard hand = Some (Z.of_nat i)
                      /\ firstLowestOffSuit hand S i))
  /\ selectCardToDiscard
       [card spades rA; card spades rK; card spades rQ; card hearts r2]
     = Some 3.
Proof.
  split; [|reflexivity].
  intros hand Hk.
  destruct (strongest_found hand Hk) as (S & gS & t & Hsort & Hstrong).
  exists S. split; [exact Hstrong|].
  intros Hoff. pose proof (weakest_found hand S Hoff) as Hw.
  cbv zeta in Hw. destruct Hw as (Hpos & c & i & t' & Hsort' & Hlow).
  exists i. split; [|exact Hlow].
  unfold selectCardToDiscard.
  assert (Hne : hand <> []).
  { destruct Hoff as (c0 & Hc0 & _). intros ->. contradiction. }
  replace (length hand =? 0)%nat with false
    by (destruct hand; [congruence|reflexivity]).
  unfold keepStrongSuit. rewrite Hsort.
  replace (0 <? length _)%nat with true.
  - rewrite Hpos, Hsort'. reflexivity.
  - symmetry. apply Nat.ltb_lt. rewrite <- (js_sort_length
      (fun a b : Symbol * Group => totalValue (snd b) - totalValue (snd a))).
    rewrite Hsort. simpl. lia.
Qed.

Lemma selectCardToDiscard_keeps_strong_suit_witness :
  exists S,
    strongestOfThree
      [card spades rA; card spades rK; card spades rQ; card hearts r2] S
    /\ ((exists c,
            In c [card spades rA; card spades rK; card spades rQ;
                  card hearts r2]
            /\ ofSuit S c = false) ->
        exists i,
          selectCardToDiscard
            [card spades rA; card spades rK; card spades rQ; card hearts r2]
          = Some (Z.of_nat i)
          /\ firstLowestOffSuit
               [card spades rA; card spades rK; card spades rQ;
                card hearts r2] S i).
Proof.
  apply (proj1 selectCardToDiscard_keeps_strong_suit).
  exists sym_spade. vm_compute. lia.
Defined.

(** C6 as stated fails on a hand of one suit: ace, king, queen and two of
    spades.  No card lies outside the suit, the first step falls through
    and the answer, position 3, is a spade. *)
Lemma selectCardToDiscard_one_suit_counterexample :
  ~ discardsLowestOffSuit
      [card spades rA; card spades rK; card spades rQ; card spades r2].
Proof.
  intros H.
  assert (Hk : exists k,
             (3 <= countSuit k [card spades rA; card spades rK;
                                card spades rQ; card spades r2])%nat)
    by (exists sym_spade; vm_compute; lia).
  destruct (H Hk) as (S & i & [Hcount _] & Hsel & c & Hi & Hoff & _).
  replace (selectCardToDiscard _) with (Some 3) in Hsel by reflexivity.
  injection Hsel as Hsel.
  assert (i = 3%nat) as -> by lia.
  simpl in Hi. injection Hi as <-.
  destruct S; vm_compute in Hcount, Hoff; try discriminate; lia.
Qed.

(** ** The deck *)

(** C2 as amended: [drawCard] on an empty deck throws nothing; it returns
    [undefined] and leaves the deck empty.  On a deck with cards it
    returns the last card and removes it. *)
Theorem drawCard_returns_undefined_on_empty :
  drawCard [] = (Returned None, [])
  /\ forall cards c, drawCard (cards ++ [c]) = (Returned (Some c), cards).
Proof.
  split; [reflexivity|]. intros cards c. unfold drawCard.
  now rewrite pop_app.
Qed.

(** C2 as stated fails: the call on the empty deck does not end in
    [EmptyDeckError]. *)
Lemma drawCard_empty_counterexample :
  fst (drawCard []) <> Thrown EmptyDeckError.
Proof. discriminate. Qed.

Lemma swap_length (i j : nat) (cards : list Card) :
  length (swap i j cards) = length cards.
Proof.
  unfold swap. destruct (nth_error cards i), (nth_error cards j); auto.
  now rewrite !set_nth_length.
Qed.

Lemma shuffle_length (random : nat -> nat) (cards : list Card) :
  length (shuffle random cards) = length cards.
Proof.
  unfold shuffle. generalize (length cards - 1)%nat. intros i.
  revert cards. induction i as [|i IH]; intros cards; simpl; [reflexivity|].
  now rewrite IH, swap_length.
Qed.

Lemma new_Deck_length (random : nat -> nat) :
  length (new_Deck random suits ranks) = 52%nat.
Proof. unfold new_Deck. now rewrite shuffle_length. Qed.

(** ** The round: counting the cards *)

Lemma takeFromDeck_Some (w w' : World) (c : Card) :
  takeFromDeck w = Some (Some (c, w')) ->
  deck w = deck w' ++ [c]
  /\ gameState w' = gameState w
  /\ player1HandContainer w' = player1HandContainer w
  /\ player2HandContainer w' = player2HandContainer w
  /\ discardPileSprites w' = discardPileSprites w.
Proof.
  unfold takeFromDeck, drawCard. destruct (0 <? deckContainer w)%nat;
    [|discriminate].
  destruct (deck w) as [|x l] eqn:E using rev_ind; [discriminate|].
  rewrite pop_app. intros H. injection H as <- <-. simpl. auto.
Qed.

Lemma takeFromDeck_not_None (w : World) :
  deck w <> [] -> takeFromDeck w <> None.
Proof.
  intros Hne. unfold takeFromDeck, drawCard.
  destruct (0 <? deckContainer w)%nat; [|discriminate].
  destruct (pop_nonempty (deck w) Hne) as (x & l & -> & _). discriminate.
Qed.

Lemma totalCards_eq (w : World) :
  totalCards w
  = (length (deck w) + length (discardPile (gameState w))
     + length (hand (players_0 (gameState w)))
     + length (hand (players_1 (gameState w))))%nat.
Proof. reflexivity. Qed.

Lemma dealLoop_total (n cardCount : nat) (w w' : World) :
  dealLoop n cardCount w = Some w' -> totalCards w' = totalCards w.
Proof.
  revert cardCount w. induction n as [|n IH]; intros cardCount w;
    cbn [dealLoop].
  - intros H. now injection H as <-.
  - destruct (takeFromDeck w) as [[[c w1]|]|] eqn:E; try discriminate.
    + destruct (takeFromDeck_Some _ _ _ E) as (Hd & Hg & _).
      destruct (cardCount mod 2 =? 0)%nat; intros H; apply IH in H;
        rewrite H, !totalCards_eq, Hd, Hg; simpl; unfold push;
        rewrite !length_app; simpl; lia.
    + intros H. now injection H as <-.
Qed.

Lemma dealLoop_deck (n cardCount : nat) (w : World) :
  (n < length (deck w))%nat ->
  exists w', dealLoop n cardCount w = Some w' /\ deck w' <> [].
Proof.
  revert cardCount w. induction n as [|n IH]; intros cardCount w Hlen;
    cbn [dealLoop].
  - exists w. split; [reflexivity|]. destruct (deck w); simpl in *; [lia|congruence].
  - destruct (takeFromDeck w) as [[[c w1]|]|] eqn:E.
    + destruct (takeFromDeck_Some _ _ _ E) as (Hd & _).
      rewrite Hd, length_app in Hlen. simpl in Hlen.
      destruct (cardCount mod 2 =? 0)%nat; apply IH; simpl; lia.
    + exists w. split; [reflexivity|]. destruct (deck w); simpl in *; [lia|congruence].
    + exfalso. apply (takeFromDeck_not_None w); [|exact E].
      destruct (deck w); simpl in *; [lia|congruence].
Qed.

Lemma addCardToDiscardPileFromDeck_total (w w' : World) :
  addCardToDiscardPileFromDeck w = Some w' -> totalCards w' = totalCards w.
Proof.
  unfold addCardToDiscardPileFromDeck.
  destruct (takeFromDeck w) as [[[c w1]|]|] eqn:E; try discriminate.
  - destruct (takeFromDeck_Some _ _ _ E) as (Hd & Hg & _).
    intros H. injection H as <-. rewrite !totalCards_eq, Hd, Hg. simpl.
    unfold push. rewrite !length_app. simpl. lia.
  - intros H. now injection H as <-.
Qed.

(** Whatever the shuffle, the deal completes and leaves 52 cards in the
    deck, the pile and the two hands together. *)
Lemma startGame_total (random : nat -> nat) :
  exists w, startGame (new_Game random) = Some w /\ totalCards w = 52%nat.
Proof.
  unfold startGame.
  set (w0 := with_gameState _ _).
  assert (Hdeck : deck w0 = new_Deck random suits ranks) by reflexivity.
  assert (Htot : totalCards w0 = 52%nat).
  { rewrite totalCards_eq, Hdeck, new_Deck_length. reflexivity. }
  destruct (dealLoop_deck 6 0 w0) as (w1 & H1 & Hne).
  { rewrite Hdeck, new_Deck_length. lia. }
  rewrite H1. apply dealLoop_total in H1.
  destruct (addCardToDiscardPileFromDeck w1) as [w2|] eqn:H2.
  - eexists. split; [reflexivity|].
    apply addCardToDiscardPileFromDeck_total in H2.
    rewrite <- Htot, <- H1, <- H2. reflexivity.
  - exfalso. unfold addCardToDiscardPileFromDeck in H2.
    pose proof (takeFromDeck_not_None w1 Hne) as Hn.
    destruct (takeFromDeck w1) as [[[c w']|]|]; congruence.
Qed.

Lemma updateButtonStates_gameState (w : World) :
  gameState (updateButtonStates w) = gameState w.
Proof.
  unfold updateButtonStates.
  destruct (_ && _); [|reflexivity].
  destruct (_ =? 0)%nat; reflexivity.
Qed.

Lemma updateButtonStates_total (w : World) :
  totalCards (updateButtonStates w) = totalCards w.
Proof.
  unfold updateButtonStates.
  destruct (_ && _); [|reflexivity].
  destruct (_ =? 0)%nat; reflexivity.
Qed.

(** A draw by player 1 keeps the count. *)
Lemma drawCardForPlayer1_total (w w' : World) :
  drawCardForPlayer1 w = Some w' -> totalCards w' = totalCards w.
Proof.
  unfold drawCardForPlayer1. destruct (_ || _).
  { intros H. now injection H as <-. }
  destruct (takeFromDeck w) as [[[c w1]|]|] eqn:E; try discriminate.
  - destruct (takeFromDeck_Some _ _ _ E) as (Hd & Hg & _).
    intros H. injection H as <-. rewrite updateButtonStates_total.
    rewrite !totalCards_eq, Hd, Hg. simpl. unfold push.
    rewrite !length_app. simpl. lia.
  - intros H. now injection H as <-.
Qed.

Lemma drawCardFromDiscardPile_total (w w' : World) :
  drawCardFromDiscardPile w = Some w' -> totalCards w' = totalCards w.
Proof.
  unfold drawCardFromDiscardPile. destruct (_ || _).
  { intros H. now injection H as <-. }
  destruct (0 <? _)%nat; [|intros H; now injection H as <-].
  destruct (discardPile (gameState w)) as [|x l] eqn:E using rev_ind;
    [discriminate|].
  rewrite pop_app. intros H. injection H as <-.
  rewrite updateButtonStates_total, !totalCards_eq. simpl. rewrite E.
  unfold push. rewrite !length_app. simpl. lia.
Qed.

(** The draws and the discard of player 2 keep the count. *)
Lemma drawFromDeck_total (w w' : World) :
  drawFromDeck w = Some w' -> totalCards w' = totalCards w.
Proof.
  unfold drawFromDeck, drawCard. destruct (_ <=? 0)%nat.
  { intros H. now injection H as <-. }
  destruct (deck w) as [|x l] eqn:E using rev_ind; [discriminate|].
  rewrite pop_app. intros H. injection H as <-.
  rewrite !totalCards_eq. simpl. rewrite E. unfold push.
  rewrite !length_app. simpl. lia.
Qed.

Lemma drawFromDiscardPile_total (w w' : World) :
  drawFromDiscardPile w = Some w' -> totalCards w' = totalCards w.
Proof.
  unfold drawFromDiscardPile. destruct (_ <=? 0)%nat.
  { intros H. now injection H as <-. }
  destruct (discardPile (gameState w)) as [|x l] eqn:E using rev_ind;
    [discriminate|].
  rewrite pop_app. intros H. injection H as <-.
  rewrite !totalCards_eq. simpl. rewrite E. unfold push.
  rewrite !length_app. simpl. lia.
Qed.

Lemma splice1_length {A : Type} (i : nat) (l : list A) :
  (i < length l)%nat -> S (length (splice1 i l)) = length l.
Proof.
  intros Hi. unfold splice1.
  rewrite length_app, length_firstn, length_skipn. lia.
Qed.

Lemma player2DiscardCard_total (w w' : World) :
  player2DiscardCard w = Some w' -> totalCards w' = totalCards w.
Proof.
  unfold player2DiscardCard. destruct (_ <=? 0)%nat.
  { intros H. now injection H as <-. }
  destruct (hand (players_1 (gameState w))) as [|c0 h0] eqn:Eh.
  { simpl. intros H. now injection H as <-. }
  destruct (selectCardToDiscard_valid (c0 :: h0)) as (i & Hi & Hlt);
    [discriminate|].
  rewrite Hi.
  destruct (Z.of_nat i) as [|p|p] eqn:Ep; [| |lia].
  - replace (0 <? 0) with false by reflexivity.
    destruct (nth_error _ _); [|discriminate].
    intros H. injection H as <-. rewrite !totalCards_eq. simpl.
    rewrite Eh. unfold push. rewrite length_app.
    assert (i = 0%nat) as -> by lia.
    pose proof (splice1_length 0 (c0 :: h0) Hlt) as Hs.
    change (Z.to_nat 0) with 0%nat. simpl in *. lia.
  - replace (Z.pos p <? 0) with false by reflexivity.
    destruct (nth_error _ _); [|discriminate].
    intros H. injection H as <-. rewrite !totalCards_eq.
    cbn [gameState deck with_gameState with_discardPile with_hand_1
         discardPile players_0 players_1 hand].
    rewrite Eh. unfold push. rewrite length_app.
    assert (Pos.to_nat p = i) as -> by lia.
    pose proof (splice1_length i (c0 :: h0) Hlt) as Hs.
    cbn [length deck with_discardPileSprites with_player2HandContainer] in *.
    lia.
Qed.

(** An accepted discard of player 1 adds a card to the pile and takes
    none from [players[0].hand]: the count grows by one. *)
Lemma discardCard_total (w : World) (cardSprite : Card) :
  player1HasDrawn (gameState w) = true ->
  player1HasDiscarded (gameState w) = false ->
  currentPlayerIndex (gameState w) = 0%nat ->
  isAnimating w = false ->
  totalCards (discardCard w cardSprite) = S (totalCards w)
  /\ hand (players_0 (gameState (discardCard w cardSprite)))
     = hand (players_0 (gameState w)).
Proof.
  intros H1 H2 H3 H4. unfold discardCard. rewrite H1, H2, H3, H4. simpl.
  split.
  - rewrite updateButtonStates_total, !totalCards_eq. simpl. unfold push.
    rewrite length_app. simpl. lia.
  - rewrite updateButtonStates_gameState. reflexivity.
Qed.

(** C1 at its failing input: from a fresh game, the deal and the draw of
    player 1 leave 52 cards in deck, pile and hands; the discard of
    player 1 that follows leaves 53, because the card goes onto the pile
    and stays in [players[0].hand], which then has four cards where the
    hand on display has three. *)
Theorem player1_discard_breaks_the_count :
  startGame (new_Game unshuffled) = Some afterDeal
  /\ totalCards afterDeal = 52%nat
  /\ drawCardForPlayer1 afterDeal = Some afterDraw
  /\ totalCards afterDraw = 52%nat
  /\ In (makeVisible (new_Card sym_spade spades rK 12 false))
        (player1HandContainer afterDraw)
  /\ totalCards afterDiscard = 53%nat
  /\ length (player1HandContainer afterDiscard) = 3%nat
  /\ length (hand (players_0 (gameState afterDiscard))) = 4%nat
  /\ In (makeVisible (new_Card sym_spade spades rK 12 false))
        (hand (players_0 (gameState afterDiscard)))
  /\ In (makeVisible (new_Card sym_spade spades rK 12 false))
        (discardPile (gameState afterDiscard)).
Proof. vm_compute. repeat split; auto. Qed.

(** ** Ending the turn *)

Lemma pressEndTurn_rejected (w : World) :
  endTurnButton (buttons w) = false
  \/ currentPlayerIndex (gameState w) <> 0%nat
  \/ isDealingCards w = true \/ isAnimating w = true ->
  pressEndTurn w = w.
Proof.
  unfold pressEndTurn, endTurnHandler.
  intros [ -> | [H | [ -> | -> ]]]; try reflexivity.
  - apply Nat.eqb_neq in H. rewrite H. now destruct (endTurnButton _).
  - rewrite andb_false_r. now destruct (endTurnButton _).
  - rewrite andb_false_r. now destruct (endTurnButton _).
Qed.

(** C3 as amended: a press of End Turn takes effect exactly when the
    button is interactive, player 1 is the active player and no deal or
    animation is running; it then makes player 2 active and clears the
    flags of player 1.  The flags [player1HasDrawn] and
    [player1HasDiscarded] are not consulted; the button is interactive
    when player 1 is active and the hand on display does not hold four
    cards.  A press that is not accepted raises nothing and leaves the
    state as it was. *)
Theorem pressEndTurn_guard (w : World) :
  (endTurnButton (buttons w) = true ->
   currentPlayerIndex (gameState w) = 0%nat ->
   isDealingCards w = false -> isAnimating w = false ->
   currentPlayerIndex (gameState (pressEndTurn w)) = 1%nat
   /\ player1HasDrawn (gameState (pressEndTurn w)) = false
   /\ player1HasDiscarded (gameState (pressEndTurn w)) = false)
  /\ (endTurnButton (buttons w) = false
      \/ currentPlayerIndex (gameState w) <> 0%nat
      \/ isDealingCards w = true \/ isAnimating w = true ->
      pressEndTurn w = w)
  /\ endTurnButton (buttons (updateEndTurnButtonState w))
     = (currentPlayerIndex (gameState w) =? 0)%nat
       && negb (length (player1HandContainer w) =? 4)%nat.
Proof.
  split; [|split].
  - unfold pressEndTurn, endTurnHandler. intros -> -> -> ->. repeat split.
  - apply pressEndTurn_rejected.
  - reflexivity.
Qed.

Lemma pressEndTurn_guard_witness :
  currentPlayerIndex (gameState (pressEndTurn afterDeal)) = 1%nat
  /\ player1HasDrawn (gameState (pressEndTurn afterDeal)) = false
  /\ player1HasDiscarded (gameState (pressEndTurn afterDeal)) = false.
Proof.
  apply (proj1 (pressEndTurn_guard afterDeal)); vm_compute; reflexivity.
Defined.

(** C3 as stated fails: right after the deal player 1 has neither drawn
    nor discarded, the End Turn button is interactive, and a press makes
    player 2 the active player. *)
Lemma pressEndTurn_counterexample :
  startGame (new_Game unshuffled) = Some afterDeal
  /\ player1HasDrawn (gameState afterDeal) = false
  /\ player1HasDiscarded (gameState afterDeal) = false
  /\ ~ endTurnNeedsDrawAndDiscard afterDeal.
Proof.
  split; [|split; [|split]]; try (vm_compute; reflexivity).
  intros H.
  assert (E : player1HasDrawn (gameState afterDeal)
              && player1HasDiscarded (gameState afterDeal) = false)
    by (vm_compute; reflexivity).
  specialize (H E). vm_compute in H. discriminate H.
Qed.

(** ** Rejected actions *)

(** C9: a draw by player 1 after a draw in the same turn, a discard before
    the draw, and any of these actions or a press of End Turn while
    player 1 is not the active player, all return with the whole state,
    hands, deck, discard pile and turn flags included, as it was. *)
Theorem rejected_actions_leave_state (w : World) (cardSprite : Card) :
  (player1HasDrawn (gameState w) = true
   \/ currentPlayerIndex (gameState w) <> 0%nat ->
   drawCardForPlayer1 w = Some w /\ drawCardFromDiscardPile w = Some w)
  /\ (player1HasDrawn (gameState w) = false
      \/ currentPlayerIndex (gameState w) <> 0%nat ->
      discardCard w cardSprite = w)
  /\ (currentPlayerIndex (gameState w) <> 0%nat -> pressEndTurn w = w).
Proof.
  split; [|split].
  - intros H. split.
    + unfold drawCardForPlayer1. destruct H as [ -> | H]; [reflexivity|].
      apply Nat.eqb_neq in H. rewrite H. simpl. now rewrite orb_true_r.
    + unfold drawCardFromDiscardPile. destruct H as [ -> | H]; [reflexivity|].
      apply Nat.eqb_neq in H. rewrite H. simpl. now rewrite orb_true_r.
  - unfold discardCard. intros [ -> | H]; [reflexivity|].
    apply Nat.eqb_neq in H. rewrite H. simpl.
    now rewrite !orb_true_r.
  - intros H. apply pressEndTurn_rejected. auto.
Qed.

Lemma rejected_actions_leave_state_witness :
  (drawCardForPlayer1 afterDraw = Some afterDraw
   /\ drawCardFromDiscardPile afterDraw = Some afterDraw)
  /\ discardCard afterDeal (new_Card sym_spade spades rK 12 true) = afterDeal
  /\ pressEndTurn (pressEndTurn afterDeal) = pressEndTurn afterDeal.
Proof.
  split; [|split].
  - apply (proj1 (rejected_actions_leave_state afterDraw
                    (new_Card sym_spade spades rK 12 true))).
    left. vm_compute. reflexivity.
  - apply (proj1 (proj2 (rejected_actions_leave_state afterDeal
                           (new_Card sym_spade spades rK 12 true)))).
    left. vm_compute. reflexivity.
  - apply (proj2 (proj2 (rejected_actions_leave_state (pressEndTurn afterDeal)
                           (new_Card sym_spade spades rK 12 true)))).
    vm_compute. discriminate.
Defined.

(* ------------------------------------------------------------------ *)
(** * Further properties of the code *)

(** ** The deck: building and shuffling *)

Lemma set_nth_perm {A : Type} (l : list A) (i : nat) (x y : A) :
  nth_error l i = Some x -> Permutation (x :: set_nth i y l) (y :: l).
Proof.
  revert i. induction l as [|z l IH]; intros [|i] H; simpl in *;
    try discriminate.
  - injection H as ->. apply perm_swap.
  - eapply perm_trans; [apply perm_swap|].
    eapply perm_trans; [apply perm_skip, (IH i H)|]. apply perm_swap.
Qed.

Lemma set_nth_same {A : Type} (l : list A) (i : nat) (x y : A) :
  nth_error l i = Some x -> nth_error (set_nth i y l) i = Some y.
Proof.
  revert i. induction l as [|z l IH]; intros [|i] H; simpl in *;
    try discriminate; auto.
Qed.

Lemma set_nth_other {A : Type} (l : list A) (i j : nat) (y : A) :
  i <> j -> nth_error (set_nth i y l) j = nth_error l j.
Proof.
  revert i j. induction l as [|z l IH]; intros [|i] [|j] H; simpl;
    try reflexivity; try congruence.
  apply IH. congruence.
Qed.

Lemma swap_perm (i j : nat) (l : list Card) : Permutation (swap i j l) l.
Proof.
  unfold swap.
  destruct (nth_error l i) as [ci|] eqn:Ei; [|apply Permutation_refl].
  destruct (nth_error l j) as [cj|] eqn:Ej; [|apply Permutation_refl].
  apply (Permutation_cons_inv (a := cj)).
  assert (Hj : nth_error (set_nth i cj l) j = Some cj).
  { destruct (Nat.eq_dec i j) as [->|Hn].
    - eapply set_nth_same, Ei.
    - rewrite set_nth_other by exact Hn. exact Ej. }
  eapply perm_trans; [apply (set_nth_perm _ _ _ _ Hj)|].
  apply (set_nth_perm _ _ _ _ Ei).
Qed.

Lemma shuffle_perm (random : nat -> nat) (l : list Card) :
  Permutation (shuffle random l) l.
Proof.
  unfold shuffle. generalize (length l - 1)%nat. intros i.
  revert l. induction i as [|i IH]; intros l; simpl.
  - apply Permutation_refl.
  - eapply perm_trans; [apply IH | apply swap_perm].
Qed.

(** A boolean test for lists of faces without repetition. *)
Lemma face_eq_dec (a b : Suit * Rank) : {a = b} + {a <> b}.
Proof. repeat decide equality. Defined.

Lemma NoDup_allFaces : NoDup allFaces.
Proof.
  assert (H : forall l : list (Suit * Rank),
             (fix nodup (l : list (Suit * Rank)) : bool :=
                match l with
                | [] => true
                | x :: l' =>
                    negb (existsb (fun y => if face_eq_dec x y then true
                                            else false) l')
                    && nodup l'
                end) l = true -> NoDup l).
  { induction l as [|x l IH]; intros H; constructor.
    - apply andb_prop in H. destruct H as [H _].
      apply negb_true_iff in H. intros Hin.
      assert (E : existsb (fun y => if face_eq_dec x y then true else false) l
                  = true).
      { apply existsb_exists. exists x. split; [exact Hin|].
        destruct (face_eq_dec x x); congruence. }
      congruence.
    - apply IH. apply andb_prop in H. tauto. }
  apply H. vm_compute. reflexivity.
Qed.

Lemma allFaces_complete (s : Suit) (r : Rank) : In (s, r) allFaces.
Proof.
  unfold allFaces. apply in_flat_map. exists s. split.
  - destruct s; simpl; tauto.
  - apply in_map. destruct r; simpl; tauto.
Qed.

Lemma build_faces : map face (build suits ranks) = allFaces.
Proof. reflexivity. Qed.

Lemma build_cards_plain :
  Forall (fun c => visible c = false
                   /\ suitSymbol c = getSuitSymbol (suit c))
         (build suits ranks).
Proof.
  vm_compute. repeat (constructor; [split; reflexivity|]). constructor.
Qed.

(** X1: whatever the random choices of the shuffle, the deck of a new
    game holds the 52 cards, each combination of suit and rank exactly
    once, and no card of it is marked visible. *)
Theorem new_Deck_is_the_52_cards (random : nat -> nat) :
  Permutation (map face (new_Deck random suits ranks)) allFaces
  /\ length (new_Deck random suits ranks) = 52%nat
  /\ NoDup (map face (new_Deck random suits ranks))
  /\ (forall s r, exists c, In c (new_Deck random suits ranks)
                            /\ suit c = s /\ rank c = r)
  /\ Forall (fun c => visible c = false
                      /\ suitSymbol c = getSuitSymbol (suit c))
            (new_Deck random suits ranks).
Proof.
  assert (Hp : Permutation (new_Deck random suits ranks) (build suits ranks))
    by apply shuffle_perm.
  assert (Hf : Permutation (map face (new_Deck random suits ranks)) allFaces).
  { change allFaces with (map face (build suits ranks)).
    apply Permutation_map, Hp. }
  split; [exact Hf|]. split; [|split; [|split]].
  - transitivity (length (build suits ranks));
      [exact (Permutation_length Hp) | vm_compute; reflexivity].
  - eapply Permutation_NoDup; [apply Permutation_sym, Hf|apply NoDup_allFaces].
  - intros s r.
    pose proof (Permutation_in (s, r) (Permutation_sym Hf)
                  (allFaces_complete s r)) as Hin.
    destruct (proj1 (in_map_iff face _ (s, r)) Hin) as (c & Hc & Hc').
    exists c. unfold face in Hc. injection Hc as Hs Hr. auto.
  - rewrite Forall_forall. intros c Hc.
    pose proof (Permutation_in c Hp Hc) as Hb.
    pose proof build_cards_plain as Hall. rewrite Forall_forall in Hall.
    apply Hall, Hb.
Qed.

(** ** The deal *)

Lemma last7 {A : Type} (l : list A) :
  (7 <= length l)%nat ->
  exists rest x1 x2 x3 x4 x5 x6 x7,
    l = ((((((rest ++ [x1]) ++ [x2]) ++ [x3]) ++ [x4]) ++ [x5]) ++ [x6])
        ++ [x7].
Proof.
  intros H. rewrite <- (rev_involutive l). rewrite <- length_rev in H.
  destruct (rev l) as [|y1 [|y2 [|y3 [|y4 [|y5 [|y6 [|y7 t]]]]]]];
    simpl in H; try lia.
  exists (rev t), y7, y6, y5, y4, y3, y2, y1. reflexivity.
Qed.

Lemma dealLoop_even n cc pile h0 h1 cur f1 f2 f3 f4 l c dl an k sp c1 c2 b :
  (cc mod 2 =? 0)%nat = true ->
  dealLoop (S n) cc
    (new_World
       (new_GameState pile (new_Player h0) (new_Player h1) cur f1 f2 f3 f4)
       (l ++ [c]) dl an (S k) sp c1 c2 b)
  = dealLoop n (S cc)
      (new_World
         (new_GameState pile (new_Player (h0 ++ [makeVisible c]))
            (new_Player h1) cur f1 f2 f3 f4)
         l dl an k sp (c1 ++ [makeVisible c]) c2 b).
Proof.
  intros H. cbn [dealLoop]. unfold takeFromDeck, drawCard.
  cbn [deckContainer deck Nat.ltb Nat.leb]. rewrite pop_app, H.
  cbn. rewrite Nat.sub_0_r. reflexivity.
Qed.

Lemma dealLoop_odd n cc pile h0 h1 cur f1 f2 f3 f4 l c dl an k sp c1 c2 b :
  (cc mod 2 =? 0)%nat = false ->
  dealLoop (S n) cc
    (new_World
       (new_GameState pile (new_Player h0) (new_Player h1) cur f1 f2 f3 f4)
       (l ++ [c]) dl an (S k) sp c1 c2 b)
  = dealLoop n (S cc)
      (new_World
         (new_GameState pile (new_Player h0) (new_Player (h1 ++ [c]))
            cur f1 f2 f3 f4)
         l dl an k sp c1 (c2 ++ [c]) b).
Proof.
  intros H. cbn [dealLoop]. unfold takeFromDeck, drawCard.
  cbn [deckContainer deck Nat.ltb Nat.leb]. rewrite pop_app, H.
  cbn. rewrite Nat.sub_0_r. reflexivity.
Qed.

Lemma addCardToDiscardPileFromDeck_last
  pile p0 p1 cur f1 f2 f3 f4 l c dl an k sp c1 c2 b :
  addCardToDiscardPileFromDeck
    (new_World (new_GameState pile p0 p1 cur f1 f2 f3 f4)
       (l ++ [c]) dl an (S k) sp c1 c2 b)
  = Some (new_World (new_GameState (pile ++ [c]) p0 p1 cur f1 f2 f3 f4)
            l dl an k (sp ++ [c]) c1 c2 b).
Proof.
  unfold addCardToDiscardPileFromDeck, takeFromDeck, drawCard.
  cbn [deckContainer deck Nat.ltb Nat.leb]. rewrite pop_app.
  cbn. rewrite Nat.sub_0_r. reflexivity.
Qed.

(** The state the deal ends in, for a deck whose last seven cards are
    named. *)
Lemma startGame_explicit (random : nat -> nat) :
  exists rest d b3 a3 b2 a2 b1 a1,
    new_Deck random suits ranks = rest ++ [d; b3; a3; b2; a2; b1; a1]
    /\ length rest = 45%nat
    /\ startGame (new_Game random)
       = Some
           (new_World
              (new_GameState [d]
                 (new_Player [makeVisible a1; makeVisible a2; makeVisible a3])
                 (new_Player [b1; b2; b3]) 0 false false false false)
              rest false false 46 [d]
              [makeVisible a1; makeVisible a2; makeVisible a3] [b1; b2; b3]
              (new_Buttons true true true true)).
Proof.
  destruct (last7 (new_Deck random suits ranks))
    as (rest & d & b3 & a3 & b2 & a2 & b1 & a1 & Hl).
  { rewrite new_Deck_length. lia. }
  exists rest, d, b3, a3, b2, a2, b1, a1.
  assert (Hlen : length rest = 45%nat).
  { pose proof (new_Deck_length random) as H.
    rewrite Hl, !length_app in H. simpl in H. lia. }
  split; [|split; [exact Hlen|]].
  - rewrite Hl, <- !app_assoc. reflexivity.
  - unfold startGame, new_Game. rewrite (new_Deck_length random).
    change (52 + 1)%nat with 53%nat. rewrite Hl.
    unfold with_gameState, with_flags, disableAllButtons, with_buttons,
      with_player2Flags, with_player1Flags, with_currentPlayerIndex.
    cbn [gameState deck isDealingCards isAnimating deckContainer
         discardPileSprites player1HandContainer player2HandContainer
         buttons discardPile players_0 players_1 currentPlayerIndex
         player1HasDrawn player1HasDiscarded player2HasDrawn
         player2HasDiscarded].
    rewrite dealLoop_even by reflexivity.
    rewrite dealLoop_odd by reflexivity.
    rewrite dealLoop_even by reflexivity.
    rewrite dealLoop_odd by reflexivity.
    rewrite dealLoop_even by reflexivity.
    rewrite dealLoop_odd by reflexivity.
    cbn [dealLoop]. rewrite addCardToDiscardPileFromDeck_last.
    reflexivity.
Qed.



(** ** The rounds that play can reach *)

Lemma removeChild_In (l : list Card) (s : Card) :
  In s l -> exists l1 l2, l = l1 ++ s :: l2 /\ removeChild l s = l1 ++ l2.
Proof.
  induction l as [|c l IH]; intros H; [contradiction|]. simpl.
  destruct (Card_eq_dec c s) as [->|Hn].
  - exists [], l. split; reflexivity.
  - destruct H as [H|H]; [contradiction|].
    destruct (IH H) as (l1 & l2 & -> & ->).
    exists (c :: l1), l2. split; reflexivity.
Qed.

Lemma Inv_drawCard (r : Round) (w : World) :
  Inv r -> pressDrawCard (world r) = Some w -> Inv (with_world r w).
Proof.
  intros HI. open_round r. open_inv HI.
  unfold pressDrawCard, drawCardForPlayer1, takeFromDeck, drawCard. projs.
  destruct drawCardActionButton0; [|intros H; injection H as <-; inv_same].
  destruct player1HasDrawn0; [intros H; injection H as <-; inv_same|].
  destruct (currentPlayerIndex0 =? 0)%nat eqn:Ecur;
    [|intros H; injection H as <-; inv_same].
  destruct isAnimating0; [intros H; injection H as <-; inv_same|].
  apply Nat.eqb_eq in Ecur. subst. projs.
  replace (length deck0 + 1)%nat with (S (length deck0)) by lia.
  cbn [Nat.ltb Nat.leb].
  destruct deck0 as [|c l _] using rev_ind; [discriminate|].
  rewrite pop_app.
  intros H. injection H as <-.
  inv_fields.
Qed.

Lemma Inv_drawFromPile (r : Round) (w : World) :
  Inv r -> pressDrawFromPile (world r) = Some w -> Inv (with_world r w).
Proof.
  intros HI. open_round r. open_inv HI.
  unfold pressDrawFromPile, drawCardFromDiscardPile. projs.
  destruct drawFromPileButton0; [|intros H; injection H as <-; inv_same].
  destruct player1HasDrawn0; [intros H; injection H as <-; inv_same|].
  destruct (currentPlayerIndex0 =? 0)%nat eqn:Ecur;
    [|intros H; injection H as <-; inv_same].
  destruct isAnimating0; [intros H; injection H as <-; inv_same|].
  apply Nat.eqb_eq in Ecur. subst. projs.
  destruct discardPile0 as [|c l _] using rev_ind;
    [intros H; injection H as <-; inv_same|].
  rewrite length_app. cbn [length].
  replace (0 <? length l + 1)%nat with true
    by (symmetry; apply Nat.ltb_lt; lia).
  rewrite !pop_app. cbn [snd].
  intros H. injection H as <-.
  inv_fields.
Qed.

Lemma Inv_discard (r : Round) (cardSprite : Card) :
  Inv r -> In cardSprite (player1HandContainer (world r)) ->
  Inv (with_world r (discardCard (world r) cardSprite)).
Proof.
  intros HI. open_round r. open_inv HI. projs.
  intros Hin. unfold discardCard. projs.
  destruct player1HasDrawn0; [|inv_same].
  destruct player1HasDiscarded0; [inv_same|].
  destruct (currentPlayerIndex0 =? 0)%nat eqn:Ecur; [|inv_same].
  destruct isAnimating0; [inv_same|].
  apply Nat.eqb_eq in Ecur. subst. projs.
  destruct (removeChild_In _ _ Hin) as (l1 & l2 & -> & ->).
  inv_fields.
Qed.

Lemma Inv_endTurn (r : Round) : Inv r -> Inv (roundPressEndTurn r).
Proof.
  intros HI. open_round r. open_inv HI.
  unfold roundPressEndTurn, endTurnAccepted, pressEndTurn, endTurnHandler.
  projs.
  destruct endTurnButton0; [|rewrite orb_false_r; inv_same].
  destruct (currentPlayerIndex0 =? 0)%nat eqn:Ecur;
    [|rewrite orb_false_r; inv_same].
  subst. projs.
  destruct turnTimer0; [inv_same|].
  apply Nat.eqb_eq in Ecur. subst. projs.
  inv_fields.
  intros _. split; [reflexivity|].
  destruct knockedPlayer0 as [k|]; [|reflexivity].
  destruct inv_knocked0 as (Hb & _); [discriminate|discriminate Hb].
Qed.

Lemma Inv_knock (r : Round) : Inv r -> Inv (pressKnock r).
Proof.
  intros HI. open_round r. open_inv HI. unfold pressKnock. projs.
  destruct knockButton0; [|inv_same].
  subst. projs.
  destruct turnTimer0; [inv_same|].
  inv_fields.
Qed.

Lemma shouldKnock_only_with_three (g : GameState) :
  length (hand (players_1 g)) <> 3%nat -> shouldKnock g = false.
Proof.
  intros H. unfold shouldKnock. apply Nat.eqb_neq in H. now rewrite H.
Qed.

Lemma nth_error_split_at {A : Type} (l : list A) (i : nat) (x : A) :
  nth_error l i = Some x ->
  exists l1 l2, l = l1 ++ x :: l2 /\ splice1 i l = l1 ++ l2.
Proof.
  revert i. induction l as [|y l IH]; intros [|i] H; simpl in H;
    try discriminate.
  - injection H as ->. exists [], l. split; reflexivity.
  - destruct (IH i H) as (l1 & l2 & -> & Hs).
    exists (y :: l1), l2. split; [reflexivity|].
    unfold splice1 in *. cbn [firstn skipn app]. f_equal. exact Hs.
Qed.

Lemma removeChild_first (l1 l2 : list Card) (s : Card) :
  ~ In s l1 -> removeChild (l1 ++ s :: l2) s = l1 ++ l2.
Proof.
  induction l1 as [|c l1 IH]; intros Hn; simpl.
  - destruct (Card_eq_dec s s); congruence.
  - destruct (Card_eq_dec c s) as [->|_].
    + exfalso. apply Hn. now left.
    + rewrite IH; [reflexivity|]. intros H. apply Hn. now right.
Qed.

(** The draw of player 2 on a state whose displays agree with the
    arrays: the card comes off the top of the deck or off the top of the
    pile and is appended to the hand of player 2. *)
Lemma player2DrawCard_effect
  pile h0 h1 cur f1 f2 f3 f4 dk dl an c1 b (w' : World) :
  player2DrawCard
    (new_World (new_GameState pile (new_Player h0) (new_Player h1)
                  cur f1 f2 f3 f4)
       dk dl an (length dk + 1) pile c1 h1 b) = Some w' ->
  (exists l c,
      dk = l ++ [c]
      /\ w' = new_World
                (new_GameState pile (new_Player h0) (new_Player (h1 ++ [c]))
                   cur f1 f2 true false)
                l dl an (length l + 1) pile c1 (h1 ++ [c]) b)
  \/ (exists l c,
         pile = l ++ [c]
         /\ w' = new_World
                   (new_GameState l (new_Player h0) (new_Player (h1 ++ [c]))
                      cur f1 f2 true false)
                   dk dl an (length dk + 1) l c1 (h1 ++ [c]) b).
Proof.
  unfold player2DrawCard. projs.
  destruct (shouldDrawFromDiscardPile _ _) as [v|]; [|discriminate].
  destruct (truthy v && (0 <? length pile)%nat) eqn:E.
  - apply andb_prop in E. destruct E as [_ E]. apply Nat.ltb_lt in E.
    unfold drawFromDiscardPile. projs.
    destruct pile as [|c l _] using rev_ind; [simpl in E; lia|].
    replace (length (l ++ [c]) <=? 0)%nat with false
      by (symmetry; apply Nat.leb_gt; rewrite length_app; simpl; lia).
    rewrite !pop_app. cbn [snd]. intros H. injection H as <-.
    right. exists l, c. split; reflexivity.
  - unfold drawFromDeck, drawCard. projs.
    replace (length dk + 1 <=? 0)%nat with false
      by (symmetry; apply Nat.leb_gt; lia).
    destruct dk as [|c l _] using rev_ind; [discriminate|].
    rewrite pop_app. intros H. injection H as <-.
    left. exists l, c. split; [reflexivity|]. flatten.
    rewrite length_app. cbn [length].
    replace (length l + 1 + 1 - 1)%nat with (length l + 1)%nat by lia.
    reflexivity.
Qed.

(** The discard of player 2 on a state whose display agrees with the
    array and shows no card twice: one card leaves the hand, on display
    and in the array alike, and lands on top of the pile. *)
Lemma player2DiscardCard_effect
  pile sp h0 h cur f1 f2 f3 f4 dk dl an dc c1 b (w' : World) :
  NoDup h -> h <> [] ->
  player2DiscardCard
    (new_World (new_GameState pile (new_Player h0) (new_Player h)
                  cur f1 f2 f3 f4)
       dk dl an dc sp c1 h b) = Some w' ->
  exists l1 s l2,
    h = l1 ++ s :: l2
    /\ selectCardToDiscard h = Some (Z.of_nat (length l1))
    /\ w' = new_World
              (new_GameState (pile ++ [s]) (new_Player h0)
                 (new_Player (l1 ++ l2)) cur f1 f2 f3 f4)
              dk dl an dc (sp ++ [s]) c1 (l1 ++ l2) b.
Proof.
  intros Hnd Hne. unfold player2DiscardCard. projs.
  replace (length h <=? 0)%nat with false
    by (symmetry; apply Nat.leb_gt; destruct h; simpl; [congruence|lia]).
  destruct (selectCardToDiscard_valid h Hne) as (i & Hi & Hlt).
  rewrite Hi.
  assert (Hpos : (Z.of_nat i <? 0) = false) by (apply Z.ltb_ge; lia).
  assert (Hmatch : forall (A : Type) (a b : A),
             match Z.of_nat i with
             | -1 => a
             | _ => b
             end = b).
  { intros A a b0. destruct (Z.of_nat i) as [|p|p] eqn:E; try reflexivity.
    exfalso. lia. }
  rewrite Hmatch, Hpos, Nat2Z.id.
  destruct (nth_error h i) as [s|] eqn:Es.
  2:{ apply nth_error_None in Es. lia. }
  destruct (nth_error_split_at h i s Es) as (l1 & l2 & Hh & Hsp).
  subst h.
  assert (Hl1 : length l1 = i).
  { clear - Es Hnd.
    revert i Es. induction l1 as [|y l1 IH]; intros [|i] Es; simpl in *.
    - reflexivity.
    - exfalso. apply nth_error_In in Es.
      inversion Hnd; subst. contradiction.
    - exfalso. injection Es as ->. inversion Hnd as [|? ? Hx _]; subst.
      apply Hx. apply in_or_app. right. now left.
    - f_equal. apply IH; [|exact Es]. now inversion Hnd. }
  intros H. injection H as <-.
  exists l1, s, l2. split; [reflexivity|]. split; [now rewrite Hl1|].
  rewrite Hsp, removeChild_first; [reflexivity|].
  apply NoDup_remove_2 in Hnd. intros Hin. apply Hnd.
  apply in_or_app. now left.
Qed.

Lemma NoDup_of_faces (l : list Card) : NoDup (map face l) -> NoDup l.
Proof. apply NoDup_map_inv. Qed.

Lemma NoDup_display_hand2 (dk pile c1 h : list Card) :
  Permutation (map face (dk ++ pile ++ c1 ++ h)) allFaces -> NoDup h.
Proof.
  intros H. apply NoDup_of_faces.
  assert (Hnd : NoDup (map face (dk ++ pile ++ c1 ++ h))).
  { eapply Permutation_NoDup; [apply Permutation_sym, H|apply NoDup_allFaces]. }
  rewrite !map_app in Hnd.
  do 3 apply NoDup_app_remove_l in Hnd. exact Hnd.
Qed.

Lemma Inv_timer (r r' : Round) :
  Inv r -> turnTimer r = true -> timerFires r = Some r' -> Inv r'.
Proof.
  intros HI. open_round r. open_inv HI. projs. intros ->.
  destruct inv_timer_turn0 as [-> ->]; [reflexivity|]. subst.
  unfold timerFires, performTurn. projs. flatten.
  rewrite inv_three0. cbn [Nat.eqb andb].
  destruct (shouldKnock _).
  { intros H. injection H as <-. inv_fields. }
  match goal with
  | |- context [player2DrawCard ?w] =>
      destruct (player2DrawCard w) as [w1|] eqn:Ed; [|discriminate]
  end.
  apply player2DrawCard_effect in Ed.
  destruct Ed as [(l & c & -> & ->)|(l & c & -> & ->)].
  - assert (HP : Permutation
                   (map face (l ++ discardPile0 ++ player1HandContainer0
                              ++ (hand1 ++ [c]))) allFaces)
      by (eapply perm_trans; [|eassumption]; apply Permutation_map; perm).
    clear inv_cards0. projs.
    rewrite shouldKnock_only_with_three
      by (projs; rewrite length_app; cbn [length]; lia).
    match goal with
    | |- context [player2DiscardCard ?w] =>
        destruct (player2DiscardCard w) as [w2|] eqn:Eq; [|discriminate]
    end.
    apply player2DiscardCard_effect in Eq;
      [|eapply NoDup_display_hand2, HP
       |intros E; apply app_eq_nil in E; destruct E; discriminate].
    destruct Eq as (l1 & s & l2 & Hh & _ & ->).
    rewrite Hh in HP.
    apply (f_equal (@length Card)) in Hh. rewrite !length_app in Hh.
    cbn [length] in Hh.
    intros H. injection H as <-. inv_fields.
    all: rewrite inv_phase0;
      destruct (player1HasDrawn0 && negb player1HasDiscarded0);
      cbn [Nat.eqb]; intros; first [discriminate | reflexivity].
  - assert (HP : Permutation
                   (map face (deck0 ++ l ++ player1HandContainer0
                              ++ (hand1 ++ [c]))) allFaces)
      by (eapply perm_trans; [|eassumption]; apply Permutation_map; perm).
    clear inv_cards0. projs.
    rewrite shouldKnock_only_with_three
      by (projs; rewrite length_app; cbn [length]; lia).
    match goal with
    | |- context [player2DiscardCard ?w] =>
        destruct (player2DiscardCard w) as [w2|] eqn:Eq; [|discriminate]
    end.
    apply player2DiscardCard_effect in Eq;
      [|eapply NoDup_display_hand2, HP
       |intros E; apply app_eq_nil in E; destruct E; discriminate].
    destruct Eq as (l1 & s & l2 & Hh & _ & ->).
    rewrite Hh in HP.
    apply (f_equal (@length Card)) in Hh. rewrite !length_app in Hh.
    cbn [length] in Hh.
    intros H. injection H as <-. inv_fields.
    all: rewrite inv_phase0;
      destruct (player1HasDrawn0 && negb player1HasDiscarded0);
      cbn [Nat.eqb]; intros; first [discriminate | reflexivity].
Qed.

Lemma new_Deck_faces (random : nat -> nat) :
  Permutation (map face (new_Deck random suits ranks)) allFaces.
Proof.
  change allFaces with (map face (build suits ranks)).
  apply Permutation_map, shuffle_perm.
Qed.

Lemma deal_order {A : Type} (x1 x2 x3 y1 y2 y3 : A) :
  Permutation [x1; x2; x3; y1; y2; y3] [y3; x3; y2; x2; y1; x1].
Proof.
  change [y3; x3; y2; x2; y1; x1] with ([y3; x3; y2; x2; y1] ++ x1 :: []).
  rewrite <- Permutation_middle. apply perm_skip. cbn [app].
  change [y3; x3; y2; x2; y1] with ([y3; x3; y2] ++ x2 :: [y1]).
  rewrite <- Permutation_middle. apply perm_skip. cbn [app].
  change [y3; x3; y2; y1] with ([y3] ++ x3 :: [y2; y1]).
  rewrite <- Permutation_middle. apply perm_skip. cbn [app].
  apply (Permutation_rev [y1; y2; y3]).
Qed.

Lemma Inv_deal (random : nat -> nat) (w : World) :
  startGame (new_Game random) = Some w -> Inv (new_Round w None false false).
Proof.
  destruct (startGame_explicit random)
    as (rest & d & b3 & a3 & b2 & a2 & b1 & a1 & Hd & Hlen & ->).
  intros H. injection H as <-.
  pose proof (new_Deck_faces random) as Hp. rewrite Hd in Hp.
  constructor; projs;
    try first [reflexivity | lia | congruence | intros; discriminate].
  - eapply perm_trans; [|exact Hp].
    rewrite !map_app. cbn [map app].
    apply Permutation_app_head, perm_skip.
    change (face (makeVisible a1)) with (face a1).
    change (face (makeVisible a2)) with (face a2).
    change (face (makeVisible a3)) with (face a3).
    apply deal_order.
Qed.

Lemma snapCardToPosition_perm (children : list Card) (cardSprite : Card)
  (cardIndex : Z) :
  In cardSprite children ->
  Permutation (snapCardToPosition children cardSprite cardIndex) children.
Proof.
  intros Hin. unfold snapCardToPosition. cbv zeta.
  generalize (Z.to_nat
                (Z.max 0 (Z.min (Z.of_nat (length children) - 1) cardIndex))).
  intros n.
  destruct (removeChild_In children cardSprite Hin) as (l1 & l2 & -> & ->).
  eapply perm_trans; [apply Permutation_sym, Permutation_middle|].
  eapply perm_trans; [|apply Permutation_middle].
  apply perm_skip. rewrite firstn_skipn. apply Permutation_refl.
Qed.

Lemma Inv_drag (r : Round) (cardSprite : Card) (cardIndex : Z) :
  Inv r -> In cardSprite (player1HandContainer (world r)) ->
  Inv (with_world r
         (with_player1HandContainer (world r)
            (snapCardToPosition (player1HandContainer (world r)) cardSprite
               cardIndex))).
Proof.
  intros HI Hin.
  pose proof (snapCardToPosition_perm _ _ cardIndex Hin) as Hp.
  pose proof (Permutation_length Hp) as Hl.
  open_round r. open_inv HI. flatten. projs.
  unfold onDisplay, visibleCards in *. cbn [world player1HandContainer] in *.
  constructor; projs; rewrite ?Hl; try assumption.
  - eapply perm_trans; [|eassumption]. apply Permutation_map.
    apply Permutation_app_head, Permutation_app_head, Permutation_app_tail.
    exact Hp.
  - intros x Hx. apply inv_held0. eapply Permutation_in; eassumption.
Qed.

Lemma reachable_invariant (r : Round) : reachable r -> Inv r.
Proof.
  induction 1 as [random w Hw|r r' _ IH Hs|r s i _ IH Hin].
  - exact (Inv_deal random w Hw).
  - destruct Hs as [r w Hw|r w Hw|r s Hin|r|r r' Ht Hf|r].
    + exact (Inv_drawCard r w IH Hw).
    + exact (Inv_drawFromPile r w IH Hw).
    + exact (Inv_discard r s IH Hin).
    + exact (Inv_endTurn r IH).
    + exact (Inv_timer r r' IH Ht Hf).
    + exact (Inv_knock r IH).
  - exact (Inv_drag r s i IH Hin).
Qed.

(** ** Rounds of two games *)

Lemma dealtRound_reachable : reachable dealtRound.
Proof.
  unfold dealtRound. apply (reachable_deal unshuffled afterDeal).
  vm_compute. reflexivity.
Qed.

Lemma drawnRound_reachable : reachable drawnRound.
Proof.
  apply (reachable_step dealtRound); [exact dealtRound_reachable|].
  unfold drawnRound. apply step_drawCard. vm_compute. reflexivity.
Qed.

Lemma discardedRound_reachable : reachable discardedRound.
Proof.
  apply (reachable_step drawnRound); [exact drawnRound_reachable|].
  replace discardedRound
    with (with_world drawnRound
            (discardCard (world drawnRound)
               (makeVisible (new_Card sym_spade spades rK 12 false))))
    by (vm_compute; reflexivity).
  apply step_discard. vm_compute. tauto.
Qed.

Lemma endedRound_reachable : reachable endedRound.
Proof.
  apply (reachable_step discardedRound); [exact discardedRound_reachable|].
  unfold endedRound. apply step_endTurn.
Qed.

Lemma endedRound_timer :
  turnTimer endedRound = true /\ timerFires endedRound = Some knockedRound.
Proof. split; vm_compute; reflexivity. Qed.

Lemma knockedRound_reachable : reachable knockedRound.
Proof.
  apply (reachable_step endedRound); [exact endedRound_reachable|].
  apply step_timer; apply endedRound_timer.
Qed.

Lemma knockedRound_knocked : knockedPlayer knockedRound <> None.
Proof. vm_compute. discriminate. Qed.





(** ** The draw decision of player 2 *)

Lemma existsb_ofSuit_count (k : Symbol) (l : list Card) :
  existsb (ofSuit k) l = (0 <? countSuit k l)%nat.
Proof.
  unfold countSuit, suitCards. induction l as [|c l IH]; simpl; [reflexivity|].
  destruct (ofSuit k c); simpl; [reflexivity|exact IH].
Qed.

Lemma countSuit_snoc (k : Symbol) (seen : list Card) (c : Card) :
  countSuit k (seen ++ [c])
  = (countSuit k seen + (if ofSuit k c then 1 else 0))%nat.
Proof.
  unfold countSuit, suitCards. rewrite filter_app, length_app. simpl.
  destruct (ofSuit k c); reflexivity.
Qed.

Lemma countSuit_none (k : Symbol) (seen : list Card) :
  existsb (ofSuit k) seen = false -> countSuit k seen = 0%nat.
Proof.
  rewrite existsb_ofSuit_count. intros H. apply Nat.ltb_ge in H. lia.
Qed.

Lemma addCount_ok (seen : list Card) (counts : Obj Z) (c : Card) :
  countsFor seen counts -> countsFor (seen ++ [c]) (addCount counts c).
Proof.
  intros [Hnd Hget]. unfold addCount.
  set (s := getSuitSymbol (suit c)).
  split; [now apply obj_set_NoDup|].
  intros k. rewrite existsb_app, countSuit_snoc. simpl. rewrite orb_false_r.
  unfold ofSuit at 2 3. fold s.
  destruct (Symbol_eqb s k) eqn:E.
  - apply Symbol_eqb_eq in E. subst k.
    rewrite obj_get_set_same, orb_true_r, Hget. f_equal.
    destruct (existsb (ofSuit s) seen) eqn:Es; simpl.
    + lia.
    + rewrite (countSuit_none s seen Es). reflexivity.
  - apply Symbol_eqb_neq in E.
    rewrite obj_get_set_other, Hget, orb_false_r, Nat.add_0_r by congruence.
    reflexivity.
Qed.

Lemma fold_addCount_ok (rest seen : list Card) (counts : Obj Z) :
  countsFor seen counts ->
  countsFor (seen ++ rest) (fold_left addCount rest counts).
Proof.
  revert seen counts. induction rest as [|c rest IH]; intros seen acc H; simpl.
  - now rewrite app_nil_r.
  - replace (seen ++ c :: rest) with ((seen ++ [c]) ++ rest)
      by now rewrite <- app_assoc.
    apply IH, addCount_ok, H.
Qed.

Lemma suitCounts_ok (hand : list Card) : countsFor hand (suitCounts hand).
Proof.
  apply (fold_addCount_ok hand [] []). split; [constructor|reflexivity].
Qed.

Lemma suitCounts_get (hand : list Card) (k : Symbol) :
  obj_get k (suitCounts hand)
  = if (0 <? countSuit k hand)%nat then Some (Z.of_nat (countSuit k hand))
    else None.
Proof.
  destruct (suitCounts_ok hand) as [_ H]. rewrite H, existsb_ofSuit_count.
  reflexivity.
Qed.

Lemma points_get (hand : list Card) (k : Symbol) :
  obj_get k (calculatePointsBySuit hand)
  = if (0 <? countSuit k hand)%nat then Some (suitSum k hand) else None.
Proof.
  destruct (calculatePointsBySuit_ok hand) as [_ H].
  rewrite H, existsb_ofSuit_count. reflexivity.
Qed.

Lemma suitSum_nonneg (k : Symbol) (hand : list Card) : 0 <= suitSum k hand.
Proof. apply sumValues_nonneg. Qed.

Lemma suitSum_le_max (k : Symbol) (hand : list Card) :
  suitSum k hand <= maxOverSuits hand.
Proof.
  unfold maxOverSuits, symbols. cbn [fold_right]. destruct k; lia.
Qed.

Lemma maxOverSuits_bound (hand : list Card) (v : Z) :
  0 <= v -> (forall k, suitSum k hand <= v) -> maxOverSuits hand <= v.
Proof.
  intros H0 H. unfold maxOverSuits, symbols. cbn [fold_right].
  pose proof (H sym_heart). pose proof (H sym_diamond).
  pose proof (H sym_club). pose proof (H sym_spade). lia.
Qed.

Lemma currentBestSuit_spec (hand : list Card) :
  hand <> [] ->
  exists best rest,
    js_sort byPointsDescending (Object_entries (calculatePointsBySuit hand))
    = (best, maxOverSuits hand) :: rest
    /\ suitSum best hand = maxOverSuits hand
    /\ (0 < countSuit best hand)%nat.
Proof.
  intros Hne.
  destruct (calculatePointsBySuit_ok hand) as [Hnd Hget].
  set (o := calculatePointsBySuit hand) in *.
  destruct (js_sort byPointsDescending (Object_entries o))
    as [|[best v] rest] eqn:Hs.
  { exfalso. revert Hs. apply js_sort_nonempty. unfold Object_entries.
    destruct hand as [|c hand]; [congruence|].
    pose proof (points_get (c :: hand) (getSuitSymbol (suit c))) as Hc.
    fold o in Hc. unfold countSuit, suitCards in Hc. simpl in Hc.
    unfold ofSuit at 1 in Hc. rewrite Symbol_eqb_refl in Hc. simpl in Hc.
    intros E. rewrite E in Hc. discriminate. }
  destruct (js_sort_head byPointsDescending (fun e => - snd e)
              ltac:(intros; unfold byPointsDescending; lia) _ _ _ Hs)
    as (l1 & l2 & Hl & H1 & H2).
  cbv beta in H1, H2. cbn [snd] in H1, H2. unfold Object_entries in Hl.
  assert (Hin : In (best, v) o) by (rewrite Hl; apply in_or_app; right; now left).
  pose proof (In_obj_get _ _ _ Hnd Hin) as Hb. rewrite Hget in Hb.
  destruct (existsb (ofSuit best) hand) eqn:Eb; [|discriminate].
  injection Hb as Hb.
  assert (Hall : forall k, suitSum k hand <= v).
  { intros k. destruct (existsb (ofSuit k) hand) eqn:Ek.
    - pose proof (Hget k) as Hk. rewrite Ek in Hk. apply obj_get_In in Hk.
      rewrite Hl in Hk. apply in_app_or in Hk. destruct Hk as [Hk|[Hk|Hk]].
      + rewrite Forall_forall in H1. specialize (H1 _ Hk). simpl in H1. lia.
      + injection Hk as _ <-. lia.
      + rewrite Forall_forall in H2. specialize (H2 _ Hk). simpl in H2. lia.
    - rewrite (suitSum_none k hand Ek). subst v. apply suitSum_nonneg. }
  assert (Hv : v = maxOverSuits hand).
  { apply Z.le_antisymm.
    - subst v. apply suitSum_le_max.
    - apply maxOverSuits_bound; [subst v; apply suitSum_nonneg|exact Hall]. }
  exists best, rest. rewrite <- Hv. split; [reflexivity|]. split; [exact Hb|].
  rewrite existsb_ofSuit_count in Eb. now apply Nat.ltb_lt in Eb.
Qed.

Lemma shouldDraw_small (g : GameState) (top : Card) :
  hand (players_1 g) <> [] ->
  (length (hand (players_1 g)) < 4)%nat
  \/ 25 <= maxOverSuits (hand (players_1 g)) ->
  exists best v,
    currentBestSuit (hand (players_1 g))
    = Some (best, maxOverSuits (hand (players_1 g)))
    /\ suitSum best (hand (players_1 g)) = maxOverSuits (hand (players_1 g))
    /\ shouldDrawFromDiscardPile g (Some top) = Some v
    /\ truthy v = drawsFromPile best (hand (players_1 g)) top.
Proof.
  intros Hne Hsmall.
  destruct (currentBestSuit_spec _ Hne) as (best & rest & Hs & Hsum & Hpos).
  exists best.
  enough (H : exists v,
             shouldDrawFromDiscardPile g (Some top) = Some v
             /\ truthy v = drawsFromPile best (hand (players_1 g)) top).
  { destruct H as (v & H1 & H2). exists v. unfold currentBestSuit.
    rewrite Hs. auto. }
  unfold shouldDrawFromDiscardPile.
  set (h := hand (players_1 g)) in *.
  rewrite Hs. cbn [fst snd].
  replace (length h =? 0)%nat with false
    by (symmetry; apply Nat.eqb_neq; destruct h; simpl; [congruence|lia]).
  unfold drawsFromPile.
  set (s := getSuitSymbol (suit top)). set (x := rankOrder (rank top)).
  rewrite suitCounts_get.
  destruct (Symbol_eqb s best) eqn:Eb.
  { eexists. split; [reflexivity|]. reflexivity. }
  cbn [orb].
  assert (Hfalsy :
            falsy (if (0 <? countSuit s h)%nat
                   then Some (Z.of_nat (countSuit s h)) else None)
            || numLt (if (0 <? countSuit s h)%nat
                      then Some (Z.of_nat (countSuit s h)) else None) 2
            = (countSuit s h <? 2)%nat).
  { destruct (0 <? countSuit s h)%nat eqn:E0; simpl.
    - apply Nat.ltb_lt in E0.
      destruct (Nat.ltb_spec (countSuit s h) 2).
      + replace (Z.of_nat (countSuit s h) <? 2) with true
          by (symmetry; apply Z.ltb_lt; lia).
        apply orb_true_r.
      + replace (Z.of_nat (countSuit s h) <? 2) with false
          by (symmetry; apply Z.ltb_ge; lia).
        replace (Z.of_nat (countSuit s h) =? 0) with false
          by (symmetry; apply Z.eqb_neq; lia).
        reflexivity.
    - apply Nat.ltb_ge in E0. symmetry. apply Nat.ltb_lt. lia. }
  rewrite Hfalsy.
  destruct (10 <=? x) eqn:E10; cbn [andb orb].
  - destruct (countSuit s h <? 2)%nat eqn:E2; cbn [andb orb].
    { eexists. split; [reflexivity|]. reflexivity. }
    destruct (25 <=? maxOverSuits h) eqn:E25.
    { eexists. split; [reflexivity|]. cbn [truthy andb].
      replace (maxOverSuits h <? 25) with false
        by (symmetry; apply Z.ltb_ge; apply Z.leb_le in E25; lia).
      reflexivity. }
    replace (maxOverSuits h <? 25) with true
      by (symmetry; apply Z.ltb_lt; apply Z.leb_gt in E25; lia).
    destruct Hsmall as [Hlt|Hge]; [|apply Z.leb_gt in E25; lia].
    replace (4 <=? length h)%nat with false
      by (symmetry; apply Nat.leb_gt; exact Hlt).
    replace ((7 <=? x) && (x <=? 9)) with false
      by (symmetry; apply Z.leb_le in E10; apply andb_false_iff; right;
          apply Z.leb_gt; lia).
    eexists. split; [reflexivity|]. reflexivity.
  - destruct (25 <=? maxOverSuits h) eqn:E25.
    { eexists. split; [reflexivity|]. cbn [truthy andb].
      replace (maxOverSuits h <? 25) with false
        by (symmetry; apply Z.ltb_ge; apply Z.leb_le in E25; lia).
      reflexivity. }
    replace (maxOverSuits h <? 25) with true
      by (symmetry; apply Z.ltb_lt; apply Z.leb_gt in E25; lia).
    destruct Hsmall as [Hlt|Hge]; [|apply Z.leb_gt in E25; lia].
    replace (4 <=? length h)%nat with false
      by (symmetry; apply Nat.leb_gt; exact Hlt).
    cbn [andb orb].
    destruct ((7 <=? x) && (x <=? 9)) eqn:E79.
    + destruct (0 <? countSuit s h)%nat eqn:E0.
      * apply Nat.ltb_lt in E0.
        replace (Z.of_nat (countSuit s h) =? 0) with false
          by (symmetry; apply Z.eqb_neq; lia).
        eexists. split; [reflexivity|]. cbn [truthy].
        apply Z.ltb_lt. lia.
      * eexists. split; [reflexivity|]. reflexivity.
    + eexists. split; [reflexivity|]. reflexivity.
Qed.

(** ** [findWeakestCard] *)

Lemma suitCards_snoc (k : Symbol) (seen : list Card) (c : Card) :
  suitCards k (seen ++ [c])
  = suitCards k seen ++ (if ofSuit k c then [c] else []).
Proof.
  unfold suitCards. rewrite filter_app. simpl. now destruct (ofSuit k c).
Qed.

Lemma suitCards_none (k : Symbol) (seen : list Card) :
  existsb (ofSuit k) seen = false -> suitCards k seen = [].
Proof.
  intros H. apply countSuit_none in H. now apply length_zero_iff_nil.
Qed.

Lemma addToSuit_ok (seen : list Card) (groups : Obj (list Card)) (c : Card) :
  suitsFor seen groups -> suitsFor (seen ++ [c]) (addToSuit groups c).
Proof.
  intros [Hnd Hget]. unfold addToSuit.
  set (s := getSuitSymbol (suit c)).
  set (groups' := match obj_get s groups with
                  | None => obj_set s [] groups
                  | Some _ => groups
                  end).
  assert (Hnd' : NoDup (Object_keys groups')).
  { unfold groups'. destruct (obj_get s groups); [|apply obj_set_NoDup];
      exact Hnd. }
  assert (Hs : obj_get s groups' = Some (suitCards s seen)).
  { unfold groups'. rewrite (Hget s).
    destruct (existsb (ofSuit s) seen) eqn:E.
    - now rewrite Hget, E.
    - now rewrite obj_get_set_same, suitCards_none. }
  assert (Ho : forall k, k <> s -> obj_get k groups' = obj_get k groups).
  { intros k Hk. unfold groups'. destruct (obj_get s groups); [reflexivity|].
    now apply obj_get_set_other. }
  rewrite Hs. split; [now apply obj_set_NoDup|].
  intros k. rewrite existsb_app, suitCards_snoc. simpl. rewrite orb_false_r.
  unfold ofSuit at 2 3. fold s.
  destruct (Symbol_eqb s k) eqn:E.
  - apply Symbol_eqb_eq in E. subst k.
    rewrite obj_get_set_same, orb_true_r. reflexivity.
  - apply Symbol_eqb_neq in E.
    rewrite obj_get_set_other, Ho, Hget, orb_false_r, app_nil_r by congruence.
    reflexivity.
Qed.

Lemma fold_addToSuit_ok (rest seen : list Card) (groups : Obj (list Card)) :
  suitsFor seen groups ->
  suitsFor (seen ++ rest) (fold_left addToSuit rest groups).
Proof.
  revert seen groups. induction rest as [|c rest IH]; intros seen acc H; simpl.
  - now rewrite app_nil_r.
  - replace (seen ++ c :: rest) with ((seen ++ [c]) ++ rest)
      by now rewrite <- app_assoc.
    apply IH, addToSuit_ok, H.
Qed.

Lemma cardsBySuit_ok (hand : list Card) :
  suitsFor hand (fold_left addToSuit hand []).
Proof.
  apply (fold_addToSuit_ok hand [] []). split; [constructor|reflexivity].
Qed.

Lemma sumOfRanks_from (cs : list Card) (a : Z) :
  fold_left (fun sum card => sum + rankOrder (rank card)) cs a
  = a + sumValues cs.
Proof.
  revert a. induction cs as [|c cs IH]; intros a; simpl; [lia|].
  rewrite IH. lia.
Qed.

Lemma sumOfRanks_sumValues (cs : list Card) : sumOfRanks cs = sumValues cs.
Proof. unfold sumOfRanks. rewrite sumOfRanks_from. lia. Qed.

Lemma pointsOfGroups_from (l : Obj (list Card)) (acc : Obj Z) (k : Symbol) :
  NoDup (Object_keys l) ->
  obj_get k
    (fold_left
       (fun pointsBySuit e => obj_set (fst e) (sumOfRanks (snd e)) pointsBySuit)
       l acc)
  = match obj_get k l with
    | Some cs => Some (sumOfRanks cs)
    | None => obj_get k acc
    end.
Proof.
  revert acc. induction l as [|[k0 cs0] l IH]; intros acc Hnd; simpl.
  - reflexivity.
  - inversion Hnd as [|? ? Hk0 Hnd']; subst. rewrite (IH _ Hnd').
    destruct (Symbol_eqb k k0) eqn:E.
    + apply Symbol_eqb_eq in E. subst k0.
      replace (obj_get k l) with (@None (list Card))
        by (symmetry; now apply obj_get_None).
      apply obj_get_set_same.
    + apply Symbol_eqb_neq in E.
      destruct (obj_get k l); [reflexivity|].
      now apply obj_get_set_other.
Qed.

Lemma pointsOfGroups_get (G : Obj (list Card)) (k : Symbol) :
  NoDup (Object_keys G) ->
  obj_get k (pointsOfGroups G) = option_map sumOfRanks (obj_get k G).
Proof.
  intros Hnd. unfold pointsOfGroups, Object_entries.
  rewrite pointsOfGroups_from by exact Hnd.
  now destruct (obj_get k G).
Qed.

Section SortOrder.
Context {A : Type}.
Variable cmp : A -> A -> Z.
Hypothesis cmp_trans :
  forall a b c, cmp a b <= 0 -> cmp b c <= 0 -> cmp a c <= 0.
Hypothesis cmp_asym : forall a b, 0 < cmp a b -> cmp b a <= 0.

(** For a comparator that orders the elements, none of them comes
    before the first element of the sorted array. *)
Lemma js_sort_first (l : list A) (h : A) (t : list A) :
  js_sort cmp l = h :: t -> forall y, In y l -> cmp h y <= 0.
Proof.
  revert h t. induction l as [|x l IH]; intros h t Hs y Hy; [contradiction|].
  simpl in Hs. destruct (js_sort cmp l) as [|h' t'] eqn:Hl.
  - assert (l = []) as ->.
    { apply length_zero_iff_nil. rewrite <- (js_sort_length cmp l), Hl.
      reflexivity. }
    simpl in Hs. injection Hs as <- <-. destruct Hy as [<-|[]].
    destruct (Z.lt_ge_cases 0 (cmp x x)) as [H|H]; [|lia].
    now apply cmp_asym.
  - simpl in Hs. destruct (0 <? cmp x h') eqn:E.
    + injection Hs as <- <-. apply Z.ltb_lt in E.
      destruct Hy as [<-|Hy]; [now apply cmp_asym|].
      eapply IH; eauto.
    + injection Hs as <- <-. apply Z.ltb_ge in E.
      destruct Hy as [<-|Hy].
      * destruct (Z.lt_ge_cases 0 (cmp x x)) as [H|H]; [|lia].
        now apply cmp_asym.
      * eapply cmp_trans; [exact E|]. eapply IH; eauto.
Qed.
End SortOrder.

Lemma byCountThenPoints_le (P : Obj Z) (a b : Symbol * list Card) :
  byCountThenPoints P a b <= 0
  <-> (length (snd a) < length (snd b))%nat
      \/ (length (snd a) = length (snd b)
          /\ orZero (obj_get (fst a) P) <= orZero (obj_get (fst b) P)).
Proof.
  unfold byCountThenPoints.
  destruct (Nat.eqb_spec (length (snd a)) (length (snd b))); simpl; lia.
Qed.

Lemma findWeakestCard_spec (hand : list Card) :
  hand <> [] ->
  exists c,
    findWeakestCard hand = Some c
    /\ In c hand
    /\ (forall c', In c' hand ->
                   getSuitSymbol (suit c') = getSuitSymbol (suit c) ->
                   rankOrder (rank c) <= rankOrder (rank c'))
    /\ (forall k, (0 < countSuit k hand)%nat ->
                  (countSuit (getSuitSymbol (suit c)) hand < countSuit k hand)%nat
                  \/ (countSuit (getSuitSymbol (suit c)) hand = countSuit k hand
                      /\ suitSum (getSuitSymbol (suit c)) hand
                         <= suitSum k hand)).
Proof.
  intros Hne. unfold findWeakestCard.
  destruct (cardsBySuit_ok hand) as [Hnd Hget].
  set (G := fold_left addToSuit hand []) in *.
  set (P := pointsOfGroups G).
  assert (HP : forall k, orZero (obj_get k P)
                         = if existsb (ofSuit k) hand then suitSum k hand
                           else 0).
  { intros k. unfold P. rewrite pointsOfGroups_get, Hget by exact Hnd.
    destruct (existsb (ofSuit k) hand); simpl; [|reflexivity].
    apply sumOfRanks_sumValues. }
  destruct (js_sort (byCountThenPoints P) (Object_entries G))
    as [|[weakestSuit cs0] rest] eqn:Hs.
  { exfalso. revert Hs. apply js_sort_nonempty. unfold Object_entries.
    destruct hand as [|c hand]; [congruence|].
    pose proof (Hget (getSuitSymbol (suit c))) as Hc. simpl in Hc.
    unfold ofSuit at 1 in Hc. rewrite Symbol_eqb_refl in Hc. simpl in Hc.
    intros E. rewrite E in Hc. discriminate. }
  assert (Hfirst : forall y, In y (Object_entries G) ->
                             byCountThenPoints P (weakestSuit, cs0) y <= 0).
  { apply (js_sort_first (byCountThenPoints P)) with (t := rest);
      [| |exact Hs].
    - intros a b c. rewrite !byCountThenPoints_le. lia.
    - intros a b H. apply byCountThenPoints_le.
      assert (~ byCountThenPoints P a b <= 0) as Hn by lia.
      rewrite byCountThenPoints_le in Hn. lia. }
  assert (Hin : In (weakestSuit, cs0) G).
  { apply (js_sort_In (byCountThenPoints P) (Object_entries G)).
    rewrite Hs. now left. }
  pose proof (In_obj_get _ _ _ Hnd Hin) as Hw. rewrite Hw.
  rewrite Hget in Hw.
  destruct (existsb (ofSuit weakestSuit) hand) eqn:Ew; [|discriminate].
  injection Hw as Hcs.
  destruct (js_sort byRank cs0) as [|c t] eqn:Hr.
  { exfalso. revert Hr. apply js_sort_nonempty. subst cs0.
    rewrite existsb_ofSuit_count in Ew. apply Nat.ltb_lt in Ew.
    unfold countSuit in Ew. intros E. rewrite E in Ew. simpl in Ew. lia. }
  destruct (js_sort_head byRank (fun c => rankOrder (rank c))
              ltac:(intros; reflexivity) _ _ _ Hr)
    as (l1 & l2 & Hl & H1 & H2).
  cbv beta in H1, H2.
  assert (Hc : In c cs0) by (rewrite Hl; apply in_or_app; right; now left).
  assert (Hc' : In c hand /\ ofSuit weakestSuit c = true).
  { rewrite <- Hcs in Hc. unfold suitCards in Hc. now apply filter_In in Hc. }
  destruct Hc' as [Hch Hcw]. unfold ofSuit in Hcw.
  apply Symbol_eqb_eq in Hcw.
  exists c. rewrite Hcw. split; [reflexivity|]. split; [exact Hch|]. split.
  - intros c' Hc'h Hk.
    assert (In c' cs0) as Hc'.
    { rewrite <- Hcs. unfold suitCards. apply filter_In. split; [exact Hc'h|].
      unfold ofSuit. now apply Symbol_eqb_eq. }
    rewrite Hl in Hc'. apply in_app_or in Hc'.
    destruct Hc' as [Hc'|[<-|Hc']].
    + rewrite Forall_forall in H1. specialize (H1 _ Hc'). lia.
    + lia.
    + rewrite Forall_forall in H2. now apply H2.
  - intros k Hk.
    assert (Ek : existsb (ofSuit k) hand = true).
    { rewrite existsb_ofSuit_count. now apply Nat.ltb_lt. }
    pose proof (Hget k) as Hgk. rewrite Ek in Hgk. apply obj_get_In in Hgk.
    specialize (Hfirst _ Hgk). apply byCountThenPoints_le in Hfirst.
    cbn [fst snd] in Hfirst. rewrite !HP, Ek, Ew in Hfirst.
    subst cs0. unfold countSuit. exact Hfirst.
Qed.

Lemma isCardBetterThanWeakest_total (newCard weakestCard : Card)
  (hand : list Card) :
  hand <> [] ->
  exists b, isCardBetterThanWeakest newCard weakestCard hand = Some b.
Proof.
  intros Hne. unfold isCardBetterThanWeakest.
  destruct (currentBestSuit_spec hand Hne) as (best & rest & -> & _).
  repeat match goal with
         | |- context [if ?b then _ else _] => destruct b
         end; eauto.
Qed.

Lemma shouldDraw_total (g : GameState) (top : option Card) :
  exists v, shouldDrawFromDiscardPile g top = Some v.
Proof.
  unfold shouldDrawFromDiscardPile. destruct top as [top|]; [|eauto].
  destruct (length (hand (players_1 g)) =? 0)%nat eqn:E0; [eauto|].
  assert (Hne : hand (players_1 g) <> []).
  { intros E. rewrite E in E0. discriminate. }
  destruct (currentBestSuit_spec _ Hne) as (best & rest & -> & _).
  destruct (findWeakestCard_spec _ Hne) as (weakest & -> & _).
  destruct (isCardBetterThanWeakest_total top weakest _ Hne) as (b & ->).
  cbn [option_map].
  repeat match goal with
         | |- context [if ?b then _ else _] => destruct b
         end; eauto.
  destruct (obj_get _ _) as [n|]; [|eauto].
  destruct (n =? 0); eauto.
Qed.

(** X16: [shouldDrawFromDiscardPile] never throws: for every game state
    and every top card (or none) it returns a value; without a top card
    the value is [false], and with a top card and an empty hand it is
    [true].  In particular the first entry of the sorted per-suit points
    is read only when the hand has a card, and [findWeakestCard] and
    [isCardBetterThanWeakest] return for every hand they are called on. *)
Theorem shouldDrawFromDiscardPile_never_throws (g : GameState)
  (top : option Card) :
  exists v,
    shouldDrawFromDiscardPile g top = Some v
    /\ (top = None -> v = js_boolean false)
    /\ (top <> None -> hand (players_1 g) = [] -> v = js_boolean true).
Proof.
  destruct (shouldDraw_total g top) as [v Hv]. exists v.
  split; [exact Hv|]. split.
  - intros ->. simpl in Hv. congruence.
  - intros Ht He. destruct top as [c|]; [|congruence].
    unfold shouldDrawFromDiscardPile in Hv. rewrite He in Hv. simpl in Hv.
    congruence.
Qed.

(** X17: the draw decision on a hand of one to three cards, or on any
    hand whose best suit scores 25 or more.  With [best] the suit
    [currentBestSuit] picks, whose total is the largest per-suit total of
    the hand, the value returned is truthy exactly when the top card is
    of suit [best], or is worth 10 or more and either fewer than two
    cards of its suit are in the hand or the best total is below 25, or
    is worth 7 to 9 with the best total below 25 and a card of its suit
    in the hand.  With 25 or more the branch
    [discardCardSuit === currentBestSuit[0] && discardCardValue >= 8]
    never answers [true]. *)
Theorem shouldDrawFromDiscardPile_small_hand (g : GameState) (top : Card) :
  hand (players_1 g) <> [] ->
  (length (hand (players_1 g)) < 4)%nat
  \/ 25 <= maxOverSuits (hand (players_1 g)) ->
  exists best v,
    currentBestSuit (hand (players_1 g))
    = Some (best, maxOverSuits (hand (players_1 g)))
    /\ suitSum best (hand (players_1 g)) = maxOverSuits (hand (players_1 g))
    /\ shouldDrawFromDiscardPile g (Some top) = Some v
    /\ truthy v = drawsFromPile best (hand (players_1 g)) top.
Proof. exact (shouldDraw_small g top). Qed.

Lemma shouldDrawFromDiscardPile_small_hand_witness :
  exists best v,
    currentBestSuit (hand (players_1 strongHandState))
    = Some (best, maxOverSuits (hand (players_1 strongHandState)))
    /\ suitSum best (hand (players_1 strongHandState))
       = maxOverSuits (hand (players_1 strongHandState))
    /\ shouldDrawFromDiscardPile strongHandState (Some (card hearts rK))
       = Some v
    /\ truthy v
       = drawsFromPile best (hand (players_1 strongHandState))
           (card hearts rK).
Proof.
  apply (shouldDrawFromDiscardPile_small_hand strongHandState
           (card hearts rK)).
  - vm_compute. discriminate.
  - left. vm_compute. lia.
Defined.

(** X18: for every hand with a card, [findWeakestCard] returns a card of
    the hand; no card of the same suit in the hand has a lower rank
    value; and its suit is one with the fewest cards among the suits of
    the hand, with the lowest total among the suits that have as few. *)
Theorem findWeakestCard_lowest_of_thinnest_suit (hand : list Card) :
  hand <> [] ->
  exists c,
    findWeakestCard hand = Some c
    /\ In c hand
    /\ (forall c', In c' hand ->
                   getSuitSymbol (suit c') = getSuitSymbol (suit c) ->
                   rankOrder (rank c) <= rankOrder (rank c'))
    /\ (forall k, (0 < countSuit k hand)%nat ->
                  (countSuit (getSuitSymbol (suit c)) hand < countSuit k hand)%nat
                  \/ (countSuit (getSuitSymbol (suit c)) hand = countSuit k hand
                      /\ suitSum (getSuitSymbol (suit c)) hand
                         <= suitSum k hand)).
Proof. exact (findWeakestCard_spec hand). Qed.

Lemma findWeakestCard_lowest_of_thinnest_suit_witness :
  exists c,
    findWeakestCard
      [card spades rA; card hearts r7; card spades r9; card hearts r2]
    = Some c
    /\ In c [card spades rA; card hearts r7; card spades r9; card hearts r2]
    /\ (forall c',
          In c' [card spades rA; card hearts r7; card spades r9;
                 card hearts r2] ->
          getSuitSymbol (suit c') = getSuitSymbol (suit c) ->
          rankOrder (rank c) <= rankOrder (rank c'))
    /\ (forall k,
          (0 < countSuit k [card spades rA; card hearts r7; card spades r9;
                            card hearts r2])%nat ->
          (countSuit (getSuitSymbol (suit c))
             [card spades rA; card hearts r7; card spades r9; card hearts r2]
           < countSuit k
               [card spades rA; card hearts r7; card spades r9;
                card hearts r2])%nat
          \/ (countSuit (getSuitSymbol (suit c))
                [card spades rA; card hearts r7; card spades r9;
                 card hearts r2]
              = countSuit k
                  [card spades rA; card hearts r7; card spades r9;
                   card hearts r2]
              /\ suitSum (getSuitSymbol (suit c))
                   [card spades rA; card hearts r7; card spades r9;
                    card hearts r2]
                 <= suitSum k
                      [card spades rA; card hearts r7; card spades r9;
                       card hearts r2])).
Proof.
  apply (findWeakestCard_lowest_of_thinnest_suit
           [card spades rA; card hearts r7; card spades r9; card hearts r2]).
  discriminate.
Defined.

(** ** The card [selectCardToDiscard] picks is a lowest card of its suit *)

Lemma keepStrongSuit_lowest (hand : list Card) (G : Obj Group)
  (r : option Z) :
  keepStrongSuit hand G = Return r -> lowestOfItsSuit hand r.
Proof.
  unfold keepStrongSuit.
  set (strongSuits := filter _ (Object_entries G)).
  destruct (0 <? length strongSuits)%nat eqn:Hs; [|discriminate].
  destruct (js_sort _ strongSuits) as [|[strongestSuit g] t] eqn:Es.
  { exfalso. eapply js_sort_nonempty; [|exact Es].
    now apply length_pos_nonempty. }
  set (weak := filter _ (indexed hand)).
  destruct (0 <? length weak)%nat eqn:Hw; [|discriminate].
  destruct (js_sort _ weak) as [|[c i] t'] eqn:Ew.
  { exfalso. eapply js_sort_nonempty; [|exact Ew].
    now apply length_pos_nonempty. }
  intros H. injection H as <-.
  destruct (js_sort_head _ (fun item : Card * nat => rankOrder (rank (fst item)))
              ltac:(intros; reflexivity) _ _ _ Ew)
    as (l1 & l2 & Hl & H1 & H2).
  cbv beta in H1, H2. cbn [fst] in H1, H2.
  assert (Hin : In (c, i) weak).
  { rewrite Hl. apply in_or_app. right. now left. }
  apply filter_In in Hin. destruct Hin as [Hin Hoff]. cbn [fst] in Hoff.
  apply indexed_nth in Hin.
  exists i, c. split; [reflexivity|]. split; [exact Hin|].
  intros c' Hc' Hsame.
  apply In_nth_error in Hc'. destruct Hc' as [i' Hi'].
  assert (Hw' : In (c', i') weak).
  { apply filter_In. split; [now apply indexed_nth|]. cbn [fst].
    now rewrite Hsame. }
  rewrite Hl in Hw'. apply in_app_or in Hw'.
  destruct Hw' as [Hw'|[Hw'|Hw']].
  - rewrite Forall_forall in H1. specialize (H1 _ Hw'). simpl in H1. lia.
  - injection Hw' as <- _. lia.
  - rewrite Forall_forall in H2. specialize (H2 _ Hw'). simpl in H2. exact H2.
Qed.

Lemma lowestAmong_group (hand : list Card) (g : Group)
  (items : list (Card * nat)) (done : list Card) (st : jsnum * option Z) :
  (forall j c, nth_error (cards g) j = Some c ->
               exists i, nth_error (indices g) j = Some i
                         /\ nth_error hand i = Some c) ->
  (forall item, In item items ->
                nth_error (cards g) (snd item) = Some (fst item)) ->
  lowestAmong hand done st ->
  lowestAmong hand (done ++ map fst items)
    (fold_left
       (fun st item =>
          let value := rankOrder (rank (fst item)) in
          if Js.lt (Num value) (fst st)
          then (Num value,
                option_map Z.of_nat (nth_error (indices g) (snd item)))
          else st)
       items st).
Proof.
  intros Hidx. revert done st.
  induction items as [|item items IH]; intros done st Hitems Hst;
    cbn [fold_left map].
  - now rewrite app_nil_r.
  - replace (done ++ fst item :: map fst items)
      with ((done ++ [fst item]) ++ map fst items)
      by now rewrite <- app_assoc.
    apply IH; [intros; apply Hitems; now right|].
    destruct (Hidx (snd item) (fst item)) as (i & Hi & Hc);
      [apply Hitems; now left|].
    cbv zeta. destruct Hst as [[-> ->]|(i0 & c0 & -> & Hc0 & Hin0 & Hlow)].
    + cbn [fst Js.lt]. right. exists i, (fst item). rewrite Hi.
      split; [reflexivity|]. split; [exact Hc|].
      split; [now left|]. intros c' [<-|[]]. lia.
    + cbn [fst Js.lt].
      destruct (rankOrder (rank (fst item)) <? rankOrder (rank c0)) eqn:E.
      * apply Z.ltb_lt in E. right. exists i, (fst item). rewrite Hi.
        split; [reflexivity|]. split; [exact Hc|].
        split; [apply in_or_app; right; now left|].
        intros c' Hc'. apply in_app_or in Hc'.
        destruct Hc' as [Hc'|[<-|[]]]; [|lia].
        specialize (Hlow _ Hc'). lia.
      * apply Z.ltb_ge in E. right. exists i0, c0.
        split; [reflexivity|]. split; [exact Hc0|].
        split; [apply in_or_app; now left|].
        intros c' Hc'. apply in_app_or in Hc'.
        destruct Hc' as [Hc'|[<-|[]]]; [now apply Hlow|exact E].
Qed.

Lemma lowestOfSuits_from (hand : list Card) (otherSuits : list Symbol)
  (done : list Card) (st : jsnum * option Z) :
  (forall s, In s otherSuits -> In s (Object_keys (groupBySuit hand))) ->
  lowestAmong hand done st ->
  exists st',
    fold_left
      (fun state suit =>
         match state, obj_get suit (groupBySuit hand) with
         | Some st, Some g =>
             Some (fold_left
                     (fun st item =>
                        let value := rankOrder (rank (fst item)) in
                        if Js.lt (Num value) (fst st)
                        then (Num value,
                              option_map Z.of_nat
                                (nth_error (indices g) (snd item)))
                        else st)
                     (indexed (cards g)) st)
         | _, _ => None
         end)
      otherSuits (Some st) = Some st'
    /\ lowestAmong hand
         (done ++ flat_map (fun s => suitCards s hand) otherSuits) st'.
Proof.
  revert done st.
  induction otherSuits as [|s rest IH]; intros done st Hkeys Hst;
    cbn [fold_left flat_map].
  - rewrite app_nil_r. eauto.
  - destruct (obj_get_key (groupBySuit hand) s) as [g Hg];
      [apply Hkeys; now left|].
    rewrite Hg.
    destruct (group_facts hand s g Hg) as (Hcards & _ & _ & _ & Hidx).
    rewrite app_assoc.
    apply IH; [intros; apply Hkeys; now right|].
    rewrite <- Hcards.
    replace (done ++ cards g)
      with (done ++ map fst (indexed (cards g)))
      by (unfold indexed; now rewrite indexed_from_map_fst).
    apply lowestAmong_group; [exact Hidx| |exact Hst].
    intros [c j] Hin. now apply indexed_nth in Hin.
Qed.

Lemma lowestOfSuits_lowest (hand : list Card) (otherSuits : list Symbol) :
  (forall s, In s otherSuits -> In s (Object_keys (groupBySuit hand))) ->
  exists st,
    lowestOfSuits (groupBySuit hand) otherSuits = Some st
    /\ lowestAmong hand (flat_map (fun s => suitCards s hand) otherSuits) st.
Proof.
  intros Hkeys.
  apply (lowestOfSuits_from hand otherSuits [] (Infinity, Some (-1)) Hkeys).
  left. split; reflexivity.
Qed.

Lemma keepTwoSuits_lowest (hand : list Card)
  (suitValues : list (Symbol * Group)) (r : option Z) :
  (forall e, In e suitValues -> In e (groupBySuit hand)) ->
  keepTwoSuits (groupBySuit hand) suitValues = Return r ->
  lowestOfItsSuit hand r.
Proof.
  intros Hsub. unfold keepTwoSuits.
  destruct (2 <=? length suitValues)%nat eqn:Hlen; [|discriminate].
  destruct suitValues as [|[bestSuit gb] [|[secondBestSuit gs] t]];
    try discriminate.
  assert (Hb : In (bestSuit, gb) (groupBySuit hand)) by (apply Hsub; now left).
  assert (Hs : In (secondBestSuit, gs) (groupBySuit hand))
    by (apply Hsub; right; now left).
  rewrite (entry_get _ _ _ Hb), (entry_get _ _ _ Hs).
  destruct (_ && _); [|discriminate].
  set (otherSuits := filter _ (Object_keys (groupBySuit hand))).
  destruct (0 <? length otherSuits)%nat; [|discriminate].
  destruct (lowestOfSuits_lowest hand otherSuits) as ([lv li] & -> & Hst).
  { intros s Hin. apply filter_In in Hin. tauto. }
  destruct Hst as [[Hst _]|(i & c & Hst & Hc & Hin & Hlow)].
  - injection Hst as -> ->. discriminate.
  - injection Hst as -> ->. intros H.
    assert (r = Some (Z.of_nat i)) as ->.
    { destruct (Z.of_nat i) as [|p|p] eqn:E; try congruence.
      exfalso. lia. }
    exists i, c. split; [reflexivity|]. split; [exact Hc|].
    intros c' Hc' Hsame. apply Hlow.
    apply in_flat_map in Hin. destruct Hin as (s & Hs' & Hcs).
    apply in_flat_map. exists s. split; [exact Hs'|].
    unfold suitCards in *. apply filter_In in Hcs. destruct Hcs as [_ Hcs].
    apply filter_In. split; [exact Hc'|].
    unfold ofSuit in *. now rewrite Hsame.
Qed.

Lemma lowestOfSuit_from (all : list Card) (items : list (Card * nat))
  (done : list Card) (st : nat * Z) :
  (forall item, In item items ->
                nth_error all (snd item) = Some (fst item)) ->
  (exists c, nth_error all (fst st) = Some c
             /\ snd st = rankOrder (rank c)
             /\ forall c', In c' done ->
                           rankOrder (rank c) <= rankOrder (rank c')) ->
  exists c,
    nth_error all
      (fst (fold_left
              (fun st item =>
                 let cardValue := rankOrder (rank (fst item)) in
                 if cardValue <? snd st then (snd item, cardValue) else st)
              items st)) = Some c
    /\ forall c', In c' (done ++ map fst items) ->
                  rankOrder (rank c) <= rankOrder (rank c').
Proof.
  revert done st.
  induction items as [|item items IH]; intros done st Hitems Hst;
    cbn [fold_left map].
  - rewrite app_nil_r. destruct Hst as (c & H1 & _ & H2). eauto.
  - replace (done ++ fst item :: map fst items)
      with ((done ++ [fst item]) ++ map fst items)
      by now rewrite <- app_assoc.
    apply IH; [intros; apply Hitems; now right|].
    destruct Hst as (c & Hc & Hv & Hlow). cbv zeta.
    destruct (rankOrder (rank (fst item)) <? snd st) eqn:E.
    + apply Z.ltb_lt in E. exists (fst item). cbn [fst snd].
      split; [apply Hitems; now left|]. split; [reflexivity|].
      intros c' Hc'. apply in_app_or in Hc'.
      destruct Hc' as [Hc'|[<-|[]]]; [|lia].
      specialize (Hlow _ Hc'). lia.
    + apply Z.ltb_ge in E. exists c. split; [exact Hc|].
      split; [exact Hv|]. intros c' Hc'. apply in_app_or in Hc'.
      destruct Hc' as [Hc'|[<-|[]]]; [now apply Hlow|lia].
Qed.

Lemma lowestOfSuit_lowest (first : Card) (rest : list Card) :
  exists c,
    nth_error (first :: rest) (fst (lowestOfSuit first rest)) = Some c
    /\ forall c', In c' (first :: rest) ->
                  rankOrder (rank c) <= rankOrder (rank c').
Proof.
  destruct (lowestOfSuit_from (first :: rest) (indexed_from 1 rest) [first]
              (0%nat, rankOrder (rank first))) as (c & Hc & Hlow).
  - intros [c j] Hin. apply indexed_from_nth in Hin. destruct Hin as [H1 H2].
    cbn [fst snd]. destruct j as [|j]; [lia|].
    cbn [nth_error]. now rewrite Nat.sub_succ, Nat.sub_0_r in H2.
  - exists first. split; [reflexivity|]. split; [reflexivity|].
    intros c' [<-|[]]. lia.
  - exists c. split; [exact Hc|]. intros c' Hc'. apply Hlow.
    rewrite indexed_from_map_fst. exact Hc'.
Qed.

Lemma discardFromWeakest_lowest (hand : list Card)
  (suitValues : list (Symbol * Group)) :
  suitValues <> [] ->
  (forall e, In e suitValues -> In e (groupBySuit hand)) ->
  lowestOfItsSuit hand (discardFromWeakest (groupBySuit hand) suitValues).
Proof.
  intros Hne Hsub. unfold discardFromWeakest.
  destruct (nth_error suitValues (length suitValues - 1))
    as [[weakestSuit gw]|] eqn:E.
  2:{ exfalso. apply nth_error_None in E.
      destruct suitValues; [congruence|simpl in E; lia]. }
  apply nth_error_In, Hsub, entry_get in E. rewrite E.
  destruct (group_facts hand weakestSuit gw E) as (Hcards & _ & Hc & Hl & Hidx).
  destruct (cards gw) as [|first rest] eqn:Ec; [congruence|].
  destruct (lowestOfSuit_lowest first rest) as (c & Hj & Hlow).
  destruct (Hidx _ c Hj) as (i & Hi & Hh).
  rewrite Hi. exists i, c. split; [reflexivity|]. split; [exact Hh|].
  intros c' Hc' Hsame. apply Hlow. rewrite Hcards.
  assert (Hcw : In c (suitCards weakestSuit hand)).
  { rewrite <- Hcards. eapply nth_error_In, Hj. }
  unfold suitCards in *. apply filter_In in Hcw. destruct Hcw as [_ Hcw].
  apply filter_In. split; [exact Hc'|]. unfold ofSuit in *. now rewrite Hsame.
Qed.

Lemma selectCardToDiscard_lowest (hand : list Card) :
  hand <> [] -> lowestOfItsSuit hand (selectCardToDiscard hand).
Proof.
  intros Hne. unfold selectCardToDiscard.
  destruct hand as [|c0 hand0] eqn:Eh; [congruence|].
  rewrite <- Eh in *. replace (length hand =? 0)%nat with false
    by (rewrite Eh; reflexivity).
  destruct (keepStrongSuit hand (groupBySuit hand)) as [r|] eqn:E1.
  { eapply keepStrongSuit_lowest, E1. }
  set (suitValues := js_sort bySizeThenValue (Object_entries (groupBySuit hand))).
  assert (Hsub : forall e, In e suitValues -> In e (groupBySuit hand)).
  { intros e He. now apply js_sort_In in He. }
  destruct (keepTwoSuits (groupBySuit hand) suitValues) as [r|] eqn:E2.
  { eapply keepTwoSuits_lowest; eauto. }
  apply discardFromWeakest_lowest; [|exact Hsub].
  apply js_sort_nonempty. unfold Object_entries.
  destruct (groupBySuit_has hand c0) as [g Hg]; [rewrite Eh; now left|].
  apply obj_get_In in Hg. intros H. rewrite H in Hg. contradiction.
Qed.

(** X21: for every hand with a card, [selectCardToDiscard] answers the
    position of a card that is a lowest card of its suit in the hand:
    whichever of its three steps returns, player 2 never discards a card
    while it holds a card of the same suit with a lower rank value. *)
Theorem selectCardToDiscard_never_undercuts (hand : list Card) :
  hand <> [] ->
  exists i c,
    selectCardToDiscard hand = Some (Z.of_nat i)
    /\ nth_error hand i = Some c
    /\ forall c', In c' hand ->
                  getSuitSymbol (suit c') = getSuitSymbol (suit c) ->
                  rankOrder (rank c) <= rankOrder (rank c').
Proof. exact (selectCardToDiscard_lowest hand). Qed.

Lemma selectCardToDiscard_never_undercuts_witness :
  exists i c,
    selectCardToDiscard
      [card spades rA; card hearts r7; card spades r9; card hearts r2]
    = Some (Z.of_nat i)
    /\ nth_error
         [card spades rA; card hearts r7; card spades r9; card hearts r2] i
       = Some c
    /\ forall c',
         In c' [card spades rA; card hearts r7; card spades r9;
                card hearts r2] ->
         getSuitSymbol (suit c') = getSuitSymbol (suit c) ->
         rankOrder (rank c) <= rankOrder (rank c').
Proof.
  apply (selectCardToDiscard_never_undercuts
           [card spades rA; card hearts r7; card spades r9; card hearts r2]).
  discriminate.
Defined.

(** ** The turn of player 2 *)

(** The turn of player 2 from a round that satisfies the invariant, with
    the state it ends in written out. *)
Lemma timerFires_outcome (r r' : Round) :
  Inv r -> turnTimer r = true -> timerFires r = Some r' ->
  let w := world r in
  let g := gameState w in
  (shouldKnock g = true
   /\ r' = new_Round
             (new_World g (deck w) false false (deckContainer w)
                (discardPileSprites w) (player1HandContainer w)
                (player2HandContainer w) (new_Buttons false false false false))
             (Some 1%nat) false false)
  \/ (shouldKnock g = false
      /\ exists dk pile c l1 s l2,
          ((deck w = dk ++ [c] /\ pile = discardPile g)
           \/ (discardPile g = pile ++ [c] /\ dk = deck w))
          /\ hand (players_1 g) ++ [c] = l1 ++ s :: l2
          /\ selectCardToDiscard (hand (players_1 g) ++ [c])
             = Some (Z.of_nat (length l1))
          /\ r' = new_Round
                    (new_World
                       (new_GameState (pile ++ [s]) (players_0 g)
                          (new_Player (l1 ++ l2)) 0 false false false true)
                       dk false false (length dk + 1) (pile ++ [s])
                       (player1HandContainer w) (l1 ++ l2)
                       (new_Buttons true true true true))
                    None false false).
Proof.
  intros HI. open_round r. open_inv HI. projs. intros ->.
  destruct inv_timer_turn0 as [-> ->]; [reflexivity|].
  destruct inv_waiting0 as [-> ->]; [reflexivity|]. subst.
  cbn [andb] in inv_phase0.
  unfold timerFires, performTurn. projs. flatten.
  rewrite inv_three0. cbn [Nat.eqb andb].
  destruct (shouldKnock _) eqn:Ek.
  { intros H. injection H as <-. left. split; reflexivity. }
  match goal with
  | |- context [player2DrawCard ?w] =>
      destruct (player2DrawCard w) as [w1|] eqn:Ed; [|discriminate]
  end.
  apply player2DrawCard_effect in Ed.
  destruct Ed as [(l & c & -> & ->)|(l & c & -> & ->)].
  - assert (HP : Permutation
                   (map face (l ++ discardPile0 ++ player1HandContainer0
                              ++ (hand1 ++ [c]))) allFaces)
      by (eapply perm_trans; [|eassumption]; apply Permutation_map; perm).
    projs.
    rewrite shouldKnock_only_with_three
      by (projs; rewrite length_app; cbn [length]; lia).
    match goal with
    | |- context [player2DiscardCard ?w] =>
        destruct (player2DiscardCard w) as [w2|] eqn:Eq; [|discriminate]
    end.
    apply player2DiscardCard_effect in Eq;
      [|eapply NoDup_display_hand2, HP
       |intros E; apply app_eq_nil in E; destruct E; discriminate].
    destruct Eq as (l1 & s & l2 & Hh & Hsel & ->).
    intros H. injection H as <-. right. split; [reflexivity|].
    exists l, discardPile0, c, l1, s, l2.
    split; [left; split; reflexivity|]. split; [exact Hh|].
    split; [exact Hsel|]. flatten. rewrite inv_phase0. reflexivity.
  - assert (HP : Permutation
                   (map face (deck0 ++ l ++ player1HandContainer0
                              ++ (hand1 ++ [c]))) allFaces)
      by (eapply perm_trans; [|eassumption]; apply Permutation_map; perm).
    projs.
    rewrite shouldKnock_only_with_three
      by (projs; rewrite length_app; cbn [length]; lia).
    match goal with
    | |- context [player2DiscardCard ?w] =>
        destruct (player2DiscardCard w) as [w2|] eqn:Eq; [|discriminate]
    end.
    apply player2DiscardCard_effect in Eq;
      [|eapply NoDup_display_hand2, HP
       |intros E; apply app_eq_nil in E; destruct E; discriminate].
    destruct Eq as (l1 & s & l2 & Hh & Hsel & ->).
    intros H. injection H as <-. right. split; [reflexivity|].
    exists deck0, l, c, l1, s, l2.
    split; [right; split; reflexivity|]. split; [exact Hh|].
    split; [exact Hsel|]. flatten. rewrite inv_phase0. reflexivity.
Qed.




(** ** The actions of player 1 *)




Lemma with_world_same (r : Round) : with_world r (world r) = r.
Proof. destruct r. reflexivity. Qed.

(** While player 2 is to move or after a knock, the presses and the
    right click of player 1 find their guards closed. *)
Lemma closed_round_stays (r r' : Round) :
  Inv r ->
  currentPlayerIndex (gameState (world r)) = 1%nat \/ knockedPlayer r <> None ->
  step r r' ->
  r' = r \/ (turnTimer r = true /\ timerFires r = Some r').
Proof.
  intros HI Hc Hs.
  assert (Hb : buttons (world r) = new_Buttons false false false false).
  { destruct Hc as [Hc|Hc]; [exact (inv_locked r HI Hc)|].
    exact (proj1 (inv_knocked r HI Hc)). }
  assert (Hd : forall s, discardCard (world r) s = world r).
  { intros s. unfold discardCard.
    destruct Hc as [Hc|Hc].
    - rewrite Hc. cbn [Nat.eqb negb]. now rewrite orb_true_r.
    - destruct (inv_knocked r HI Hc) as (_ & _ & [Hk|Hk]).
      + rewrite Hk. cbn [Nat.eqb negb]. now rewrite orb_true_r.
      + pose proof (inv_phase r HI) as Hp. rewrite Hk in Hp.
        destruct (player1HasDrawn (gameState (world r)));
          destruct (player1HasDiscarded (gameState (world r)));
          try reflexivity.
        discriminate. }
  destruct Hs as [r w Hw|r w Hw|r s Hin|r|r r' Ht Hf|r].
  - left. unfold pressDrawCard in Hw. rewrite Hb in Hw. cbn in Hw.
    injection Hw as <-. apply with_world_same.
  - left. unfold pressDrawFromPile in Hw. rewrite Hb in Hw. cbn in Hw.
    injection Hw as <-. apply with_world_same.
  - left. rewrite Hd. apply with_world_same.
  - left. unfold roundPressEndTurn, endTurnAccepted, pressEndTurn.
    rewrite Hb. cbn [endTurnButton andb]. rewrite orb_false_r.
    now destruct r.
  - right. split; assumption.
  - left. unfold pressKnock. rewrite Hb. reflexivity.
Qed.

(** ** What holds of every round of play *)











(** X8: while player 2 is to move, player 1 cannot act: in every round
    that play can reach with [currentPlayerIndex] 1, a press of any of
    the four buttons and a right click on a card of the hand on display
    leave the round exactly as it is; the only step that changes it is
    the timer of the End Turn handler, which runs the turn of
    player 2. *)
Theorem player1_waits_for_player2 (r r' : Round) :
  reachable r -> currentPlayerIndex (gameState (world r)) = 1%nat ->
  step r r' ->
  r' = r \/ (turnTimer r = true /\ timerFires r = Some r').
Proof.
  intros Hr Hc Hs.
  exact (closed_round_stays r r' (reachable_invariant r Hr) (or_introl Hc) Hs).
Qed.

Lemma player1_waits_for_player2_witness :
  roundPressEndTurn endedRound = endedRound
  \/ (turnTimer endedRound = true
      /\ timerFires endedRound = Some (roundPressEndTurn endedRound)).
Proof.
  apply (player1_waits_for_player2 endedRound (roundPressEndTurn endedRound)).
  - exact endedRound_reachable.
  - vm_compute. reflexivity.
  - apply step_endTurn.
Defined.

(** X9: a knock ends the round: once [knockedPlayer] is set, in every
    round that play can reach, no press of the four buttons, no right
    click on a card of the hand on display and no timer changes the
    round any more. *)
Theorem knock_ends_the_round (r r' : Round) :
  reachable r -> knockedPlayer r <> None -> step r r' -> r' = r.
Proof.
  intros Hr Hk Hs. pose proof (reachable_invariant r Hr) as HI.
  destruct (closed_round_stays r r' HI (or_intror Hk) Hs) as [H|[Ht _]];
    [exact H|].
  destruct (inv_knocked r HI Hk) as (_ & Hf & _). congruence.
Qed.

Lemma knock_ends_the_round_witness : pressKnock knockedRound = knockedRound.
Proof.
  apply (knock_ends_the_round knockedRound (pressKnock knockedRound)).
  - exact knockedRound_reachable.
  - exact knockedRound_knocked.
  - apply step_knock.
Defined.











(** ** The deck only shrinks *)

Lemma updateButtonStates_deck (w : World) :
  deck (updateButtonStates w) = deck w.
Proof.
  unfold updateButtonStates.
  destruct (_ && _); [|reflexivity].
  destruct (_ =? 0)%nat; reflexivity.
Qed.

Lemma drawCardForPlayer1_deck (w w' : World) :
  drawCardForPlayer1 w = Some w' ->
  deck w' = deck w \/ exists c, deck w = deck w' ++ [c].
Proof.
  unfold drawCardForPlayer1. destruct (_ || _).
  { intros H. injection H as <-. now left. }
  destruct (takeFromDeck w) as [[[c w1]|]|] eqn:E; try discriminate.
  - destruct (takeFromDeck_Some _ _ _ E) as (Hd & _).
    intros H. injection H as <-. right. exists c.
    rewrite updateButtonStates_deck. exact Hd.
  - intros H. injection H as <-. now left.
Qed.

Lemma drawCardFromDiscardPile_deck (w w' : World) :
  drawCardFromDiscardPile w = Some w' -> deck w' = deck w.
Proof.
  unfold drawCardFromDiscardPile. destruct (_ || _).
  { intros H. now injection H as <-. }
  destruct (0 <? _)%nat; [|intros H; now injection H as <-].
  destruct (pop (discardPile (gameState w))) as [[c|] pile']; [|discriminate].
  intros H. injection H as <-. now rewrite updateButtonStates_deck.
Qed.

Lemma discardCard_deck (w : World) (cardSprite : Card) :
  deck (discardCard w cardSprite) = deck w.
Proof.
  unfold discardCard. destruct (_ || _); [reflexivity|].
  now rewrite updateButtonStates_deck.
Qed.

(** X22: no step of play puts a card into the deck: in every round that
    play can reach, a press of a button, a right click on a card of the
    hand on display or the turn of player 2 leaves the deck as it is or
    takes its top card; the discard pile is never shuffled back. *)
Theorem deck_only_shrinks (r r' : Round) :
  reachable r -> step r r' ->
  deck (world r') = deck (world r)
  \/ exists c, deck (world r) = deck (world r') ++ [c].
Proof.
  intros Hr Hs. pose proof (reachable_invariant r Hr) as HI.
  destruct Hs as [r w Hw|r w Hw|r s Hin|r|r r' Ht Hf|r].
  - unfold pressDrawCard in Hw.
    destruct (drawCardActionButton _);
      [exact (drawCardForPlayer1_deck _ _ Hw)|].
    injection Hw as <-. now left.
  - left. unfold pressDrawFromPile in Hw.
    destruct (drawFromPileButton _);
      [exact (drawCardFromDiscardPile_deck _ _ Hw)|].
    now injection Hw as <-.
  - left. apply discardCard_deck.
  - left. unfold roundPressEndTurn, pressEndTurn, endTurnHandler.
    cbn [world]. destruct (endTurnButton _); [|reflexivity].
    destruct (_ && _); reflexivity.
  - destruct (timerFires_outcome r r' HI Ht Hf)
      as [[_ ->]|(_ & dk & pile & c & l1 & s & l2 & Hsrc & _ & _ & ->)].
    + now left.
    + cbn [world deck]. destruct Hsrc as [[Hd _]|[_ ->]];
        [right; now exists c|now left].
  - left. unfold pressKnock. destruct (_ && _); reflexivity.
Qed.

Lemma deck_only_shrinks_witness :
  deck (world drawnRound) = deck (world dealtRound)
  \/ exists c, deck (world dealtRound) = deck (world drawnRound) ++ [c].
Proof.
  apply (deck_only_shrinks dealtRound drawnRound).
  - exact dealtRound_reachable.
  - unfold drawnRound. apply step_drawCard. vm_compute. reflexivity.
Defined.

(** X23: a draw of player 1 from an empty deck.  When the deck array is
    empty while the deck container still has a child (in play it always
    has one, the discard-pile container), the test
    [children.length > 0] of [drawCardForPlayer1] does not stop the draw:
    for a player 1 who is to move, has not drawn and is not in an
    animation, the handler takes [undefined] from [drawCard] and fails on
    it instead of returning. *)
Theorem draw_from_empty_deck_fails (w : World) :
  deck w = [] -> (0 < deckContainer w)%nat ->
  player1HasDrawn (gameState w) = false ->
  currentPlayerIndex (gameState w) = 0%nat ->
  isAnimating w = false ->
  drawCardForPlayer1 w = None.
Proof.
  intros He Hc Hn Hp Ha. unfold drawCardForPlayer1, takeFromDeck.
  rewrite Hn, Hp, Ha, He.
  replace (0 <? deckContainer w)%nat with true
    by (symmetry; apply Nat.ltb_lt; exact Hc).
  reflexivity.
Qed.

Lemma draw_from_empty_deck_fails_witness :
  drawCardForPlayer1 emptyDeckWorld = None.
Proof.
  apply (draw_from_empty_deck_fails emptyDeckWorld).
  - vm_compute. reflexivity.
  - vm_compute. lia.
  - vm_compute. reflexivity.
  - vm_compute. reflexivity.
  - vm_compute. reflexivity.
Defined.

(** ** The winner *)






(** ** [getSortedCards] *)

Section SortKey.
Context {A : Type}.
Variable cmp : A -> A -> Z.
Variable key : A -> Z.
Hypothesis cmp_key : forall a b, cmp a b = key a - key b.

Lemma insert_sorted (x : A) (l : list A) :
  StronglySorted (fun a b => key a <= key b) l ->
  StronglySorted (fun a b => key a <= key b) (insert cmp x l).
Proof.
  induction 1 as [|y l Hl IH Hy]; simpl.
  - constructor; constructor.
  - rewrite cmp_key. destruct (0 <? key x - key y) eqn:E.
    + apply Z.ltb_lt in E. constructor; [exact IH|].
      rewrite Forall_forall. intros z Hz.
      apply (Permutation_in z (insert_perm cmp x l)) in Hz.
      destruct Hz as [<-|Hz]; [lia|].
      rewrite Forall_forall in Hy. now apply Hy.
    + apply Z.ltb_ge in E. constructor; [now constructor|].
      constructor; [lia|]. rewrite Forall_forall in *. intros z Hz.
      specialize (Hy z Hz). lia.
Qed.

Lemma js_sort_sorted (l : list A) :
  StronglySorted (fun a b => key a <= key b) (js_sort cmp l).
Proof.
  induction l as [|x l IH]; simpl; [constructor|].
  now apply insert_sorted.
Qed.

Lemma insert_stable (v : Z) (x : A) (l : list A) :
  StronglySorted (fun a b => key a <= key b) l ->
  filter (fun a => key a =? v) (insert cmp x l)
  = filter (fun a => key a =? v) (x :: l).
Proof.
  induction 1 as [|y l Hl IH Hy]; [reflexivity|].
  cbn [insert]. rewrite cmp_key. destruct (0 <? key x - key y) eqn:E.
  - apply Z.ltb_lt in E. cbn [filter] in *. rewrite IH.
    destruct (key x =? v) eqn:Ex; destruct (key y =? v) eqn:Ey;
      try reflexivity.
    apply Z.eqb_eq in Ex, Ey. lia.
  - reflexivity.
Qed.

Lemma js_sort_stable (v : Z) (l : list A) :
  filter (fun a => key a =? v) (js_sort cmp l)
  = filter (fun a => key a =? v) l.
Proof.
  induction l as [|x l IH]; [reflexivity|].
  cbn [js_sort fold_right]. fold (js_sort cmp l).
  rewrite insert_stable by apply js_sort_sorted.
  cbn [filter]. now rewrite IH.
Qed.
End SortKey.

(** X19: [getSortedCards] returns the cards it is given, in ascending
    order of rank value, and cards of equal rank value (ten, jack, queen,
    king) keep the order they came in. *)
Theorem getSortedCards_sorts_by_rank_value (cards : list Card) :
  Permutation (getSortedCards cards) cards
  /\ StronglySorted
       (fun a b => rankOrder (rank a) <= rankOrder (rank b))
       (getSortedCards cards)
  /\ forall v,
      filter (fun c => rankOrder (rank c) =? v) (getSortedCards cards)
      = filter (fun c => rankOrder (rank c) =? v) cards.
Proof.
  split; [apply getSortedCards_perm|]. split.
  - apply (js_sort_sorted _ (fun c => rankOrder (rank c))). reflexivity.
  - intros v. apply (js_sort_stable _ (fun c => rankOrder (rank c))).
    reflexivity.
Qed.

(** ** Dragging a card *)

Lemma removeChild_length (l : list Card) (s : Card) :
  In s l -> S (length (removeChild l s)) = length l.
Proof.
  intros H. destruct (removeChild_In l s H) as (l1 & l2 & -> & ->).
  rewrite !length_app. simpl. lia.
Qed.

(** X20: the end of a drag on a card of a hand without repeated cards:
    [snapCardToPosition] leaves the hand with the same cards, the
    dragged card at the index [Math.round(x / 60)] clamped to the
    positions of the hand, and the other cards in the order they had. *)
Theorem snapCardToPosition_reorders (children : list Card) (cardSprite : Card)
  (cardIndex : Z) :
  In cardSprite children -> NoDup children ->
  let clampedIndex :=
    Z.max 0 (Z.min (Z.of_nat (length children) - 1) cardIndex) in
  Permutation (snapCardToPosition children cardSprite cardIndex) children
  /\ nth_error (snapCardToPosition children cardSprite cardIndex)
       (Z.to_nat clampedIndex) = Some cardSprite
  /\ removeChild (snapCardToPosition children cardSprite cardIndex) cardSprite
     = removeChild children cardSprite.
Proof.
  intros Hin Hnd clampedIndex.
  split; [now apply snapCardToPosition_perm|].
  unfold snapCardToPosition. fold clampedIndex. cbv zeta.
  pose proof (removeChild_length children cardSprite Hin) as Hlen.
  set (others := removeChild children cardSprite) in *.
  assert (Hn : (Z.to_nat clampedIndex <= length others)%nat).
  { unfold clampedIndex. lia. }
  assert (Hf : length (firstn (Z.to_nat clampedIndex) others)
               = Z.to_nat clampedIndex).
  { apply firstn_length_le, Hn. }
  split.
  - rewrite nth_error_app2 by lia. rewrite Hf, Nat.sub_diag. reflexivity.
  - rewrite removeChild_first; [apply firstn_skipn|].
    intros Hx.
    assert (Hx' : In cardSprite others).
    { rewrite <- (firstn_skipn (Z.to_nat clampedIndex) others).
      apply in_or_app. now left. }
    clear Hx. rename Hx' into Hx.
    destruct (removeChild_In children cardSprite Hin) as (l1 & l2 & E1 & E2).
    fold others in E2. rewrite E2 in Hx. rewrite E1 in Hnd.
    apply NoDup_remove_2 in Hnd. contradiction.
Qed.

Lemma snapCardToPosition_reorders_witness :
  Permutation
    (snapCardToPosition
       [card spades rA; card hearts r7; card spades r9; card hearts r2]
       (card hearts r7) 5)
    [card spades rA; card hearts r7; card spades r9; card hearts r2]
  /\ nth_error
       (snapCardToPosition
          [card spades rA; card hearts r7; card spades r9; card hearts r2]
          (card hearts r7) 5)
       (Z.to_nat
          (Z.max 0
             (Z.min
                (Z.of_nat
                   (length
                      [card spades rA; card hearts r7; card spades r9;
                       card hearts r2]) - 1) 5)))
     = Some (card hearts r7)
  /\ removeChild
       (snapCardToPosition
          [card spades rA; card hearts r7; card spades r9; card hearts r2]
          (card hearts r7) 5)
       (card hearts r7)
     = removeChild
         [card spades rA; card hearts r7; card spades r9; card hearts r2]
         (card hearts r7).
Proof.
  apply (snapCardToPosition_reorders
           [card spades rA; card hearts r7; card spades r9; card hearts r2]
           (card hearts r7) 5).
  - simpl. tauto.
  - repeat constructor; simpl; intuition discriminate.
Defined.

(** ** Every order of the deck can come out of the shuffle *)

Lemma set_nth_app_l {A : Type} (l r : list A) (i : nat) (x : A) :
  (i < length l)%nat -> set_nth i x (l ++ r) = set_nth i x l ++ r.
Proof.
  revert i. induction l as [|y l IH]; intros [|i] H; simpl in *;
    try lia; try reflexivity.
  f_equal. apply IH. lia.
Qed.

Lemma set_nth_last {A : Type} (l : list A) (x y : A) :
  set_nth (length l) y (l ++ [x]) = l ++ [y].
Proof. induction l as [|z l IH]; simpl; [reflexivity|]. now rewrite IH. Qed.

Lemma set_nth_id {A : Type} (l : list A) (i : nat) (x : A) :
  nth_error l i = Some x -> set_nth i x l = l.
Proof.
  revert i. induction l as [|y l IH]; intros [|i] H; simpl in *;
    try discriminate.
  - now injection H as ->.
  - f_equal. now apply IH.
Qed.

Lemma swap_same (i : nat) (l : list Card) : swap i i l = l.
Proof.
  unfold swap. destruct (nth_error l i) as [c|] eqn:E; [|reflexivity].
  rewrite (set_nth_id l i c E). apply set_nth_id, E.
Qed.

Lemma swap_last (l : list Card) (x y : Card) (j : nat) :
  nth_error l j = Some y ->
  swap (length l) j (l ++ [x]) = set_nth j x l ++ [y].
Proof.
  intros Hj. pose proof (nth_error_lt _ _ _ Hj) as Hlt. unfold swap.
  rewrite nth_error_app2, Nat.sub_diag by lia. cbn [nth_error].
  rewrite nth_error_app1, Hj by exact Hlt.
  rewrite set_nth_last. apply set_nth_app_l, Hlt.
Qed.

Lemma swap_app (l r : list Card) (i j : nat) :
  (i < length l)%nat -> (j < length l)%nat ->
  swap i j (l ++ r) = swap i j l ++ r.
Proof.
  intros Hi Hj. unfold swap. rewrite !nth_error_app1 by assumption.
  destruct (nth_error l i) as [ci|] eqn:Ei.
  2:{ apply nth_error_None in Ei. lia. }
  destruct (nth_error l j) as [cj|] eqn:Ej.
  2:{ apply nth_error_None in Ej. lia. }
  rewrite set_nth_app_l by exact Hi.
  apply set_nth_app_l. now rewrite set_nth_length.
Qed.

Lemma shuffle_from_app (random : nat -> nat) (i : nat) (l r : list Card) :
  (i < length l)%nat ->
  shuffle_from random i (l ++ r) = shuffle_from random i l ++ r.
Proof.
  revert l. induction i as [|i IH]; intros l Hi; [reflexivity|].
  cbn [shuffle_from].
  assert (Hj : (random (S i) mod (S i + 1) < length l)%nat).
  { pose proof (Nat.mod_upper_bound (random (S i)) (S i + 1)). lia. }
  rewrite swap_app by assumption.
  apply IH. rewrite swap_length. lia.
Qed.

Lemma shuffle_from_ext (random random' : nat -> nat) (i : nat)
  (l : list Card) :
  (forall k, (1 <= k <= i)%nat -> random k = random' k) ->
  shuffle_from random i l = shuffle_from random' i l.
Proof.
  revert l. induction i as [|i IH]; intros l H; [reflexivity|].
  cbn [shuffle_from]. rewrite (H (S i)) by lia.
  apply IH. intros k Hk. apply H. lia.
Qed.

Lemma shuffle_from_reaches (n : nat) (l target : list Card) :
  length l = n -> Permutation l target ->
  exists random, shuffle_from random (n - 1) l = target.
Proof.
  revert l target. induction n as [|n IH]; intros l target Hn Hp.
  - apply length_zero_iff_nil in Hn. subst l.
    apply Permutation_nil in Hp. subst target.
    exists (fun _ => 0%nat). reflexivity.
  - destruct l as [|x l _] using rev_ind; [discriminate|].
    rewrite length_app in Hn. cbn [length] in Hn.
    assert (Hl : length l = n) by lia.
    destruct target as [|y target _] using rev_ind.
    { apply Permutation_sym, Permutation_nil in Hp.
      apply app_eq_nil in Hp. destruct Hp; discriminate. }
    replace (S n - 1)%nat with n by lia.
    destruct n as [|n].
    { apply length_zero_iff_nil in Hl. subst l. cbn [app] in Hp.
      pose proof (Permutation_length Hp) as Hlen.
      rewrite length_app in Hlen. cbn [length] in Hlen.
      destruct target as [|z t]; [|simpl in Hlen; lia].
      cbn [app] in *. apply Permutation_length_1 in Hp. subst y.
      exists (fun _ => 0%nat). reflexivity. }
    assert (Hy : In y (l ++ [x])).
    { eapply Permutation_in; [apply Permutation_sym, Hp|].
      apply in_or_app. right. now left. }
    apply in_app_or in Hy. destruct Hy as [Hy|[->|[]]].
    + apply In_nth_error in Hy. destruct Hy as [j Hj].
      pose proof (nth_error_lt _ _ _ Hj) as Hjlt.
      assert (Hp' : Permutation (set_nth j x l) target).
      { assert (H : Permutation (set_nth j x l ++ [y]) (target ++ [y])).
        { eapply perm_trans; [|exact Hp].
          eapply perm_trans; [apply Permutation_sym, Permutation_cons_append|].
          eapply perm_trans; [apply (set_nth_perm l j y x Hj)|].
          apply Permutation_cons_append. }
        exact (Permutation_app_inv_r _ _ _ H). }
      destruct (IH (set_nth j x l) target) as [random Hr];
        [now rewrite set_nth_length|exact Hp'|].
      replace (S n - 1)%nat with n in Hr by lia.
      exists (fun k => if (k =? S n)%nat then j else random k).
      cbn [shuffle_from]. rewrite Nat.eqb_refl.
      rewrite Nat.mod_small by lia.
      replace (swap (S n) j (l ++ [x])) with (set_nth j x l ++ [y])
        by (rewrite <- Hl; symmetry; apply swap_last, Hj).
      rewrite shuffle_from_app by (rewrite set_nth_length; lia).
      f_equal. rewrite <- Hr. apply shuffle_from_ext.
      intros k Hk. destruct (Nat.eqb_spec k (S n)); [lia|reflexivity].
    + assert (Hp' : Permutation l target)
        by exact (Permutation_app_inv_r _ _ _ Hp).
      destruct (IH l target Hl Hp') as [random Hr].
      replace (S n - 1)%nat with n in Hr by lia.
      exists (fun k => if (k =? S n)%nat then S n else random k).
      cbn [shuffle_from]. rewrite Nat.eqb_refl.
      rewrite Nat.mod_small by lia. rewrite swap_same.
      rewrite shuffle_from_app by lia.
      f_equal. rewrite <- Hr. apply shuffle_from_ext.
      intros k Hk. destruct (Nat.eqb_spec k (S n)); [lia|reflexivity].
Qed.

(** X24: every order of the deck can come out of the shuffle: for every
    arrangement of the cards of an array there are random choices for
    which [shuffle] turns the array into that arrangement.  With the
    array the constructor builds, every order of the 52 cards is the
    deck of some new game. *)
Theorem shuffle_reaches_every_order (cards target : list Card) :
  Permutation cards target ->
  exists random, shuffle random cards = target.
Proof.
  intros Hp.
  exact (shuffle_from_reaches (length cards) cards target eq_refl Hp).
Qed.

Lemma shuffle_reaches_every_order_witness :
  exists random, new_Deck random suits ranks = rev (build suits ranks).
Proof.
  apply (shuffle_reaches_every_order (build suits ranks)
           (rev (build suits ranks))).
  apply Permutation_rev.
Defined.
